(** * git-auto-commit: the synchronisation coordinator of [index.js]

    A shallow embedding of the daemon's [StateManager], of the two
    asynchronous cycles it drives ([batchedCommit] and [pullUpdates]) and of
    the Node event loop that interleaves them.

    Node runs one callback at a time.  An [async] function runs
    synchronously up to an [await], is suspended there until the awaited
    promise settles, and other callbacks (watcher events, timers, other
    suspended functions) run in between.  The two cycles are therefore
    embedded as programs with explicit suspension points ([Prog]); a cycle
    that is suspended is kept in the world with its continuation and is
    resumed by the event that delivers git's reply.

    Left out: the startup checks of [verifyRepo] (only the list of
    submodules they collect is kept), the statistics report, and the
    splitting of the text of [git submodule status] into folder names. *)

From Stdlib Require Import String Ascii List ZArith Bool Lia DecimalString.
From Stdlib Require Import FunctionalExtensionality.
Import ListNotations.
Local Open Scope list_scope.
Local Open Scope string_scope.

(** ** Configuration constants *)

Definition BATCH_INTERVAL_MS : Z := 1 * 60 * 1000.
Definition PULL_INTERVAL_MS : Z := 1 * 60 * 1000.

(** ** What the daemon does to the outside world *)

Inductive Level := INFO | WARN | ERROR.

(** A [simpleGit] handle: [git], made for [WATCH_DIR], or the handle
    [simpleGit(path.join(WATCH_DIR, rel))] made for the folder name [rel].
    Two handles can work in the same folder: [path.join(WATCH_DIR, '')] is
    [WATCH_DIR], so that [Sub ""] works on the tree of the superproject
    (see [treeOf]). *)
Inductive Repo :=
| Super
| Sub (rel : string).

Inductive GitCall :=
| RawSubmoduleStatus                 (* raw(['submodule','status','--recursive']) *)
| Status
| BranchLocal
| AddAll                             (* add('.') *)
| Commit (message : string)
| Checkout (branch : string)
| Push (remote branch : string)
| Pull (remote branch : string).

(** One observable action: a git command issued against a tree, or a line
    written by [logInfo] / [logWarn] / [logError].  The prefix those helpers
    put before the message (level, timestamp, current state) is left out of
    the message text. *)
Inductive Action :=
| Git (r : Repo) (c : GitCall)
| Console (l : Level) (msg : string).

(** What the promise of a git call settles with.  [Text] is the reply to
    [RawSubmoduleStatus], given as the folder names that lines 284-289 of
    [index.js] extract from the text; [StatusSummary] carries
    [files.length] and, when the field is there, [submodules.length];
    [BranchSummary] carries [current]. *)
Inductive Reply :=
| Failed (message : string)
| Done
| Text (folderNames : list string)
| StatusSummary (files : nat) (pointers : option nat)
| BranchSummary (current : string).

(** ** Asynchronous programs *)

(** The statements of the cycles that act on the coordinator. *)
Inductive Cmd :=
| Log (l : Level) (msg : string)
| SetState (newState : string)       (* stateManager.setState(newState) *)
| ForgetBatchTimer                   (* batchTimer = null *)
| ProcessDone.                       (* stateManager.processDone() *)

(** A program is a tree: it returns, throws, runs a statement, asks the
    file system ([fs.existsSync], synchronous) or awaits a git call. *)
Inductive Prog (A : Type) : Type :=
| Ret (a : A)
| Throw (message : string)
| Do (c : Cmd) (k : Prog A)
| ExistsSync (rel : string) (k : bool -> Prog A)
| Await (r : Repo) (c : GitCall) (k : Reply -> Prog A).
Arguments Ret {A} a.
Arguments Throw {A} message.
Arguments Do {A} c k.
Arguments ExistsSync {A} rel k.
Arguments Await {A} r c k.

Fixpoint bind {A B} (m : Prog A) (f : A -> Prog B) : Prog B :=
  match m with
  | Ret a => f a
  | Throw e => Throw e
  | Do c k => Do c (bind k f)
  | ExistsSync rel k => ExistsSync rel (fun b => bind (k b) f)
  | Await r c k => Await r c (fun reply => bind (k reply) f)
  end.

(** [try { m } catch (e) { h e.message }] *)
Fixpoint try_catch {A} (m : Prog A) (h : string -> Prog A) : Prog A :=
  match m with
  | Ret a => Ret a
  | Throw e => h e
  | Do c k => Do c (try_catch k h)
  | ExistsSync rel k => ExistsSync rel (fun b => try_catch (k b) h)
  | Await r c k => Await r c (fun reply => try_catch (k reply) h)
  end.

Declare Scope prog_scope.
Delimit Scope prog_scope with prog.
Notation "x <- m ;; k" := (bind m (fun x => k))
  (at level 61, m at next level, right associativity) : prog_scope.
Notation "m ;; k" := (bind m (fun _ => k))
  (at level 61, right associativity) : prog_scope.
Local Open Scope prog_scope.

Definition logInfo (msg : string) : Prog unit := Do (Log INFO msg) (Ret tt).
Definition logWarn (msg : string) : Prog unit := Do (Log WARN msg) (Ret tt).

(** What reading a field of a reply of the wrong shape raises. *)
Definition typeError : string := "TypeError".

(** [await git.call(...)] where the value is not used. *)
Definition call (r : Repo) (c : GitCall) : Prog unit :=
  Await r c (fun reply =>
    match reply with
    | Failed e => Throw e
    | _ => Ret tt
    end).

(** [await git.status()], read through [files.length] and
    [submodules.length]. *)
Definition status (r : Repo) : Prog (nat * option nat) :=
  Await r Status (fun reply =>
    match reply with
    | StatusSummary files pointers => Ret (files, pointers)
    | Failed e => Throw e
    | _ => Throw typeError
    end).

(** [(await git.branchLocal()).current] *)
Definition branchLocal (r : Repo) : Prog string :=
  Await r BranchLocal (fun reply =>
    match reply with
    | BranchSummary current => Ret current
    | Failed e => Throw e
    | _ => Throw typeError
    end).

(** [(await git.raw(['submodule','status','--recursive']))] followed by the
    extraction of the folder names. *)
Definition submoduleFolders : Prog (list string) :=
  Await Super RawSubmoduleStatus (fun reply =>
    match reply with
    | Text folderNames => Ret folderNames
    | Failed e => Throw e
    | _ => Throw typeError
    end).

(** [for (const x of l) body] *)
Fixpoint forEach {A} (l : list A) (body : A -> Prog unit) : Prog unit :=
  match l with
  | [] => Ret tt
  | x :: l' => body x ;; forEach l' body
  end.

(** ** The commit message *)

Definition dquote : string := String (ascii_of_nat 34) "".
Definition quoted (s : string) : string := dquote ++ s ++ dquote.
Definition decimal (n : nat) : string := NilEmpty.string_of_uint (Nat.to_uint n).

(** [JSON.stringify(commitObj)], where [commitObj] spreads [baseCommitObj]
    and adds [numFiles] and, for the superproject, [numSubmodules].  [date]
    is the text [new Date().toISOString().replace('T', ' ').slice(0, 19)]. *)
Definition stringify (date : string) (numFiles : nat) (numSubmodules : option nat)
  : string :=
  "{" ++ quoted "author" ++ ":" ++ quoted "pve3 Obsidian-Phone" ++ ","
      ++ quoted "date" ++ ":" ++ quoted date ++ ","
      ++ quoted "lines" ++ ":{" ++ quoted "added" ++ ":0,"
                                ++ quoted "removed" ++ ":0},"
      ++ quoted "numFiles" ++ ":" ++ decimal numFiles
      ++ match numSubmodules with
         | Some k => "," ++ quoted "numSubmodules" ++ ":" ++ decimal k
         | None => ""
         end
      ++ "}".

(** ** async function batchedCommit *)

(** The body of the [for (const folderName of folderNames)] loop.  The
    [continue] statements end the iteration; they are the branches that
    return without going on. *)
Definition commitSubmodule (date folderName : string) : Prog unit :=
  present <- ExistsSync folderName Ret ;;
  if negb present then
    logWarn ("Skipping missing submodule path: " ++ folderName)
  else
    statusSummary <- status (Sub folderName) ;;
    currentBranch <- branchLocal (Sub folderName) ;;
    if (0 <? fst statusSummary)%nat then
      call (Sub folderName) AddAll ;;
      let commitMsg := stringify date (fst statusSummary) None in
      committed <-
        try_catch
          (call (Sub folderName) (Commit commitMsg) ;;
           logInfo ("Committed submodule " ++ folderName ++ ", with message: "
                      ++ quoted commitMsg) ;;
           Ret true)
          (fun e =>
             logWarn ("Failed to commit submodule " ++ folderName ++ ": " ++ e) ;;
             Ret false) ;;
      if negb committed then Ret tt
      else
        onMain <-
          (if negb (String.eqb currentBranch "main") then
             try_catch
               (call (Sub folderName) (Checkout "main") ;;
                logInfo ("Checked out 'main' in submodule " ++ folderName) ;;
                Ret true)
               (fun e =>
                  logWarn ("Failed to checkout 'main' in submodule "
                             ++ folderName ++ ": " ++ e) ;;
                  Ret false)
           else Ret true) ;;
        if negb onMain then Ret tt
        else
          try_catch
            (call (Sub folderName) (Push "origin" "main") ;;
             logInfo ("Pushed submodule " ++ folderName ++ " to main"))
            (fun e =>
               logWarn ("Failed to push submodule " ++ folderName ++ ": " ++ e))
    else
      logInfo ("No changes to commit in submodule " ++ folderName).

(** Part 2, "Commit & push superproject".  The result tells whether control
    reaches the "Finalize" lines: [false] is the [return] taken when the
    superproject commit fails. *)
Definition commitSuperproject (date : string) : Prog bool :=
  mainStatus <- status Super ;;
  let hasChanges :=
    (0 <? fst mainStatus)%nat
    || match snd mainStatus with
       | Some k => (0 <? k)%nat
       | None => false
       end in
  if hasChanges then
    call Super AddAll ;;
    let commitMsg :=
      stringify date (fst mainStatus)
        (Some match snd mainStatus with Some k => k | None => 0%nat end) in
    committed <-
      try_catch
        (call Super (Commit commitMsg) ;;
         logInfo ("Superproject committed, with message: " ++ quoted commitMsg) ;;
         Ret true)
        (fun e =>
           logWarn ("Failed to commit superproject: " ++ e) ;;
           Ret false) ;;
    if negb committed then Ret false
    else
      branch <- branchLocal Super ;;
      (if negb (String.eqb branch "") then
         try_catch
           (call Super (Push "origin" branch) ;;
            logInfo ("Superproject pushed to " ++ branch))
           (fun e => logWarn ("Failed to push superproject: " ++ e))
       else
         logWarn "Superproject is in a detached HEAD; skipping push.") ;;
      Ret true
  else
    logInfo "No superproject or submodule pointer changes to commit" ;;
    Ret true.

(** "Finalize" *)
Definition finalize : Prog unit :=
  Do ForgetBatchTimer (Do ProcessDone (Ret tt)).

(** [batchedCommit] from the head of the submodule loop, with [folderNames]
    still to visit. *)
Definition commitFrom (date : string) (folderNames : list string) : Prog unit :=
  forEach folderNames (commitSubmodule date) ;;
  reached <- commitSuperproject date ;;
  if reached then finalize else Ret tt.

Definition batchedCommit (date : string) : Prog unit :=
  logInfo "Performing batched commit..." ;;
  Do (SetState "committing") (Ret tt) ;;
  folderNames <- submoduleFolders ;;
  logInfo ("Submodule folders: " ++ String.concat ", " folderNames) ;;
  commitFrom date folderNames.

(** ** async function pullUpdates *)

Record Submodule := { name : string; path : string }.

(** [sub.git] is [simpleGit(path)] with [path = path.join(WATCH_DIR, name)]. *)
Definition pullSubmodule (sub : Submodule) : Prog unit :=
  try_catch
    (currentBranch <- branchLocal (Sub (name sub)) ;;
     if negb (String.eqb currentBranch "main") then
       logWarn ("Skipping pull in " ++ path sub ++ " (not on main)")
     else
       call (Sub (name sub)) (Pull "origin" "main") ;;
       logInfo ("Pulled latest changes in submodule " ++ path sub))
    (fun e => logWarn ("Failed to pull submodule " ++ path sub ++ ": " ++ e)).

Definition pullUpdates (submodules : list Submodule) : Prog unit :=
  logInfo "Attempting to pull latest changes..." ;;
  try_catch
    (call Super (Pull "origin" "main") ;;
     logInfo "Pulled latest changes in superproject")
    (fun e => logWarn ("Failed to pull superproject: " ++ e)) ;;
  forEach submodules pullSubmodule ;;
  Do ProcessDone (Ret tt).

(** ** The coordinator's memory and the event loop *)

Inductive Cycle := CommitCycle | PullCycle.

(** An invocation of [batchedCommit] or [pullUpdates] suspended at an
    [await]: the git call it waits for and what it does with the reply. *)
Record Suspended := {
  cycle : Cycle;
  repo : Repo;
  awaited : GitCall;
  resume : Reply -> Prog unit
}.

(** How a promise settles. *)
Inductive Settled :=
| Fulfilled
| Rejected (message : string).

(** The module-level variables of [index.js] together with what the event
    loop holds for them.

    - [currentState]: [stateManager.currentState], a string as in the source.
    - [batchTimer]: [null] or the handle [setTimeout] returned.
    - [timers]: the [setTimeout(batchedCommit, ...)] timers that are armed,
      i.e. neither expired nor cleared, each with the time it is due.
    - [pullTimer]: [null], or the time the [setInterval] tick is next due.
    - [submodules]: the list [verifyRepo] fills from [.gitmodules].
    - [inFlight]: the suspended invocations of the two cycles.
    - [pullsSettled]: promises of [pullUpdates()] that have settled and whose
      [.then] / [.catch] reaction in [maybePull] has not run yet.
    - [journal]: every git call issued and every line logged, in order.
    - [clock]: the time of the callback that ran last, in milliseconds.
    - [exited]: Node has ended the process; no callback runs any more. *)
Record World := {
  currentState : string;
  batchTimer : option nat;
  timers : list (nat * Z);
  nextHandle : nat;
  pullTimer : option Z;
  submodules : list Submodule;
  inFlight : list Suspended;
  pullsSettled : list Settled;
  journal : list Action;
  clock : Z;
  exited : bool
}.

Definition set_currentState (s : string) (w : World) : World :=
  {| currentState := s; batchTimer := batchTimer w; timers := timers w;
     nextHandle := nextHandle w; pullTimer := pullTimer w;
     submodules := submodules w; inFlight := inFlight w;
     pullsSettled := pullsSettled w; journal := journal w; clock := clock w;
     exited := exited w |}.

Definition set_batchTimer (b : option nat) (w : World) : World :=
  {| currentState := currentState w; batchTimer := b; timers := timers w;
     nextHandle := nextHandle w; pullTimer := pullTimer w;
     submodules := submodules w; inFlight := inFlight w;
     pullsSettled := pullsSettled w; journal := journal w; clock := clock w;
     exited := exited w |}.

Definition set_timers (ts : list (nat * Z)) (w : World) : World :=
  {| currentState := currentState w; batchTimer := batchTimer w; timers := ts;
     nextHandle := nextHandle w; pullTimer := pullTimer w;
     submodules := submodules w; inFlight := inFlight w;
     pullsSettled := pullsSettled w; journal := journal w; clock := clock w;
     exited := exited w |}.

Definition set_nextHandle (n : nat) (w : World) : World :=
  {| currentState := currentState w; batchTimer := batchTimer w;
     timers := timers w; nextHandle := n; pullTimer := pullTimer w;
     submodules := submodules w; inFlight := inFlight w;
     pullsSettled := pullsSettled w; journal := journal w; clock := clock w;
     exited := exited w |}.

Definition set_pullTimer (p : option Z) (w : World) : World :=
  {| currentState := currentState w; batchTimer := batchTimer w;
     timers := timers w; nextHandle := nextHandle w; pullTimer := p;
     submodules := submodules w; inFlight := inFlight w;
     pullsSettled := pullsSettled w; journal := journal w; clock := clock w;
     exited := exited w |}.

Definition set_submodules (l : list Submodule) (w : World) : World :=
  {| currentState := currentState w; batchTimer := batchTimer w;
     timers := timers w; nextHandle := nextHandle w; pullTimer := pullTimer w;
     submodules := l; inFlight := inFlight w;
     pullsSettled := pullsSettled w; journal := journal w; clock := clock w;
     exited := exited w |}.

Definition set_inFlight (l : list Suspended) (w : World) : World :=
  {| currentState := currentState w; batchTimer := batchTimer w;
     timers := timers w; nextHandle := nextHandle w; pullTimer := pullTimer w;
     submodules := submodules w; inFlight := l;
     pullsSettled := pullsSettled w; journal := journal w; clock := clock w;
     exited := exited w |}.

Definition set_pullsSettled (l : list Settled) (w : World) : World :=
  {| currentState := currentState w; batchTimer := batchTimer w;
     timers := timers w; nextHandle := nextHandle w; pullTimer := pullTimer w;
     submodules := submodules w; inFlight := inFlight w;
     pullsSettled := l; journal := journal w; clock := clock w;
     exited := exited w |}.

Definition set_journal (j : list Action) (w : World) : World :=
  {| currentState := currentState w; batchTimer := batchTimer w;
     timers := timers w; nextHandle := nextHandle w; pullTimer := pullTimer w;
     submodules := submodules w; inFlight := inFlight w;
     pullsSettled := pullsSettled w; journal := j; clock := clock w;
     exited := exited w |}.

Definition set_clock (t : Z) (w : World) : World :=
  {| currentState := currentState w; batchTimer := batchTimer w;
     timers := timers w; nextHandle := nextHandle w; pullTimer := pullTimer w;
     submodules := submodules w; inFlight := inFlight w;
     pullsSettled := pullsSettled w; journal := journal w; clock := t;
     exited := exited w |}.

Definition set_exited (b : bool) (w : World) : World :=
  {| currentState := currentState w; batchTimer := batchTimer w;
     timers := timers w; nextHandle := nextHandle w; pullTimer := pullTimer w;
     submodules := submodules w; inFlight := inFlight w;
     pullsSettled := pullsSettled w; journal := journal w; clock := clock w;
     exited := b |}.

(** Appends actions to the journal. *)
Definition record (tr : list Action) (w : World) : World :=
  set_journal (journal w ++ tr)%list w.

Definition say (l : Level) (msg : string) : World -> World :=
  record [Console l msg].

(** *** Timers *)

(** [setTimeout(batchedCommit, ms)] called at time [clock w]: arms a fresh
    timer and returns its handle. *)
Definition setTimeout (ms : Z) (w : World) : nat * World :=
  let h := nextHandle w in
  (h, set_nextHandle (S h)
        (set_timers (timers w ++ [(h, (clock w + ms)%Z)])%list w)).

(** [clearTimeout(h)]: disarms [h]; nothing happens when [h] has expired or
    was cleared before. *)
Definition clearTimeout (h : nat) (w : World) : World :=
  set_timers (filter (fun e => negb (Nat.eqb (fst e) h)) (timers w)) w.

(** The timer [h] leaves the armed timers when it fires. *)
Definition expire (h : nat) (w : World) : World :=
  set_timers (filter (fun e => negb (Nat.eqb (fst e) h)) (timers w)) w.

Definition dueTime (h : nat) (w : World) : option Z :=
  option_map snd (find (fun e => Nat.eqb (fst e) h) (timers w)).

(** *** class StateManager *)

(** [new StateManager()], with the module-level [let]s at their initial
    values. *)
Definition construct : World :=
  {| currentState := "initializing"; batchTimer := None; timers := [];
     nextHandle := 0; pullTimer := None; submodules := [];
     inFlight := []; pullsSettled := []; journal := []; clock := 0;
     exited := false |}.

Definition setState (newState : string) (w : World) : World :=
  if negb (String.eqb (currentState w) newState) then
    set_currentState newState
      (say INFO ("State changed: " ++ currentState w ++ " -> " ++ newState) w)
  else w.

Definition processDone (w : World) : World :=
  match batchTimer w with
  | Some _ => setState "pending" w
  | None => setState "idle" w
  end.

Definition exec (c : Cmd) (w : World) : World :=
  match c with
  | Log l msg => say l msg w
  | SetState newState => setState newState w
  | ForgetBatchTimer => set_batchTimer None w
  | ProcessDone => processDone w
  end.

(** *** Running a program up to its next suspension *)

Inductive Stop :=
| Finished (s : Settled)
| Waiting (r : Repo) (c : GitCall) (k : Reply -> Prog unit).

(** Runs [p] in one turn of the event loop: statements act on the world,
    [fs.existsSync] is answered by the file system [fs] as it is during this
    turn, and the run stops at the first [await], whose git call is issued. *)
Fixpoint advance (fs : string -> bool) (p : Prog unit) (w : World) : World * Stop :=
  match p with
  | Ret _ => (w, Finished Fulfilled)
  | Throw e => (w, Finished (Rejected e))
  | Do c k => advance fs k (exec c w)
  | ExistsSync rel k => advance fs (k (fs rel)) w
  | Await r c k => (record [Git r c] w, Waiting r c k)
  end.

(** What becomes of the promise an invocation returned.  [maybePull]
    attached its two reactions to the one of [pullUpdates].  The timer that
    called [batchedCommit] drops the promise: when it is rejected nothing
    handles the rejection, and Node ends the process on an unhandled
    rejection. *)
Definition settle (cy : Cycle) (s : Settled) (w : World) : World :=
  match cy, s with
  | PullCycle, _ => set_pullsSettled (pullsSettled w ++ [s])%list w
  | CommitCycle, Fulfilled => w
  | CommitCycle, Rejected _ => set_exited true w
  end.

(** The file system is not consulted before the first [await] of either
    cycle, so a cycle is started against any [fs]. *)
Definition spawn (cy : Cycle) (p : Prog unit) (w : World) : World :=
  match advance (fun _ => true) p w with
  | (w', Finished s) => settle cy s w'
  | (w', Waiting r c k) =>
      set_inFlight
        (inFlight w' ++ [{| cycle := cy; repo := r; awaited := c; resume := k |}])%list
        w'
  end.

(** Git's reply to the call the [i]-th suspended invocation waits for. *)
Definition gitSettles (i : nat) (reply : Reply) (fs : string -> bool) (w : World)
  : option World :=
  match nth_error (inFlight w) i with
  | None => None
  | Some task =>
      match advance fs (resume task reply) w with
      | (w', Finished s) =>
          Some (settle (cycle task) s
                  (set_inFlight
                     (firstn i (inFlight w') ++ skipn (S i) (inFlight w'))%list w'))
      | (w', Waiting r c k) =>
          Some (set_inFlight
                  (firstn i (inFlight w')
                   ++ {| cycle := cycle task; repo := r; awaited := c; resume := k |}
                   :: skipn (S i) (inFlight w'))%list w')
      end
  end.

(** *** The callbacks *)

Definition maybePull (w : World) : World :=
  if String.eqb (currentState w) "idle" then
    spawn PullCycle (pullUpdates (submodules w))
      (setState "pulling" (say INFO "Checking for remote changes..." w))
  else
    say INFO ("Skipping pull, current state:" ++ currentState w) w.

(** The two reactions [maybePull] attaches to the promise of
    [pullUpdates()]. *)
Definition maybePull_then (w : World) : World :=
  setState "idle" (say INFO "Pull completed successfully." w).

Definition maybePull_catch (message : string) (w : World) : World :=
  setState "error" (say ERROR ("Pull failed: " ++ message) w).

(** [BATCH_INTERVAL_MS / 60000] prints as [1]. *)
Definition onChange (event filePath : string) (w : World) : World :=
  let w := setState "pending" w in
  let message := "File " ++ filePath ++ " changed: " ++ event in
  let (message, w) :=
    match batchTimer w with
    | Some h => (message ++ " (previous batch timer cleared)", clearTimeout h w)
    | None => (message, w)
    end in
  let (h, w) := setTimeout BATCH_INTERVAL_MS w in
  let w := set_batchTimer (Some h) w in
  let message := message ++ " (next commit in 1 minutes)" in
  say INFO message w.

(** The callback of the [setInterval(..., 10000)] armed by [init]: it prints
    the state when idle.  [seconds] is the text
    [(nextPullMs / 1000).toFixed(1)], taken as given. *)
Definition statusLogger (seconds : string) (w : World) : World :=
  if String.eqb (currentState w) "idle" then
    say INFO ("State: " ++ currentState w ++ " | Next pull in: " ++ seconds ++ "s") w
  else w.

Definition init (w : World) : World :=
  setState "idle" (say INFO "State manager initialized." w).

(** The main function at time [t0], once [verifyRepo] has filled
    [submodules] with [subs]: it calls [init], subscribes [onChange] to the
    watcher and arms the pull interval.  The lines [verifyRepo] and
    [writeStatsFile] log are not journaled. *)
Definition main (t0 : Z) (subs : list Submodule) : World :=
  set_pullTimer (Some (t0 + PULL_INTERVAL_MS)%Z)
    (say INFO "Initialization complete. Watching for changes..."
       (init (set_clock t0 (set_submodules subs construct)))).

(** *** One turn of the event loop *)

Inductive Event :=
| FileChanged (event filePath : string)
    (* the watcher calls onChange *)
| PullTick
    (* the interval calls maybePull *)
| BatchTimerExpires (h : nat) (date : string)
    (* the timer h calls batchedCommit; date is what it reads off the clock *)
| GitSettles (i : nat) (reply : Reply) (fs : string -> bool)
    (* the call of the i-th suspended invocation settles *)
| PullReaction
    (* the reaction to the oldest settled pullUpdates() promise runs *)
| StatusLog (seconds : string).
    (* the 10 s interval of init *)

(** [step w t e]: the callback of [e] runs at time [t].  [None] when [e]
    cannot happen in [w] at [t]: time does not go back, a timer fires only
    when armed and due, a reply needs a suspended invocation and a reaction
    a settled promise.  The callback may end the process ([exited]); [run]
    and [reachable] let no callback follow. *)
Definition step (w : World) (t : Z) (e : Event) : option World :=
  if (t <? clock w)%Z then None
  else
    let w := set_clock t w in
    match e with
    | FileChanged event filePath => Some (onChange event filePath w)
    | PullTick =>
        match pullTimer w with
        | Some due =>
            if (due <=? t)%Z
            then Some (maybePull (set_pullTimer (Some (t + PULL_INTERVAL_MS)%Z) w))
            else None
        | None => None
        end
    | BatchTimerExpires h date =>
        match dueTime h w with
        | Some due =>
            if (due <=? t)%Z
            then Some (spawn CommitCycle (batchedCommit date) (expire h w))
            else None
        | None => None
        end
    | GitSettles i reply fs => gitSettles i reply fs w
    | PullReaction =>
        match pullsSettled w with
        | [] => None
        | s :: rest =>
            let w := set_pullsSettled rest w in
            Some match s with
                 | Fulfilled => maybePull_then w
                 | Rejected message => maybePull_catch message w
                 end
        end
    | StatusLog seconds => Some (statusLogger seconds w)
    end.

(** The callbacks of [trace] run one after the other, as long as the process
    lives: once it has exited no callback runs. *)
Fixpoint run (w : World) (trace : list (Z * Event)) : option World :=
  match trace with
  | [] => Some w
  | (t, e) :: rest =>
      if exited w then None
      else
        match step w t e with
        | Some w' => run w' rest
        | None => None
        end
  end.

(** The worlds the daemon can be in once [main] has run; the last of them
    may be the one in which the process exited. *)
Inductive reachable : World -> Prop :=
| reachable_main : forall t0 subs, reachable (main t0 subs)
| reachable_step : forall w t e w',
    reachable w -> exited w = false -> step w t e = Some w' -> reachable w'.

(** ** Vocabulary of the properties *)

(** The members of SyncState the comment in the constructor of
    [StateManager] lists. *)
Definition SyncState : list string :=
  ["idle"; "pending"; "committing"; "pulling"; "blocked"; "error"].

(** The members the running daemon is found in. *)
Definition live : list string := ["idle"; "pending"; "committing"; "pulling"].

(** From [new StateManager()] on: the world is the constructed one until
    [main] has called [init], and a reachable one afterwards. *)
Inductive lifetime : World -> Prop :=
| lifetime_constructed : lifetime construct
| lifetime_running : forall w, reachable w -> lifetime w.

(** Every statement of a program satisfies [P]. *)
Fixpoint AllCmds {A} (P : Cmd -> Prop) (p : Prog A) : Prop :=
  match p with
  | Ret _ => True
  | Throw _ => True
  | Do c k => P c /\ AllCmds P k
  | ExistsSync _ k => forall b, AllCmds P (k b)
  | Await _ _ k => forall reply, AllCmds P (k reply)
  end.

(** No reply of git makes the program throw. *)
Fixpoint NoThrow {A} (p : Prog A) : Prop :=
  match p with
  | Ret _ => True
  | Throw _ => False
  | Do _ k => NoThrow k
  | ExistsSync _ k => forall b, NoThrow (k b)
  | Await _ _ k => forall reply, NoThrow (k reply)
  end.

Definition noSetState (c : Cmd) : Prop :=
  match c with
  | SetState _ => False
  | _ => True
  end.

(** What is known of every suspended invocation: past its first [await] a
    cycle calls [setState] only through [processDone], and [pullUpdates]
    catches whatever git throws. *)
Definition tame (task : Suspended) : Prop :=
  forall reply,
    AllCmds noSetState (resume task reply)
    /\ (cycle task = PullCycle -> NoThrow (resume task reply)).

(** Handles are given out in increasing order. *)
Definition freshHandles (w : World) : Prop :=
  Forall (fun e => (fst e < nextHandle w)%nat) (timers w).

Definition Inv (w : World) : Prop :=
  In (currentState w) live
  /\ Forall (fun s => s = Fulfilled) (pullsSettled w)
  /\ Forall tame (inFlight w)
  /\ freshHandles w.

(** A burst of change events, each with the time it arrives at. *)
Definition changes (burst : list (Z * (string * string))) : list (Z * Event) :=
  map (fun c => (fst c, FileChanged (fst (snd c)) (snd (snd c)))) burst.

(** The times of [burst] do not decrease, starting from [t0]. *)
Fixpoint chronological (t0 : Z) (burst : list (Z * (string * string))) : Prop :=
  match burst with
  | [] => True
  | c :: rest => (t0 <= fst c)%Z /\ chronological (fst c) rest
  end.

Definition lastTime (first : Z * (string * string))
    (rest : list (Z * (string * string))) : Z :=
  fst (last rest first).

(** The armed timers whose handle [batchTimer] does not hold: an
    [onChange] leaves them armed. *)
Definition unheld (w : World) : list (nat * Z) :=
  match batchTimer w with
  | Some h => filter (fun e => negb (Nat.eqb (fst e) h)) (timers w)
  | None => timers w
  end.

(** A suspended [batchedCommit] and a suspended [pullUpdates] both wait for
    a git command on the tree [r]. *)
Definition overlap (r : Repo) (w : World) : Prop :=
  exists commit pull,
    In commit (inFlight w) /\ In pull (inFlight w)
    /\ cycle commit = CommitCycle /\ cycle pull = PullCycle
    /\ repo commit = r /\ repo pull = r.

(** The git calls of the journal, in order. *)
Definition gitCalls (w : World) : list Action :=
  filter (fun a => match a with Git _ _ => true | Console _ _ => false end)
    (journal w).

(** The suspended invocations seen from outside: which cycle, which tree,
    which git call. *)
Definition suspended (w : World) : list (Cycle * Repo * GitCall) :=
  map (fun task => (cycle task, repo task, awaited task)) (inFlight w).

(** Git's replies [replies], one after the other and with nothing in
    between, to an invocation that has run up to [s]. *)
Fixpoint deliver (fs : string -> bool) (replies : list Reply) (s : World * Stop)
  : World * Stop :=
  match replies with
  | [] => s
  | reply :: rest =>
      match s with
      | (w, Waiting _ _ k) => deliver fs rest (advance fs (k reply) w)
      | _ => s
      end
  end.

(** ** Sample executions *)

(** A file system in which every submodule folder exists. *)
Definition allPresent : string -> bool := fun _ => true.

(** A pull that is still running when the batch timer of a change expires:
    tick at 60 s, a change one millisecond later, its timer at 120.001 s. *)
Definition slowPull : list (Z * Event) :=
  [ (60000, PullTick);
    (60001, FileChanged "change" "/vault/notes.md");
    (120001, BatchTimerExpires 0 "2025-01-01 00:02:00") ]%Z.

(** A change arrives during the first pull, which ends half a second later;
    the second pull starts at 120 s and the timer of the change expires at
    120.5 s. *)
Definition changeDuringPull : list (Z * Event) :=
  [ (60000, PullTick);
    (60500, FileChanged "change" "/vault/notes.md");
    (61000, GitSettles 0 Done allPresent);
    (61000, PullReaction) ]%Z.

Definition pullThenCommit : list (Z * Event) :=
  (changeDuringPull ++
   [ (120000, PullTick);
     (120500, BatchTimerExpires 0 "2025-01-01 00:02:00") ])%Z%list.

(** A change arrives while a commit cycle runs; the cycle finds no
    submodule and nothing to commit. *)
Definition changeDuringCommit : list (Z * Event) :=
  [ (1000, FileChanged "change" "/vault/notes.md");
    (61000, BatchTimerExpires 0 "2025-01-01 00:01:01");
    (61500, FileChanged "change" "/vault/todo.md");
    (61600, GitSettles 0 (Text []) allPresent);
    (62000, GitSettles 0 (StatusSummary 0 None) allPresent) ]%Z.

(** Two changes 38.5 s apart, the first during a commit cycle and the
    second after its end; then the two timers they armed expire, and the
    cycle the first one starts runs to its end in between. *)
Definition burstAcrossCycleEnd : list (Z * Event) :=
  (changeDuringCommit ++
   [ (100000, FileChanged "change" "/vault/notes.md") ])%Z%list.

Definition twoExpiries : list (Z * Event) :=
  [ (121500, BatchTimerExpires 1 "2025-01-01 00:02:01");
    (121600, GitSettles 0 (Text []) allPresent);
    (122000, GitSettles 0 (StatusSummary 1 None) allPresent);
    (122100, GitSettles 0 Done allPresent);
    (122200, GitSettles 0 Done allPresent);
    (122300, GitSettles 0 (BranchSummary "main") allPresent);
    (123000, GitSettles 0 Done allPresent);
    (160000, BatchTimerExpires 2 "2025-01-01 00:02:40") ]%Z.

(** The commit of the superproject fails. *)
Definition superprojectCommitFails : list (Z * Event) :=
  [ (1000, FileChanged "change" "/vault/notes.md");
    (61000, BatchTimerExpires 0 "2025-01-01 00:01:01");
    (61100, GitSettles 0 (Text []) allPresent);
    (61200, GitSettles 0 (StatusSummary 1 None) allPresent);
    (61300, GitSettles 0 Done allPresent);
    (61400, GitSettles 0 (Failed "index.lock exists") allPresent) ]%Z.

(** The pull of the superproject fails. *)
Definition superprojectPullFails : list (Z * Event) :=
  [ (60000, PullTick);
    (60900, GitSettles 0 (Failed "could not read from remote") allPresent);
    (60900, PullReaction) ]%Z.

(** A pull cycle in which every pull fails, over one submodule. *)
Definition vault : Submodule := {| name := "vault"; path := "/srv/notes/vault" |}.

Definition everyPullFails : list (Z * Event) :=
  [ (60000, PullTick);
    (60900, GitSettles 0 (Failed "could not read from remote") allPresent);
    (61000, GitSettles 0 (BranchSummary "main") allPresent);
    (61900, GitSettles 0 (Failed "could not read from remote") allPresent);
    (61900, PullReaction) ]%Z.

(** A commit cycle over the submodules vault and docs, up to the [add] in
    vault; then the reply to that [add], or to the [commit] after it. *)
Definition upToAdd : list (Z * Event) :=
  [ (1000, FileChanged "change" "/vault/notes.md");
    (61000, BatchTimerExpires 0 "2025-01-01 00:01:01");
    (61100, GitSettles 0 (Text ["vault"; "docs"]) allPresent);
    (61200, GitSettles 0 (StatusSummary 2 None) allPresent);
    (61300, GitSettles 0 (BranchSummary "main") allPresent) ]%Z.

Definition submoduleAddFails : list (Z * Event) :=
  (upToAdd ++ [ (61400, GitSettles 0 (Failed "index.lock exists") allPresent) ])%Z%list.

(** The [commit] in vault fails; docs has one changed file and the
    superproject two changed submodule pointers, and every other call
    resolves. *)
Definition submoduleCommitFails : list (Z * Event) :=
  (upToAdd ++
   [ (61400, GitSettles 0 Done allPresent);
     (61500, GitSettles 0 (Failed "hook declined") allPresent);
     (61600, GitSettles 0 (StatusSummary 1 None) allPresent);
     (61700, GitSettles 0 (BranchSummary "main") allPresent);
     (61800, GitSettles 0 Done allPresent);
     (61900, GitSettles 0 Done allPresent);
     (62000, GitSettles 0 Done allPresent);
     (62100, GitSettles 0 (StatusSummary 0 (Some 2%nat)) allPresent);
     (62200, GitSettles 0 Done allPresent);
     (62300, GitSettles 0 Done allPresent);
     (62400, GitSettles 0 (BranchSummary "main") allPresent);
     (62500, GitSettles 0 Done allPresent) ])%Z%list.

(** A change arrives while a commit cycle waits for the submodule status. *)
Definition changeDuringStatus : list (Z * Event) :=
  [ (1000, FileChanged "change" "/vault/notes.md");
    (61000, BatchTimerExpires 0 "2025-01-01 00:01:01");
    (61500, FileChanged "change" "/vault/todo.md") ]%Z.

(** Three changes at 0 s, 2 s and 4 s. *)
Definition threeChanges : list (Z * (string * string)) :=
  [ (0, ("change", "/vault/a.md"));
    (2000, ("change", "/vault/b.md"));
    (4000, ("add", "/vault/c.md")) ]%Z.

(** ** A cycle on its own *)

(** What a program is seen to do when it runs from start to end: the git
    calls with their replies, the questions to the file system with their
    answers, and the statements. *)
Inductive Obs :=
| Called (r : Repo) (c : GitCall) (reply : Reply)
| Asked (rel : string) (present : bool)
| Ran (c : Cmd).

(** One turn of the event loop as a cycle lives it: the folders that exist
    while the turn runs, and git's reply to the [await] that ends it. *)
Record Turn := { present : string -> bool; answer : Reply }.

(** The turns still to come after the first [n] of [env]. *)
Definition drop (n : nat) (env : nat -> Turn) : nat -> Turn :=
  fun k => env (n + k)%nat.

(** [observed env p]: what [p] does when its turns are [env 0], [env 1],
    ...  [outcome] is how it ends (a value, or the message it throws) and
    [used] the number of replies it takes. *)
Fixpoint observed {A} (env : nat -> Turn) (p : Prog A) : list Obs :=
  match p with
  | Ret _ => []
  | Throw _ => []
  | Do c k => Ran c :: observed env k
  | ExistsSync rel k =>
      Asked rel (present (env 0%nat) rel)
      :: observed env (k (present (env 0%nat) rel))
  | Await r c k =>
      Called r c (answer (env 0%nat))
      :: observed (drop 1 env) (k (answer (env 0%nat)))
  end.

Fixpoint outcome {A} (env : nat -> Turn) (p : Prog A) : A + string :=
  match p with
  | Ret a => inl a
  | Throw e => inr e
  | Do _ k => outcome env k
  | ExistsSync rel k => outcome env (k (present (env 0%nat) rel))
  | Await _ _ k => outcome (drop 1 env) (k (answer (env 0%nat)))
  end.

Fixpoint used {A} (env : nat -> Turn) (p : Prog A) : nat :=
  match p with
  | Ret _ => 0
  | Throw _ => 0
  | Do _ k => used env k
  | ExistsSync rel k => used env (k (present (env 0%nat) rel))
  | Await _ _ k => S (used (drop 1 env) (k (answer (env 0%nat))))
  end.

(** Every observation of [tr] that satisfies [target] comes after one that
    satisfies [need]. *)
Definition precededBy (need target : Obs -> Prop) (tr : list Obs) : Prop :=
  forall l1 o l2,
    tr = (l1 ++ o :: l2)%list -> target o -> exists o', In o' l1 /\ need o'.

Definition resolved (reply : Reply) : Prop :=
  match reply with
  | Failed _ => False
  | _ => True
  end.

Definition isPush (r : Repo) (o : Obs) : Prop :=
  exists remote branch reply, o = Called r (Push remote branch) reply.

Definition isCommit (r : Repo) (o : Obs) : Prop :=
  exists message reply, o = Called r (Commit message) reply.

Definition commitResolved (r : Repo) (o : Obs) : Prop :=
  exists message reply, o = Called r (Commit message) reply /\ resolved reply.

Definition addResolved (r : Repo) (o : Obs) : Prop :=
  exists reply, o = Called r AddAll reply /\ resolved reply.

Definition isSubmodulePull (rel : string) (o : Obs) : Prop :=
  exists remote branch reply, o = Called (Sub rel) (Pull remote branch) reply.

Definition onMain (rel : string) (o : Obs) : Prop :=
  o = Called (Sub rel) BranchLocal (BranchSummary "main").

(** What a commit cycle may ask of a handle: the handle of a folder name
    checks out and pushes main only, the handle [git] pushes a named branch
    and checks nothing out, and nothing is pulled. *)
Definition commitDestination (o : Obs) : Prop :=
  match o with
  | Called (Sub _) (Push remote branch) _ => remote = "origin" /\ branch = "main"
  | Called (Sub _) (Checkout branch) _ => branch = "main"
  | Called Super (Push remote branch) _ => remote = "origin" /\ branch <> ""
  | Called Super (Checkout _) _ => False
  | Called _ (Pull _ _) _ => False
  | _ => True
  end.

(** The folder a handle works in.  [join] is [path.join(WATCH_DIR, _)], so
    that [join ""] is [WATCH_DIR]. *)
Definition treeOf (join : string -> string) (r : Repo) : string :=
  match r with
  | Super => join ""
  | Sub rel => join rel
  end.




Definition isLog (c : Cmd) : Prop :=
  match c with
  | Log _ _ => True
  | _ => False
  end.

Definition onSubmodule (o : Obs) : Prop :=
  match o with
  | Called Super _ _ => False
  | _ => True
  end.

(** What a pull cycle may ask of git: the current branch of a submodule,
    and a pull from origin/main. *)
Definition pullRequest (o : Obs) : Prop :=
  match o with
  | Called _ (Pull remote branch) _ => remote = "origin" /\ branch = "main"
  | Called (Sub _) BranchLocal _ => True
  | Called _ _ _ => False
  | Asked _ _ => False
  | Ran _ => True
  end.

(** The turns in which every folder exists and git gives the replies of
    [replies], then failures. *)
Definition scripted (replies : list Reply) : nat -> Turn :=
  fun n => {| present := fun _ => true;
              answer := nth n replies (Failed "no reply") |}.

(** One submodule with two changed files on branch dev, and a changed
    submodule pointer in the superproject; every call resolves. *)
Definition smoothCycle : nat -> Turn :=
  scripted
    [ Text ["vault"];
      StatusSummary 2 None; BranchSummary "dev"; Done; Done; Done; Done;
      StatusSummary 0 (Some 1%nat); Done; Done; BranchSummary "main"; Done ].

(** Every way through the program that returns does so right after
    [processDone()]. *)
Fixpoint EndsDone {A} (p : Prog A) : Prop :=
  match p with
  | Ret _ => False
  | Throw _ => True
  | Do c k =>
      match k with
      | Ret _ => c = ProcessDone
      | _ => EndsDone k
      end
  | ExistsSync _ k => forall b, EndsDone (k b)
  | Await _ _ k => forall reply, EndsDone (k reply)
  end.

(** What [call] does with the reply. *)
Definition unitOf (reply : Reply) : Prog unit :=
  match reply with
  | Failed e => Throw e
  | _ => Ret tt
  end.

(** The number of git calls among observations. *)
Fixpoint calls (tr : list Obs) : nat :=
  match tr with
  | [] => 0
  | Called _ _ _ :: tr' => S (calls tr')
  | _ :: tr' => calls tr'
  end.

(** ** The text of [git submodule status] *)

(** A string stands for the sequence of its UTF-16 code units, all below
    256 here.  Of the code units that [\s] and [trim] take for white space,
    those in that range are 9 to 13, 32 and 160. *)
Definition isWhiteSpace (c : ascii) : bool :=
  let n := nat_of_ascii c in
  (Nat.leb 9 n && Nat.leb n 13) || Nat.eqb n 32 || Nat.eqb n 160.

Fixpoint trimStart (s : string) : string :=
  match s with
  | EmptyString => EmptyString
  | String c s' => if isWhiteSpace c then trimStart s' else s
  end.

Fixpoint trimEnd (s : string) : string :=
  match s with
  | EmptyString => EmptyString
  | String c s' =>
      match trimEnd s' with
      | EmptyString => if isWhiteSpace c then EmptyString else String c EmptyString
      | t => String c t
      end
  end.

(** [s.trim()] *)
Definition trim (s : string) : string := trimEnd (trimStart s).

(** [s.split(sep)] for a separator of one code unit: the pieces between the
    separators, empty ones included; the empty string gives one empty
    piece. *)
Fixpoint splitOn (sep : ascii) (s : string) : list string :=
  match s with
  | EmptyString => [EmptyString]
  | String c s' =>
      if Ascii.eqb c sep then EmptyString :: splitOn sep s'
      else match splitOn sep s' with
           | piece :: pieces => String c piece :: pieces
           | [] => [String c EmptyString]
           end
  end.

(** [s.split(/\s+/)]: the pieces between the maximal runs of white space.
    [inRun] tells that the code unit before [s] was white space. *)
Fixpoint splitSpacesFrom (inRun : bool) (s : string) : list string :=
  match s with
  | EmptyString => [EmptyString]
  | String c s' =>
      if isWhiteSpace c then
        if inRun then splitSpacesFrom true s'
        else EmptyString :: splitSpacesFrom true s'
      else match splitSpacesFrom false s' with
           | piece :: pieces => String c piece :: pieces
           | [] => [String c EmptyString]
           end
  end.

Definition splitSpaces (s : string) : list string := splitSpacesFrom false s.

(** [line.replace(/^[-+ ]/, '')] *)
Definition stripMark (line : string) : string :=
  match line with
  | String c rest =>
      if Ascii.eqb c "-" || Ascii.eqb c "+" || Ascii.eqb c " " then rest else line
  | EmptyString => EmptyString
  end.

(** The arrow function of [submodStatus.map]: the second field of the
    line, or [''] when there is none. *)
Definition folderNameOf (line : string) : string :=
  let cleaned := trim (stripMark line) in
  nth 1 (splitSpaces cleaned) EmptyString.

(** [raw.trim().split('\n').filter(Boolean)] *)
Definition statusLines (raw : string) : list string :=
  filter (fun line => negb (String.eqb line EmptyString))
    (splitOn "010"%char (trim raw)).

(** Lines 284 to 289 of [index.js]: from the text of
    [git submodule status --recursive] to [folderNames], the list the reply
    [Text] carries. *)
Definition folderNamesOf (raw : string) : list string :=
  map folderNameOf (statusLines raw).

(** A string without white space, and a string of white space only. *)
Fixpoint noSpace (s : string) : bool :=
  match s with
  | EmptyString => true
  | String c s' => negb (isWhiteSpace c) && noSpace s'
  end.

Fixpoint allSpace (s : string) : bool :=
  match s with
  | EmptyString => true
  | String c s' => isWhiteSpace c && allSpace s'
  end.

(** What comes after the path on a status line: nothing, or white space
    and then anything. *)
Definition trailer (rest : string) : bool :=
  match rest with
  | EmptyString => true
  | String c _ => isWhiteSpace c
  end.

Fixpoint noNewline (s : string) : bool :=
  match s with
  | EmptyString => true
  | String c s' => negb (Ascii.eqb c "010") && noNewline s'
  end.

(** What [git submodule status] prints for one submodule: a mark (a space,
    [-], [+] or [U]), the hash, blanks, the path and, when there is one, a
    description after more blanks. *)
Record StatusLine : Type := {
  lineMark : ascii;
  lineSha : string;
  lineGap : string;
  linePath : string;
  lineRest : string
}.

Definition printLine (l : StatusLine) : string :=
  String (lineMark l) (lineSha l ++ lineGap l ++ linePath l ++ lineRest l).

(** The whole text: every line ends with a line feed. *)
Fixpoint printLines (lines : list string) : string :=
  match lines with
  | [] => EmptyString
  | line :: lines' => line ++ String "010" (printLines lines')
  end.

Definition printStatus (ls : list StatusLine) : string :=
  printLines (map printLine ls).

Definition nonEmpty (s : string) : bool := negb (String.eqb s EmptyString).

Definition isMark (c : ascii) : bool :=
  Ascii.eqb c " " || Ascii.eqb c "-" || Ascii.eqb c "+" || Ascii.eqb c "U".

(** The hash and the path are words, the hash does not start with [-] or
    [+], the blanks are white space on one line and the description stays
    on the line. *)
Definition wellFormed (l : StatusLine) : bool :=
  isMark (lineMark l)
  && (noSpace (lineSha l) && nonEmpty (lineSha l)
      && String.eqb (stripMark (lineSha l)) (lineSha l))
  && (allSpace (lineGap l) && nonEmpty (lineGap l) && noNewline (lineGap l))
  && (noSpace (linePath l) && nonEmpty (linePath l))
  && (trailer (lineRest l) && noNewline (lineRest l)).

(** ** The check of the submodules at startup *)

(** [line.charAt(0)] *)
Definition charAt0 (line : string) : string :=
  match line with
  | String c _ => String c EmptyString
  | EmptyString => EmptyString
  end.

(** The test of the loop of [verifyRepo] over the status lines. *)
Definition hasIssue (line : string) : bool :=
  let prefix := charAt0 line in
  String.eqb prefix "-" || String.eqb prefix "+".

(** Lines 160 to 173 of [index.js]: the line on which [verifyRepo] logs
    [Submodule issue detected] and exits, if there is one. *)
Definition submoduleIssue (rawStatus : string) : option string :=
  find hasIssue (statusLines rawStatus).

(** A status line that git marks [-] or [+]. *)
Definition marked (l : StatusLine) : bool :=
  Ascii.eqb (lineMark l) "-" || Ascii.eqb (lineMark l) "+".

(** ** The regular expressions of the startup checks *)

(** The line terminators among the code units below 256, and [.], which
    matches every code unit but them. *)
Definition isLineTerminator (c : ascii) : bool :=
  let n := nat_of_ascii c in
  Nat.eqb n 10 || Nat.eqb n 13.

Definition isDot (c : ascii) : bool := negb (isLineTerminator c).

(** What the two expressions are made of: [^] and [$] under the flag [m],
    a literal code unit, [class*] and the group [(class+)], both greedy. *)
Inductive Atom : Type :=
| Bol
| Eol
| Lit (c : ascii)
| Star (class : ascii -> bool)
| GroupPlus (class : ascii -> bool).

(** A match: [match[1]], the code unit before the end of the match and the
    text after it, from which the next [exec] goes on. *)
Record Found : Type := {
  group1 : string;
  lastUnit : option ascii;
  remaining : string
}.

Definition atLineStart (prev : option ascii) : bool :=
  match prev with
  | None => true
  | Some c => isLineTerminator c
  end.

Definition atLineEnd (s : string) : bool :=
  match s with
  | EmptyString => true
  | String c _ => isLineTerminator c
  end.

(** The rest of an expression, to be matched after the code unit [prev]. *)
Definition Continuation : Type := option ascii -> string -> option Found.

(** [class*]: as many code units as possible, then one fewer, and so on,
    until the rest of the expression matches. *)
Fixpoint starLoop (class : ascii -> bool) (k : Continuation)
  (prev : option ascii) (s : string) : option Found :=
  match s with
  | String c s' =>
      if class c then
        match starLoop class k (Some c) s' with
        | Some found => Some found
        | None => k prev s
        end
      else k prev s
  | EmptyString => k prev s
  end.

Definition capture (c : ascii) (found : Found) : Found :=
  {| group1 := String c (group1 found);
     lastUnit := lastUnit found;
     remaining := remaining found |}.

(** [(class+)]: at least one code unit, as many as possible first. *)
Fixpoint plusGroup (class : ascii -> bool) (k : Continuation) (s : string)
  : option Found :=
  match s with
  | String c s' =>
      if class c then
        match plusGroup class k s' with
        | Some found => Some (capture c found)
        | None => option_map (capture c) (k (Some c) s')
        end
      else None
  | EmptyString => None
  end.

(** A match of the expression that starts right here. *)
Fixpoint matchAtoms (re : list Atom) (prev : option ascii) (s : string) {struct re}
  : option Found :=
  match re with
  | [] => Some {| group1 := EmptyString; lastUnit := prev; remaining := s |}
  | Bol :: re' => if atLineStart prev then matchAtoms re' prev s else None
  | Eol :: re' => if atLineEnd s then matchAtoms re' prev s else None
  | Lit c :: re' =>
      match s with
      | String c' s' =>
          if Ascii.eqb c' c then matchAtoms re' (Some c') s' else None
      | EmptyString => None
      end
  | Star class :: re' => starLoop class (matchAtoms re') prev s
  | GroupPlus class :: re' => plusGroup class (matchAtoms re') s
  end.

(** [re.exec(text)] under the flag [g], from [lastIndex] on: the first match
    at or after it. *)
Fixpoint execFrom (re : list Atom) (prev : option ascii) (s : string)
  : option Found :=
  match matchAtoms re prev s with
  | Some found => Some found
  | None =>
      match s with
      | String c s' => execFrom re (Some c) s'
      | EmptyString => None
      end
  end.

(** [while ((match = re.exec(text)) !== null)]: the groups of the
    successive matches.  A match of either expression takes at least one
    code unit, so the loop runs at most once for each code unit, and once
    more. *)
Fixpoint execLoop (fuel : nat) (re : list Atom) (prev : option ascii) (s : string)
  : list string :=
  match fuel with
  | O => []
  | S fuel' =>
      match execFrom re prev s with
      | Some found =>
          group1 found :: execLoop fuel' re (lastUnit found) (remaining found)
      | None => []
      end
  end.

Definition captures (re : list Atom) (content : string) : list string :=
  execLoop (S (String.length content)) re None content.

(** [/^\s*url\s*=\s*(.+)$/gm] *)
Definition urlRegex : list Atom :=
  [Bol; Star isWhiteSpace; Lit "u"; Lit "r"; Lit "l"; Star isWhiteSpace;
   Lit "="; Star isWhiteSpace; GroupPlus isDot; Eol].


(** Lines 140 to 153 of [index.js], in [verifyRepo]: the URL on which it
    logs [Invalid submodule URL detected] and exits, if there is one. *)
Definition invalidUrl (gmContent : string) : option string :=
  find (fun url => negb (String.prefix "ssh://" url))
    (map trim (captures urlRegex gmContent)).



(** A line of [.gitmodules] as git writes it: the header of a section, or a
    tab, a key, [ = ] and a value. *)
Inductive ConfigLine : Type :=
| Header (text : string)
| Setting (key value : string).

Definition printConfigLine (l : ConfigLine) : string :=
  match l with
  | Header text => String "[" text
  | Setting key value => String "009" (key ++ " = " ++ value)
  end.

Definition printConfig (ls : list ConfigLine) : string :=
  printLines (map printConfigLine ls).

Fixpoint allUnits (class : ascii -> bool) (s : string) : bool :=
  match s with
  | EmptyString => true
  | String c s' => class c && allUnits class s'
  end.

(** Letters, digits and the hyphen: what the name of a variable is made
    of. *)
Definition keyUnit (c : ascii) : bool :=
  let n := nat_of_ascii c in
  (Nat.leb 65 n && Nat.leb n 90) || (Nat.leb 97 n && Nat.leb n 122)
  || (Nat.leb 48 n && Nat.leb n 57) || Nat.eqb n 45.

Definition isKey (key : string) : bool := nonEmpty key && allUnits keyUnit key.

Definition startsWithWord (value : string) : bool :=
  match value with
  | String c _ => negb (isWhiteSpace c)
  | EmptyString => false
  end.

(** A header and a value stay on their line, and a value starts with a
    code unit that is not white space. *)
Definition wellFormedConfigLine (l : ConfigLine) : bool :=
  match l with
  | Header text => allUnits isDot text
  | Setting key value =>
      isKey key && allUnits isDot value && startsWithWord value
  end.

(** The values of the settings of a key, in the order of the lines. *)
Fixpoint valuesOf (key : string) (ls : list ConfigLine) : list string :=
  match ls with
  | [] => []
  | Header _ :: ls' => valuesOf key ls'
  | Setting k v :: ls' =>
      if String.eqb k key then v :: valuesOf key ls' else valuesOf key ls'
  end.

Fixpoint literal (s : string) : list Atom :=
  match s with
  | EmptyString => []
  | String c s' => Lit c :: literal s'
  end.

(** The shape of both expressions. *)
Definition settingRegex (key : string) : list Atom :=
  ([Bol; Star isWhiteSpace] ++ literal key
   ++ [Star isWhiteSpace; Lit "="; Star isWhiteSpace; GroupPlus isDot; Eol])%list.

(** The code unit before the end of [w], which comes after [prev]. *)
Fixpoint lastOr (prev : option ascii) (w : string) : option ascii :=
  match w with
  | EmptyString => prev
  | String c w' => lastOr (Some c) w'
  end.

(** A text that does not go on with a code unit of the class. *)
Definition stops (class : ascii -> bool) (s : string) : bool :=
  match s with
  | EmptyString => true
  | String c _ => negb (class c)
  end.

Fixpoint minUnits (re : list Atom) : nat :=
  match re with
  | [] => 0
  | Lit _ :: re' => S (minUnits re')
  | GroupPlus _ :: re' => S (minUnits re')
  | _ :: re' => minUnits re'
  end.

(** ** The file counts of the report *)

(** [toLowerCase] on the code units below 256. *)
Definition toLowerCaseUnit (c : ascii) : ascii :=
  let n := nat_of_ascii c in
  if (Nat.leb 65 n && Nat.leb n 90)
     || (Nat.leb 192 n && Nat.leb n 222 && negb (Nat.eqb n 215))
  then ascii_of_nat (n + 32)
  else c.

Fixpoint toLowerCase (s : string) : string :=
  match s with
  | EmptyString => EmptyString
  | String c s' => String (toLowerCaseUnit c) (toLowerCase s')
  end.

(** [counts[ext] = (counts[ext] || 0) + 1] on an object whose own keys are
    listed in the order of their insertion. *)
Fixpoint bump (ext : string) (counts : list (string * nat)) : list (string * nat) :=
  match counts with
  | [] => [(ext, 1)]
  | (k, n) :: counts' =>
      if String.eqb k ext then (k, n + 1) :: counts'
      else (k, n) :: bump ext counts'
  end.

(** Lines 237 to 243 of [index.js], in [generateStatsData].  [extname] is
    [path.extname]: it gives [''] or a text that starts with a dot, so that
    no key of [counts] is an index or a name every object inherits. *)
Definition extOf (extname : string -> string) (file : string) : string :=
  let lowered := toLowerCase (extname file) in
  if String.eqb lowered EmptyString then "no_ext" else lowered.

Definition countFiles (extname : string -> string) (allFiles : list string)
  : list (string * nat) :=
  fold_left (fun counts file => bump (extOf extname file) counts) allFiles [].

Definition totalFiles (allFiles : list string) : nat := List.length allFiles.

Definition dotted (extname : string -> string) : Prop :=
  forall file, extname file = EmptyString
               \/ exists ext', extname file = String "." ext'.

Definition countOf (ext : string) (counts : list (string * nat)) : nat :=
  match find (fun entry => String.eqb (fst entry) ext) counts with
  | Some entry => snd entry
  | None => 0
  end.

(** A [.gitmodules] with one submodule. *)
Definition oneSubmodule (path url : string) : list ConfigLine :=
  [ Header ("submodule " ++ String "034" ("vault" ++ String "034" "]"));
    Setting "path" path;
    Setting "url" url ].

(** An [extname] for three files. *)
Definition extnameOfSample (file : string) : string :=
  if String.eqb file "notes/a.TXT" then ".TXT"
  else if String.eqb file "b.txt" then ".txt"
  else EmptyString.

(** ** The countdown of the status line *)

(** [PULL_INTERVAL_MS - (Date.now() % PULL_INTERVAL_MS)] *)
Definition nextPullMs (now : Z) : Z :=
  (PULL_INTERVAL_MS - Z.rem now PULL_INTERVAL_MS)%Z.

(** ** The debounce of the earlier script *)

(** Lines 427 to 628 of [index.js] are an earlier script, in which every
    change event goes through [debounce]. *)
Module Legacy.

Definition DEBOUNCE_MS : Z := 500.

(** [commitTimeout] and the timers of the event loop; [changeTimes] and
    [calls] keep the times of the change events and of the calls of the
    debounced function, the latest first, each call with the change times
    before it. *)
Record Script : Type := {
  now : Z;
  commitTimeout : option nat;
  armed : list (nat * Z);
  fresh : nat;
  changeTimes : list Z;
  calls : list (Z * list Z)
}.

Definition start (t0 : Z) : Script :=
  {| now := t0; commitTimeout := None; armed := []; fresh := 1;
     changeTimes := []; calls := [] |}.

(** [clearTimeout(commitTimeout)]: nothing happens when it is undefined or
    when its timer has expired. *)
Definition cleared (s : Script) : list (nat * Z) :=
  match commitTimeout s with
  | Some h => filter (fun timer => negb (Nat.eqb (fst timer) h)) (armed s)
  | None => armed s
  end.

(** [debounce(fn)] *)
Definition debounce (s : Script) : Script :=
  {| now := now s;
     commitTimeout := Some (fresh s);
     armed := (fresh s, (now s + DEBOUNCE_MS)%Z) :: cleared s;
     fresh := S (fresh s);
     changeTimes := changeTimes s;
     calls := calls s |}.

Inductive Event : Type :=
| Changed                 (* the watcher reports a change *)
| Expires (h : nat).      (* the timer h calls the debounced function *)

Definition step (s : Script) (t : Z) (e : Event) : option Script :=
  if (t <? now s)%Z then None
  else
    match e with
    | Changed =>
        Some (debounce {| now := t;
                          commitTimeout := commitTimeout s;
                          armed := armed s;
                          fresh := fresh s;
                          changeTimes := t :: changeTimes s;
                          calls := calls s |})
    | Expires h =>
        match find (fun timer => Nat.eqb (fst timer) h) (armed s) with
        | Some (_, due) =>
            if (due <=? t)%Z then
              Some {| now := t;
                      commitTimeout := commitTimeout s;
                      armed := filter (fun timer => negb (Nat.eqb (fst timer) h))
                                 (armed s);
                      fresh := fresh s;
                      changeTimes := changeTimes s;
                      calls := (t, changeTimes s) :: calls s |}
            else None
        | None => None
        end
    end.

Fixpoint run (s : Script) (trace : list (Z * Event)) : option Script :=
  match trace with
  | [] => Some s
  | (t, e) :: rest =>
      match step s t e with
      | Some s' => run s' rest
      | None => None
      end
  end.

(** What the script keeps: at most one timer is armed, it is the one
    [commitTimeout] holds and it is due [DEBOUNCE_MS] after the latest
    change; every call came that long after the latest change before it;
    and there are no more calls and armed timers than changes. *)
Definition Kept (s : Script) : Prop :=
  (armed s = []
   \/ exists h latest earlier,
        armed s = [(h, (latest + DEBOUNCE_MS)%Z)]
        /\ commitTimeout s = Some h
        /\ changeTimes s = latest :: earlier)
  /\ (forall t before,
        In (t, before) (calls s) ->
        exists latest earlier,
          before = latest :: earlier /\ (latest + DEBOUNCE_MS <= t)%Z)
  /\ List.length (calls s) + List.length (armed s) <= List.length (changeTimes s).

End Legacy.

(** What is kept about the pulls in flight. *)
Definition pullsEndDone (w : World) : Prop :=
  Forall (fun task =>
            cycle task = PullCycle -> forall reply, EndsDone (resume task reply))
    (inFlight w).

Definition pullingIsTrue (w : World) : Prop :=
  currentState w = "pulling" ->
  exists task, In task (inFlight w) /\ cycle task = PullCycle.

(** * Properties *)

#[local] Arguments In : simpl never.
#[local] Arguments firstn : simpl never.
#[local] Arguments skipn : simpl never.

Lemma live_idle : In "idle" live.
Proof. cbv; auto. Qed.
Lemma live_pending : In "pending" live.
Proof. cbv; auto. Qed.
Lemma live_committing : In "committing" live.
Proof. cbv; auto 6. Qed.
Lemma live_pulling : In "pulling" live.
Proof. cbv; auto 6. Qed.

Create HintDb sync discriminated.
#[local] Hint Resolve live_idle live_pending live_committing live_pulling : sync.

(** ** Programs *)

Section Statements.

Variable P : Cmd -> Prop.

Lemma AllCmds_bind {A B} (m : Prog A) (f : A -> Prog B) :
  AllCmds P m -> (forall a, AllCmds P (f a)) -> AllCmds P (bind m f).
Proof.
  intros Hm Hf; induction m as [a | e | c k IH | rel k IH | r c k IH]; simpl in *.
  - apply Hf.
  - exact I.
  - destruct Hm; split; auto.
  - intro b; auto.
  - intro reply; auto.
Qed.

Lemma AllCmds_try_catch {A} (m : Prog A) (h : string -> Prog A) :
  AllCmds P m -> (forall e, AllCmds P (h e)) -> AllCmds P (try_catch m h).
Proof.
  intros Hm Hh; induction m as [a | e | c k IH | rel k IH | r c k IH]; simpl in *.
  - exact I.
  - apply Hh.
  - destruct Hm; split; auto.
  - intro b; auto.
  - intro reply; auto.
Qed.

Lemma AllCmds_forEach {A} (l : list A) (body : A -> Prog unit) :
  (forall x, AllCmds P (body x)) -> AllCmds P (forEach l body).
Proof.
  intro Hb; induction l as [| x l IH]; simpl.
  - exact I.
  - apply AllCmds_bind; auto.
Qed.

End Statements.

Lemma NoThrow_bind {A B} (m : Prog A) (f : A -> Prog B) :
  NoThrow m -> (forall a, NoThrow (f a)) -> NoThrow (bind m f).
Proof.
  intros Hm Hf; induction m as [a | e | c k IH | rel k IH | r c k IH]; simpl in *.
  - apply Hf.
  - exact Hm.
  - auto.
  - intro b; auto.
  - intro reply; auto.
Qed.

(** A [try] whose handler does not throw does not throw. *)
Lemma NoThrow_try_catch {A} (m : Prog A) (h : string -> Prog A) :
  (forall e, NoThrow (h e)) -> NoThrow (try_catch m h).
Proof.
  intro Hh; induction m as [a | e | c k IH | rel k IH | r c k IH]; simpl.
  - exact I.
  - apply Hh.
  - exact IH.
  - intro b; apply IH.
  - intro reply; apply IH.
Qed.

Lemma NoThrow_forEach {A} (l : list A) (body : A -> Prog unit) :
  (forall x, NoThrow (body x)) -> NoThrow (forEach l body).
Proof.
  intro Hb; induction l as [| x l IH]; simpl.
  - exact I.
  - apply NoThrow_bind; auto.
Qed.

Lemma bind_assoc {A B C} (m : Prog A) (f : A -> Prog B) (g : B -> Prog C) :
  bind (bind m f) g = bind m (fun a => bind (f a) g).
Proof.
  induction m as [a | e | c k IH | rel k IH | r c k IH]; simpl;
    try reflexivity.
  - now rewrite IH.
  - f_equal; apply functional_extensionality; intro b; apply IH.
  - f_equal; apply functional_extensionality; intro reply; apply IH.
Qed.

Lemma forEach_app {A} (l1 l2 : list A) (body : A -> Prog unit) :
  forEach (l1 ++ l2) body = (forEach l1 body ;; forEach l2 body).
Proof.
  induction l1 as [| x l1 IH]; simpl.
  - reflexivity.
  - rewrite IH, bind_assoc; reflexivity.
Qed.

Ltac tame_prog :=
  repeat first
    [ progress intros
    | exact I
    | apply AllCmds_bind
    | apply AllCmds_try_catch
    | apply AllCmds_forEach
    | apply NoThrow_bind
    | apply NoThrow_try_catch
    | apply NoThrow_forEach
    | match goal with
      | |- _ /\ _ => split
      | |- context [match ?x with _ => _ end] => destruct x
      end
    | progress simpl ].

Lemma commitSubmodule_noSetState date folderName :
  AllCmds noSetState (commitSubmodule date folderName).
Proof. unfold commitSubmodule, status, branchLocal, call, logInfo, logWarn. tame_prog. Qed.

Lemma commitSuperproject_noSetState date :
  AllCmds noSetState (commitSuperproject date).
Proof. unfold commitSuperproject, status, branchLocal, call, logInfo, logWarn. tame_prog. Qed.

Lemma commitFrom_noSetState date folderNames :
  AllCmds noSetState (commitFrom date folderNames).
Proof.
  unfold commitFrom.
  apply AllCmds_bind.
  - apply AllCmds_forEach; intro; apply commitSubmodule_noSetState.
  - intros _. apply AllCmds_bind.
    + apply commitSuperproject_noSetState.
    + intros [|]; simpl; auto.
Qed.

Lemma pullSubmodule_noSetState sub : AllCmds noSetState (pullSubmodule sub).
Proof. unfold pullSubmodule, branchLocal, call, logInfo, logWarn. tame_prog. Qed.

Lemma pullSubmodule_NoThrow sub : NoThrow (pullSubmodule sub).
Proof. unfold pullSubmodule. apply NoThrow_try_catch. intro; exact I. Qed.

Lemma pullUpdates_noSetState subs : AllCmds noSetState (pullUpdates subs).
Proof.
  unfold pullUpdates, call, logInfo, logWarn. simpl. split; [exact I |].
  intro reply. apply AllCmds_bind.
  - destruct reply; simpl; auto.
  - intros _. apply AllCmds_bind.
    + apply AllCmds_forEach; intro; apply pullSubmodule_noSetState.
    + intros _; simpl; auto.
Qed.

(** [pullUpdates] catches every failure of git: its promise is never
    rejected. *)
Lemma pullUpdates_NoThrow subs : NoThrow (pullUpdates subs).
Proof.
  unfold pullUpdates, call, logInfo, logWarn. simpl.
  intro reply. apply NoThrow_bind.
  - destruct reply; simpl; auto.
  - intros _. apply NoThrow_bind.
    + apply NoThrow_forEach; intro; apply pullSubmodule_NoThrow.
    + intros _; exact I.
Qed.

(** ** The coordinator *)

Lemma setState_currentState s w : currentState (setState s w) = s.
Proof.
  unfold setState.
  destruct (String.eqb_spec (currentState w) s); simpl; auto.
Qed.

(** [setState] changes the state and the journal, nothing else. *)
Lemma setState_frame s w :
  batchTimer (setState s w) = batchTimer w
  /\ timers (setState s w) = timers w
  /\ nextHandle (setState s w) = nextHandle w
  /\ pullTimer (setState s w) = pullTimer w
  /\ submodules (setState s w) = submodules w
  /\ inFlight (setState s w) = inFlight w
  /\ pullsSettled (setState s w) = pullsSettled w
  /\ clock (setState s w) = clock w.
Proof.
  unfold setState.
  destruct (String.eqb (currentState w) s); simpl; repeat split.
Qed.

Lemma processDone_currentState w :
  currentState (processDone w) = "pending" \/ currentState (processDone w) = "idle".
Proof.
  unfold processDone; destruct (batchTimer w);
    rewrite setState_currentState; auto.
Qed.

Lemma processDone_frame w :
  batchTimer (processDone w) = batchTimer w
  /\ timers (processDone w) = timers w
  /\ nextHandle (processDone w) = nextHandle w
  /\ pullTimer (processDone w) = pullTimer w
  /\ submodules (processDone w) = submodules w
  /\ inFlight (processDone w) = inFlight w
  /\ pullsSettled (processDone w) = pullsSettled w
  /\ clock (processDone w) = clock w.
Proof. unfold processDone; destruct (batchTimer w) eqn:E; rewrite <- E; apply setState_frame. Qed.

(** A statement other than [setState] keeps the state among the live ones
    and touches neither the timers nor the suspended invocations. *)
Lemma exec_noSetState c w :
  noSetState c ->
  (In (currentState w) live -> In (currentState (exec c w)) live)
  /\ timers (exec c w) = timers w
  /\ nextHandle (exec c w) = nextHandle w
  /\ inFlight (exec c w) = inFlight w
  /\ pullsSettled (exec c w) = pullsSettled w.
Proof.
  destruct c; simpl; intro H; try contradiction.
  - repeat split; auto.
  - repeat split; auto.
  - destruct (processDone_frame w) as (_ & Ht & Hn & _ & _ & Hi & Hp & _).
    repeat split; auto.
    intros _. destruct (processDone_currentState w) as [E | E];
      rewrite E; auto with sync.
Qed.

Lemma advance_noSetState fs (p : Prog unit) :
  AllCmds noSetState p ->
  forall w w' stop,
    advance fs p w = (w', stop) ->
    (In (currentState w) live -> In (currentState w') live)
    /\ timers w' = timers w
    /\ nextHandle w' = nextHandle w
    /\ inFlight w' = inFlight w
    /\ pullsSettled w' = pullsSettled w
    /\ match stop with
       | Finished s => NoThrow p -> s = Fulfilled
       | Waiting _ _ k =>
           forall reply,
             AllCmds noSetState (k reply) /\ (NoThrow p -> NoThrow (k reply))
       end.
Proof.
  induction p as [a | e | c k IH | rel k IH | r c k IH];
    simpl; intros Hp w w' stop E.
  - inversion E; subst; repeat split; auto.
  - inversion E; subst; repeat split; auto. intros [].
  - destruct Hp as [Hc Hk].
    destruct (IH Hk _ _ _ E) as (H1 & H2 & H3 & H4 & H5 & H6).
    destruct (exec_noSetState c w Hc) as (G1 & G2 & G3 & G4 & G5).
    split; [intro; apply H1, G1; assumption |].
    repeat split; try congruence.
  - destruct (IH (fs rel) (Hp (fs rel)) _ _ _ E) as (H1 & H2 & H3 & H4 & H5 & H6).
    split; [exact H1 |].
    repeat split; auto.
    destruct stop; auto. intros reply; split; [apply H6 | intro Hn; apply H6, Hn].
  - inversion E; subst; simpl. repeat split; auto.
Qed.

Lemma onChange_spec event filePath w :
  currentState (onChange event filePath w) = "pending"
  /\ batchTimer (onChange event filePath w) = Some (nextHandle w)
  /\ timers (onChange event filePath w)
     = (unheld w ++ [(nextHandle w, (clock w + BATCH_INTERVAL_MS)%Z)])%list
  /\ nextHandle (onChange event filePath w) = S (nextHandle w)
  /\ pullTimer (onChange event filePath w) = pullTimer w
  /\ submodules (onChange event filePath w) = submodules w
  /\ inFlight (onChange event filePath w) = inFlight w
  /\ pullsSettled (onChange event filePath w) = pullsSettled w
  /\ clock (onChange event filePath w) = clock w.
Proof.
  unfold onChange, unheld.
  destruct (setState_frame "pending" w) as (Hb & Ht & Hn & Hp & Hs & Hi & Hq & Hc).
  pose proof (setState_currentState "pending" w) as Hst.
  rewrite Hb.
  destruct (batchTimer w); simpl;
    rewrite ?Hst, ?Ht, ?Hn, ?Hp, ?Hs, ?Hi, ?Hq, ?Hc; repeat split.
Qed.

Lemma setState_exited s w : exited (setState s w) = exited w.
Proof. unfold setState. destruct (negb _); reflexivity. Qed.

Lemma onChange_exited event filePath w :
  exited (onChange event filePath w) = exited w.
Proof.
  unfold onChange.
  pose proof (setState_exited "pending" w) as Hx.
  destruct (batchTimer (setState "pending" w)); simpl; exact Hx.
Qed.

(** ** The invariant of the running daemon *)

Lemma Inv_frame w w' :
  In (currentState w') live ->
  pullsSettled w' = pullsSettled w ->
  inFlight w' = inFlight w ->
  timers w' = timers w ->
  nextHandle w' = nextHandle w ->
  Inv w -> Inv w'.
Proof.
  intros Hl Hp Hi Ht Hn (_ & I2 & I3 & I4).
  unfold Inv, freshHandles in *. rewrite Hp, Hi, Ht, Hn. auto.
Qed.

Lemma Inv_setState s w : In s live -> Inv w -> Inv (setState s w).
Proof.
  intros Hs HI.
  destruct (setState_frame s w) as (_ & Ht & Hn & _ & _ & Hi & Hq & _).
  apply (Inv_frame w); auto. now rewrite setState_currentState.
Qed.

Lemma spawn_Inv cy p w :
  AllCmds noSetState p ->
  (cy = PullCycle -> NoThrow p) ->
  Inv w -> Inv (spawn cy p w).
Proof.
  intros Hq Hn HI. unfold spawn.
  destruct (advance (fun _ => true) p w) as [w' stop] eqn:E.
  destruct (advance_noSetState _ p Hq _ _ _ E) as (H1 & H2 & H3 & H4 & H5 & H6).
  destruct HI as (I1 & I2 & I3 & I4).
  assert (HI' : Inv w').
  { unfold Inv, freshHandles. rewrite H2, H3, H4, H5. auto. }
  destruct stop as [s | r c k].
  - destruct cy; [destruct s; exact HI' |].
    destruct HI' as (J1 & J2 & J3 & J4).
    unfold Inv, freshHandles; simpl. repeat split; auto.
    apply Forall_app; split; auto.
  - destruct HI' as (J1 & J2 & J3 & J4).
    unfold Inv, freshHandles; simpl. split; [exact J1 |]. repeat split; auto.
    apply Forall_app; split; auto. constructor; auto.
    intro reply; simpl. split; [apply H6 |]. intro C; apply H6; auto.
Qed.

Lemma Forall_firstn_skipn {A} (P : A -> Prop) (l : list A) (i : nat) :
  Forall P l -> Forall P (firstn i l ++ skipn (S i) l).
Proof.
  intro H. apply Forall_app; split.
  - rewrite <- (firstn_skipn i l) in H. apply Forall_app in H. tauto.
  - rewrite <- (firstn_skipn (S i) l) in H. apply Forall_app in H. tauto.
Qed.

Lemma gitSettles_Inv i reply fs w w' :
  Inv w -> gitSettles i reply fs w = Some w' -> Inv w'.
Proof.
  intros (I1 & I2 & I3 & I4). unfold gitSettles.
  destruct (nth_error (inFlight w) i) as [task |] eqn:En; [| discriminate].
  assert (Ht : tame task).
  { apply nth_error_In in En. rewrite Forall_forall in I3. auto. }
  destruct (Ht reply) as [Hq Hn].
  destruct (advance fs (resume task reply) w) as [w1 stop] eqn:E.
  destruct (advance_noSetState _ _ Hq _ _ _ E) as (H1 & H2 & H3 & H4 & H5 & H6).
  destruct stop as [s | r c k]; intro E'; inversion E'; subst; clear E'.
  - destruct (cycle task) eqn:Ec; [destruct s |]; unfold Inv, freshHandles; simpl;
      rewrite ?H2, ?H3, ?H4, ?H5.
    + split; [auto |]. repeat split; auto using Forall_firstn_skipn.
    + split; [auto |]. repeat split; auto using Forall_firstn_skipn.
    + split; [auto |]. repeat split; auto using Forall_firstn_skipn.
      apply Forall_app; split; auto.
  - unfold Inv, freshHandles; simpl; rewrite ?H2, ?H3, ?H4, ?H5.
    split; [auto |]. repeat split; auto.
    apply Forall_app; split.
    + rewrite <- (firstn_skipn i (inFlight w)) in I3.
      apply Forall_app in I3. tauto.
    + constructor.
      * intro reply'; simpl. split; [apply H6 |]. intro C; apply H6; auto.
      * rewrite <- (firstn_skipn (S i) (inFlight w)) in I3.
        apply Forall_app in I3. tauto.
Qed.

Lemma main_Inv t0 subs : Inv (main t0 subs).
Proof.
  unfold Inv, freshHandles; simpl. split; [auto with sync |]. repeat split; auto.
Qed.

Lemma filter_fresh (f : nat * Z -> bool) (l : list (nat * Z)) (n : nat) :
  Forall (fun e => (fst e < n)%nat) l ->
  Forall (fun e => (fst e < n)%nat) (filter f l).
Proof.
  intro H. rewrite Forall_forall in *. intros x Hx.
  apply filter_In in Hx. apply H, Hx.
Qed.

Lemma unheld_fresh w : freshHandles w ->
  Forall (fun e => (fst e < nextHandle w)%nat) (unheld w).
Proof.
  unfold unheld, freshHandles. destruct (batchTimer w); auto using filter_fresh.
Qed.

Lemma step_Inv w t e w' : Inv w -> step w t e = Some w' -> Inv w'.
Proof.
  intros HI. unfold step.
  destruct (t <? clock w)%Z; [discriminate |].
  assert (HI0 : Inv (set_clock t w)) by exact HI.
  destruct e as [event filePath | | h date | i reply fs | | seconds].
  - (* onChange *)
    intro E; inversion E; subst; clear E.
    destruct (onChange_spec event filePath (set_clock t w))
      as (H1 & H2 & H3 & H4 & _ & _ & H7 & H8 & _).
    destruct HI0 as (I1 & I2 & I3 & I4).
    unfold Inv, freshHandles. rewrite H1, H3, H4, H7, H8.
    split; [auto with sync |]. repeat split; auto.
    apply Forall_app; split.
    + eapply Forall_impl; [| apply unheld_fresh, I4]. simpl; intros; lia.
    + constructor; simpl; auto.
  - (* maybePull *)
    simpl. destruct (pullTimer w) as [due |]; [| discriminate].
    destruct (due <=? t)%Z; [| discriminate].
    intro E; inversion E; subst; clear E.
    unfold maybePull. simpl currentState.
    destruct (String.eqb (currentState w) "idle").
    + apply spawn_Inv.
      * apply pullUpdates_noSetState.
      * intros _; apply pullUpdates_NoThrow.
      * apply Inv_setState; [auto with sync |]. exact HI.
    + exact HI.
  - (* batchedCommit *)
    destruct (dueTime h (set_clock t w)) as [due |]; [| discriminate].
    destruct (due <=? t)%Z; [| discriminate].
    intro E; inversion E; subst; clear E.
    change (spawn CommitCycle (batchedCommit date) (expire h (set_clock t w)))
      with (spawn CommitCycle
              (folderNames <- submoduleFolders ;;
               logInfo ("Submodule folders: " ++ String.concat ", " folderNames) ;;
               commitFrom date folderNames)
              (setState "committing"
                 (say INFO "Performing batched commit..."
                    (expire h (set_clock t w))))).
    apply spawn_Inv.
    + simpl. intros [ | | folderNames | |]; simpl; auto.
      split; [exact I | apply commitFrom_noSetState].
    + discriminate.
    + apply Inv_setState; [auto with sync |].
      destruct HI as (I1 & I2 & I3 & I4).
      unfold Inv, freshHandles; simpl. repeat split; auto.
      apply filter_fresh, I4.
  - (* a reply of git *)
    apply gitSettles_Inv; exact HI0.
  - (* the reaction to a settled pull *)
    simpl. destruct (pullsSettled w) as [| s rest] eqn:Ep; [discriminate |].
    intro E; inversion E; subst; clear E.
    destruct HI as (I1 & I2 & I3 & I4). rewrite Ep in I2.
    inversion I2; subst.
    unfold maybePull_then. apply Inv_setState; [auto with sync |].
    unfold Inv, freshHandles; simpl. repeat split; auto.
  - (* the status logger *)
    intro E; inversion E; subst; clear E.
    unfold statusLogger. destruct (String.eqb _ _); exact HI.
Qed.

Lemma reachable_Inv w : reachable w -> Inv w.
Proof.
  induction 1 as [t0 subs | w t e w' _ IH _ E].
  - apply main_Inv.
  - eapply step_Inv; eauto.
Qed.

Lemma run_reachable trace : forall w w',
  reachable w -> run w trace = Some w' -> reachable w'.
Proof.
  induction trace as [| [t e] rest IH]; simpl; intros w w' Hr E.
  - inversion E; subst; exact Hr.
  - destruct (exited w) eqn:Ex; [discriminate |].
    destruct (step w t e) as [w1 |] eqn:Es; [| discriminate].
    apply (IH w1); auto. eapply reachable_step; eauto.
Qed.

(** ** The declared states *)

(** C10: in every execution the state is never 'blocked': neither the
    change handler, nor the pull tick, nor the start or the end of a cycle
    assigns it. *)
Theorem blocked_is_unreachable :
  forall w, lifetime w -> currentState w <> "blocked".
Proof.
  intros w [| w' Hr].
  - discriminate.
  - destruct (reachable_Inv w' Hr) as [Hl _].
    intro E; rewrite E in Hl. cbv in Hl. intuition discriminate.
Qed.

Lemma blocked_is_unreachable_witness :
  lifetime (onChange "change" "/vault/notes.md" (set_clock 1000 (main 0 [])))
  /\ currentState (onChange "change" "/vault/notes.md" (set_clock 1000 (main 0 [])))
     <> "blocked".
Proof.
  assert (H : lifetime (onChange "change" "/vault/notes.md" (set_clock 1000 (main 0 [])))).
  { apply lifetime_running.
    apply (reachable_step (main 0 []) 1000 (FileChanged "change" "/vault/notes.md")).
    - apply reachable_main.
    - reflexivity.
    - reflexivity. }
  split; [exact H | exact (blocked_is_unreachable _ H)].
Defined.

(** C9, as stated, fails: between [new StateManager()] and [init()] the
    state is "initializing", which is none of the six members. *)
Lemma initializing_is_no_member :
  ~ (forall w, lifetime w -> In (currentState w) SyncState).
Proof.
  intro H. specialize (H construct lifetime_constructed).
  cbv in H. intuition discriminate.
Qed.

(** C9, amended: at every instant the state is "initializing" (the
    constructed manager, until [init] runs) or, from [init] on, one of the
    declared members; of these only idle, pending, committing and pulling
    occur. *)
Theorem state_is_declared_once_running :
  forall w, lifetime w ->
    (w = construct /\ currentState w = "initializing")
    \/ (reachable w /\ In (currentState w) SyncState /\ In (currentState w) live).
Proof.
  intros w [| w' Hr].
  - left; split; reflexivity.
  - right. destruct (reachable_Inv w' Hr) as [Hl _].
    split; [exact Hr |]. split; [| exact Hl].
    cbv in Hl |- *. intuition.
Qed.

Lemma state_is_declared_once_running_witness :
  lifetime (main 0 [])
  /\ ((main 0 [] = construct /\ currentState (main 0 []) = "initializing")
      \/ (reachable (main 0 []) /\ In (currentState (main 0 [])) SyncState
          /\ In (currentState (main 0 [])) live)).
Proof.
  assert (H : lifetime (main 0 [])) by (apply lifetime_running, reachable_main).
  split; [exact H | exact (state_is_declared_once_running _ H)].
Defined.

(** ** The pull tick *)

(** C6: in every state other than 'idle' a pull tick issues no git command
    and leaves the state as it is; the callback only logs the reason.  The
    world after the tick is the world before it with the clock advanced, the
    interval re-armed and that one line in the journal. *)
Theorem tick_skips_unless_idle :
  forall w t due,
    currentState w <> "idle" ->
    pullTimer w = Some due -> (due <= t)%Z -> (clock w <= t)%Z ->
    step w t PullTick
    = Some (say INFO ("Skipping pull, current state:" ++ currentState w)
              (set_pullTimer (Some (t + PULL_INTERVAL_MS)%Z) (set_clock t w)))
    /\ forall w', step w t PullTick = Some w' ->
         currentState w' = currentState w
         /\ inFlight w' = inFlight w
         /\ pullsSettled w' = pullsSettled w
         /\ batchTimer w' = batchTimer w
         /\ timers w' = timers w
         /\ journal w'
            = (journal w
               ++ [Console INFO ("Skipping pull, current state:" ++ currentState w)])%list.
Proof.
  intros w t due Hs Hp Hd Hc.
  assert (E : step w t PullTick
              = Some (say INFO ("Skipping pull, current state:" ++ currentState w)
                        (set_pullTimer (Some (t + PULL_INTERVAL_MS)%Z)
                           (set_clock t w)))).
  { unfold step.
    destruct (Z.ltb_spec t (clock w)) as [Hlt | _]; [lia |].
    simpl. rewrite Hp.
    destruct (Z.leb_spec due t) as [_ | Hgt]; [| lia].
    unfold maybePull; simpl.
    destruct (String.eqb_spec (currentState w) "idle") as [Hi | _];
      [contradiction | reflexivity]. }
  split; [exact E |].
  intros w' E'. rewrite E in E'. inversion E'; subst; clear E'.
  simpl. repeat split.
Qed.

Lemma tick_skips_unless_idle_witness :
  step (onChange "change" "/vault/notes.md" (set_clock 1000 (main 0 []))) 60000 PullTick
  = Some (say INFO "Skipping pull, current state:pending"
            (set_pullTimer (Some 120000%Z)
               (set_clock 60000
                  (onChange "change" "/vault/notes.md" (set_clock 1000 (main 0 [])))))).
Proof.
  refine (proj1 (tick_skips_unless_idle
                   (onChange "change" "/vault/notes.md" (set_clock 1000 (main 0 [])))
                   60000 60000 _ _ _ _)).
  - discriminate.
  - reflexivity.
  - reflexivity || lia.
  - vm_compute; discriminate.
Defined.

(** ** The batch timer *)

Lemma last_cons {A} (a d : A) (l : list A) : last (a :: l) d = last l a.
Proof.
  revert a d; induction l as [| b l IH]; intros a d.
  - reflexivity.
  - change (last (a :: b :: l) d) with (last (b :: l) d).
    now rewrite !IH.
Qed.

Lemma filter_out_fresh (h : nat) (l : list (nat * Z)) (d : Z) :
  Forall (fun e => (fst e < h)%nat) l ->
  filter (fun e => negb (Nat.eqb (fst e) h)) (l ++ [(h, d)]) = l.
Proof.
  intro H. rewrite filter_app. simpl. rewrite Nat.eqb_refl. simpl.
  rewrite app_nil_r.
  induction H as [| e l He _ IH]; simpl.
  - reflexivity.
  - destruct (Nat.eqb_spec (fst e) h) as [E | _]; [lia |].
    simpl. now rewrite IH.
Qed.

Lemma find_fresh (h : nat) (l : list (nat * Z)) (d : Z) :
  Forall (fun e => (fst e < h)%nat) l ->
  find (fun e => Nat.eqb (fst e) h) (l ++ [(h, d)]) = Some (h, d).
Proof.
  induction 1 as [| e l He _ IH]; simpl.
  - now rewrite Nat.eqb_refl.
  - destruct (Nat.eqb_spec (fst e) h) as [E | _]; [lia | exact IH].
Qed.

(** The start of [batchedCommit]: the state becomes "committing" and the
    invocation is suspended at its first git call. *)
Lemma spawn_batchedCommit date w :
  currentState (spawn CommitCycle (batchedCommit date) w) = "committing"
  /\ batchTimer (spawn CommitCycle (batchedCommit date) w) = batchTimer w
  /\ timers (spawn CommitCycle (batchedCommit date) w) = timers w
  /\ pullsSettled (spawn CommitCycle (batchedCommit date) w) = pullsSettled w
  /\ suspended (spawn CommitCycle (batchedCommit date) w)
     = (suspended w ++ [(CommitCycle, Super, RawSubmoduleStatus)])%list.
Proof.
  unfold spawn, batchedCommit, suspended; simpl.
  destruct (setState_frame "committing" (say INFO "Performing batched commit..." w))
    as (Hb & Ht & _ & _ & _ & Hi & Hq & _).
  rewrite setState_currentState, Hb, Ht, Hi, Hq, map_app. simpl.
  repeat split.
Qed.

Lemma burst_core rest :
  forall w first,
    freshHandles w ->
    exited w = false ->
    chronological (clock w) (first :: rest) ->
    exists w',
      run w (changes (first :: rest)) = Some w'
      /\ currentState w' = "pending"
      /\ batchTimer w' = Some (nextHandle w + length rest)%nat
      /\ timers w'
         = (unheld w
            ++ [((nextHandle w + length rest)%nat,
                 (lastTime first rest + BATCH_INTERVAL_MS)%Z)])%list
      /\ clock w' = lastTime first rest
      /\ inFlight w' = inFlight w
      /\ pullsSettled w' = pullsSettled w.
Proof.
  induction rest as [| second rest IH]; intros w [t1 [e1 p1]] Hf Hx [Hc Hrest].
  - simpl in Hc. simpl. rewrite Hx. unfold step.
    destruct (Z.ltb_spec t1 (clock w)) as [Hlt | _]; [lia |].
    destruct (onChange_spec e1 p1 (set_clock t1 w))
      as (H1 & H2 & H3 & H4 & _ & _ & H7 & H8 & H9).
    eexists; split; [reflexivity |].
    rewrite Nat.add_0_r. unfold lastTime; simpl. repeat split; assumption.
  - simpl in Hc.
    change (changes ((t1, (e1, p1)) :: second :: rest))
      with ((t1, FileChanged e1 p1) :: changes (second :: rest)).
    simpl run. rewrite Hx. unfold step at 1.
    destruct (Z.ltb_spec t1 (clock w)) as [Hlt | _]; [lia |].
    destruct (onChange_spec e1 p1 (set_clock t1 w))
      as (H1 & H2 & H3 & H4 & _ & _ & H7 & H8 & H9).
    pose proof (onChange_exited e1 p1 (set_clock t1 w)) as Hx1.
    simpl in Hx1. rewrite Hx in Hx1.
    set (w1 := onChange e1 p1 (set_clock t1 w)) in *.
    assert (Hf1 : freshHandles w1).
    { unfold freshHandles. rewrite H3, H4. apply Forall_app; split.
      - eapply Forall_impl; [| apply (unheld_fresh (set_clock t1 w)), Hf].
        simpl; intros; lia.
      - constructor; simpl; auto. }
    assert (Hc1 : chronological (clock w1) (second :: rest)).
    { rewrite H9. exact Hrest. }
    destruct (IH w1 second Hf1 Hx1 Hc1) as (w' & R & S1 & S2 & S3 & S4 & S5 & S6).
    exists w'. split; [exact R |]. split; [exact S1 |].
    assert (Hu : unheld w1 = unheld w).
    { unfold unheld at 1. rewrite H2, H3.
      apply filter_out_fresh. apply (unheld_fresh (set_clock t1 w)), Hf. }
    rewrite Hu, H4 in *. simpl length.
    replace (nextHandle w + S (length rest))%nat
      with (S (nextHandle (set_clock t1 w)) + length rest)%nat by (simpl; lia).
    unfold lastTime in *. rewrite last_cons. simpl in H7, H8.
    repeat split; try assumption; congruence.
Qed.

(** The debounce of [onChange] on its own: a burst of N >= 1 change events,
    with no other callback between them, leaves exactly one of the N timers
    it armed: the one of the last event, due one batch interval after it.
    Each event cancels the timer its predecessor armed.  The process is
    alive in [w].  The timers of [w]
    other than the held one are those [w] had already lost the handle of;
    there is none after [main] or after a cycle during which no change
    arrived.  The timer of the burst cannot expire before its due time,
    however long the burst, and its expiry starts one commit cycle. *)
Theorem burst_is_coalesced :
  forall w first rest,
    reachable w ->
    exited w = false ->
    chronological (clock w) (first :: rest) ->
    let h := (nextHandle w + length rest)%nat in
    let due := (lastTime first rest + BATCH_INTERVAL_MS)%Z in
    exists w',
      run w (changes (first :: rest)) = Some w'
      /\ currentState w' = "pending"
      /\ batchTimer w' = Some h
      /\ timers w' = (unheld w ++ [(h, due)])%list
      /\ (unheld w = [] -> timers w' = [(h, due)])
      /\ (forall t date, (t < due)%Z -> step w' t (BatchTimerExpires h date) = None)
      /\ (forall t date, (due <= t)%Z ->
            exists w'',
              step w' t (BatchTimerExpires h date) = Some w''
              /\ currentState w'' = "committing"
              /\ timers w'' = unheld w
              /\ suspended w''
                 = (suspended w' ++ [(CommitCycle, Super, RawSubmoduleStatus)])%list).
Proof.
  intros w first rest Hr Hx Hc h due.
  destruct (reachable_Inv w Hr) as (_ & _ & _ & Hf).
  destruct (burst_core rest w first Hf Hx Hc) as (w' & R & S1 & S2 & S3 & S4 & S5 & S6).
  fold h in S2, S3. fold due in S3.
  assert (Hfresh : Forall (fun e => (fst e < h)%nat) (unheld w)).
  { eapply Forall_impl; [| apply unheld_fresh, Hf]. unfold h; simpl; intros; lia. }
  assert (Hdue : forall t, dueTime h (set_clock t w') = Some due).
  { intro t. unfold dueTime; simpl. rewrite S3, (find_fresh h _ due Hfresh).
    reflexivity. }
  exists w'. repeat (split; [assumption |]). split; [| split].
  - intro Hu. now rewrite S3, Hu.
  - intros t date Ht. unfold step.
    destruct (t <? clock w')%Z; [reflexivity |].
    rewrite Hdue. destruct (Z.leb_spec due t); [lia | reflexivity].
  - intros t date Ht. unfold step.
    destruct (Z.ltb_spec t (clock w')) as [Hlt | _].
    { rewrite S4 in Hlt. unfold due, BATCH_INTERVAL_MS in Ht. lia. }
    rewrite Hdue. destruct (Z.leb_spec due t) as [_ | Hgt]; [| lia].
    eexists; split; [reflexivity |].
    destruct (spawn_batchedCommit date (expire h (set_clock t w')))
      as (G1 & G2 & G3 & G4 & G5).
    split; [exact G1 |]. split.
    + rewrite G3. simpl. rewrite S3. apply filter_out_fresh, Hfresh.
    + exact G5.
Qed.

Lemma burst_is_coalesced_witness :
  exists w',
    run (main 0 []) (changes threeChanges) = Some w'
    /\ currentState w' = "pending"
    /\ batchTimer w' = Some 2%nat
    /\ timers w' = [(2%nat, 64000%Z)]
    /\ (forall date, step w' 63999 (BatchTimerExpires 2 date) = None).
Proof.
  assert (Hc : chronological (clock (main 0 [])) threeChanges)
    by (simpl; lia).
  destruct (burst_is_coalesced (main 0 []) (0%Z, ("change", "/vault/a.md"))
              [(2000%Z, ("change", "/vault/b.md")); (4000%Z, ("add", "/vault/c.md"))]
              (reachable_main 0 []) eq_refl Hc)
    as (w' & R & S1 & S2 & _ & S4 & S5 & _).
  exists w'. split; [exact R |]. split; [exact S1 |]. split; [exact S2 |].
  split; [apply S4; reflexivity |].
  intro date. apply S5. reflexivity.
Defined.

(** C2, evaluated on the code: two changes arrive 38.5 s apart, within one
    batch interval, the first while a commit cycle runs and the second after
    that cycle has ended.  The end of the cycle has set [batchTimer] to
    [null], so the second change does not cancel the timer of the first:
    both stay armed, due at 121.5 s and at 160 s, and both start a commit
    cycle. *)
Theorem burst_across_cycle_end_commits_twice :
  (exists w,
     run (main 0 []) burstAcrossCycleEnd = Some w
     /\ currentState w = "pending"
     /\ batchTimer w = Some 2%nat
     /\ timers w = [(1%nat, 121500%Z); (2%nat, 160000%Z)]
     /\ suspended w = [])
  /\ (exists w,
        run (main 0 []) (burstAcrossCycleEnd ++ twoExpiries) = Some w
        /\ currentState w = "committing"
        /\ timers w = []
        /\ suspended w = [(CommitCycle, Super, RawSubmoduleStatus)]
        /\ length (filter
                     (fun a =>
                        match a with
                        | Console INFO msg =>
                            String.eqb msg "Performing batched commit..."
                        | _ => false
                        end)
                     (journal w)) = 3%nat).
Proof.
  split.
  - eexists. split; [vm_compute; reflexivity |]. repeat split.
  - eexists. split; [vm_compute; reflexivity |]. repeat split.
Qed.

(** ** The commit cycle *)

Lemma record_record tr1 tr2 w :
  record tr2 (record tr1 w) = record (tr1 ++ tr2) w.
Proof. unfold record; simpl. now rewrite app_assoc. Qed.

Lemma commitFrom_app date before folderNames :
  commitFrom date (before ++ folderNames)
  = (forEach before (commitSubmodule date) ;; commitFrom date folderNames).
Proof. unfold commitFrom. now rewrite forEach_app, bind_assoc. Qed.

(** When the commit of a submodule fails during a cycle, the failure is
    logged as a warning and the cycle goes on exactly as a cycle that has
    the remaining submodules and the superproject still to visit.  The
    submodule [folderName] may sit anywhere in the list: after the iterations
    of [before] the cycle is at [commitFrom date (folderName :: after)];
    there, once git has reported changed files, a branch and a successful
    [add], a failing [commit] leaves the program [commitFrom date after],
    which visits every submodule of [after] and then the superproject. *)
Theorem submodule_commit_failure_is_isolated :
  forall fs w date before folderName after files pointers branch e,
    fs folderName = true ->
    (0 < files)%nat ->
    commitFrom date (before ++ folderName :: after)
    = (forEach before (commitSubmodule date) ;;
       commitFrom date (folderName :: after))
    /\ deliver fs
         [StatusSummary files pointers; BranchSummary branch; Done; Failed e]
         (advance fs (commitFrom date (folderName :: after)) w)
       = advance fs (commitFrom date after)
           (record
              [ Git (Sub folderName) Status;
                Git (Sub folderName) BranchLocal;
                Git (Sub folderName) AddAll;
                Git (Sub folderName) (Commit (stringify date files None));
                Console WARN
                  ("Failed to commit submodule " ++ folderName ++ ": " ++ e) ]
              w)
    /\ (forall w0, exists k,
          advance fs (commitFrom date []) w0
          = (record [Git Super Status] w0, Waiting Super Status k)).
Proof.
  intros fs w date before folderName after files pointers branch e Hfs Hfiles.
  split; [apply commitFrom_app |]. split.
  - apply Nat.ltb_lt in Hfiles.
    unfold commitFrom; simpl. rewrite Hfs; simpl. rewrite Hfiles; simpl.
    unfold say. rewrite !record_record. reflexivity.
  - intro w0. eexists. reflexivity.
Qed.

Lemma submodule_commit_failure_is_isolated_witness :
  deliver allPresent
    [StatusSummary 2 None; BranchSummary "main"; Done; Failed "hook declined"]
    (advance allPresent
       (commitFrom "2025-01-01 00:01:00" ("vault" :: ["docs"])) (main 0 []))
  = advance allPresent (commitFrom "2025-01-01 00:01:00" ["docs"])
      (record
         [ Git (Sub "vault") Status;
           Git (Sub "vault") BranchLocal;
           Git (Sub "vault") AddAll;
           Git (Sub "vault") (Commit (stringify "2025-01-01 00:01:00" 2 None));
           Console WARN "Failed to commit submodule vault: hook declined" ]
         (main 0 [])).
Proof.
  refine (proj1 (proj2 (submodule_commit_failure_is_isolated
                          allPresent (main 0 []) "2025-01-01 00:01:00"
                          ["notes"] "vault" ["docs"] 2 None "main"
                          "hook declined" _ _))).
  - reflexivity.
  - repeat constructor.
Defined.

(** C8, evaluated on the code.  A failing [commit] in the submodule vault is
    caught: the cycle goes on, stages, commits and pushes the submodule docs
    and then the superproject, and ends "idle".  A failing
    [add('.')] in vault is caught by nothing: the cycle ends there, docs and
    the superproject are not visited, the state stays "committing", and the
    rejected promise, which nothing handles, ends the process.  The same
    holds of [status()] and [branchLocal()], whatever the submodule, the
    date and the replies before: the promise of the cycle is rejected with
    the message git gave. *)
Theorem submodule_add_failure_ends_the_cycle :
  (exists w,
     run (main 0 []) submoduleCommitFails = Some w
     /\ exited w = false
     /\ currentState w = "idle"
     /\ suspended w = []
     /\ In (Console WARN "Failed to commit submodule vault: hook declined")
          (journal w)
     /\ gitCalls w
        = [ Git Super RawSubmoduleStatus;
            Git (Sub "vault") Status; Git (Sub "vault") BranchLocal;
            Git (Sub "vault") AddAll;
            Git (Sub "vault") (Commit (stringify "2025-01-01 00:01:01" 2 None));
            Git (Sub "docs") Status; Git (Sub "docs") BranchLocal;
            Git (Sub "docs") AddAll;
            Git (Sub "docs") (Commit (stringify "2025-01-01 00:01:01" 1 None));
            Git (Sub "docs") (Push "origin" "main");
            Git Super Status; Git Super AddAll;
            Git Super (Commit (stringify "2025-01-01 00:01:01" 0 (Some 2%nat)));
            Git Super BranchLocal; Git Super (Push "origin" "main") ])
  /\ (exists w,
        run (main 0 []) submoduleAddFails = Some w
        /\ exited w = true
        /\ currentState w = "committing"
        /\ suspended w = []
        /\ gitCalls w
           = [ Git Super RawSubmoduleStatus; Git (Sub "vault") Status;
               Git (Sub "vault") BranchLocal; Git (Sub "vault") AddAll ]
        /\ (forall t e rest, run w ((t, e) :: rest) = None))
  /\ (forall env date folderName after e,
        present (env 0%nat) folderName = true ->
        (answer (env 0%nat) = Failed e ->
         outcome env (commitFrom date (folderName :: after)) = inr e)
        /\ (forall files pointers,
              answer (env 0%nat) = StatusSummary files pointers ->
              answer (env 1%nat) = Failed e ->
              outcome env (commitFrom date (folderName :: after)) = inr e)
        /\ (forall files pointers branch,
              (0 < files)%nat ->
              answer (env 0%nat) = StatusSummary files pointers ->
              answer (env 1%nat) = BranchSummary branch ->
              answer (env 2%nat) = Failed e ->
              outcome env (commitFrom date (folderName :: after)) = inr e)).
Proof.
  split; [| split].
  - eexists. split; [vm_compute; reflexivity |].
    split; [reflexivity |]. split; [reflexivity |]. split; [reflexivity |].
    split; [cbv; intuition | vm_compute; reflexivity].
  - eexists. split; [vm_compute; reflexivity |].
    split; [reflexivity |]. split; [reflexivity |]. split; [reflexivity |].
    split; [reflexivity |]. intros t e rest. reflexivity.
  - intros env date folderName after e Hp.
    unfold commitFrom, commitSubmodule, status, branchLocal, call.
    split; [| split].
    + intro H0. simpl. rewrite Hp. simpl. rewrite H0. reflexivity.
    + intros files pointers H0 H1. simpl. rewrite Hp. simpl. rewrite H0. simpl.
      unfold drop. simpl. rewrite H1. reflexivity.
    + intros files pointers branch Hf H0 H1 H2. apply Nat.ltb_lt in Hf.
      simpl. rewrite Hp. simpl. rewrite H0. simpl.
      unfold drop. simpl. rewrite H1. simpl. rewrite Hf. simpl.
      rewrite H2. reflexivity.
Qed.

(** The "Finalize" lines always end in "idle": [processDone] reads the
    handle that the line before it has set to [null]. *)
Lemma finalize_sets_idle fs w :
  currentState (fst (advance fs finalize w)) = "idle"
  /\ batchTimer (fst (advance fs finalize w)) = None
  /\ timers (fst (advance fs finalize w)) = timers w.
Proof.
  unfold finalize; simpl. unfold processDone; simpl.
  destruct (setState_frame "idle" (set_batchTimer None w)) as (Hb & Ht & _).
  rewrite setState_currentState, Hb, Ht. repeat split.
Qed.

(** C3, evaluated on the code.  First execution: a change arrives while a
    commit cycle runs; when the cycle ends, [batchTimer = null] comes before
    [processDone()], so the state becomes "idle", not "pending", and the
    timer the change armed stays armed without a handle.  Second execution:
    the commit of the superproject fails and [batchedCommit] returns before
    the "Finalize" lines; no invocation is left and the state is still
    "committing". *)
Theorem commit_cycle_end_state :
  (exists w,
     run (main 0 []) changeDuringCommit = Some w
     /\ currentState w = "idle"
     /\ batchTimer w = None
     /\ timers w = [(1%nat, 121500%Z)]
     /\ suspended w = [])
  /\ (exists w,
        run (main 0 []) superprojectCommitFails = Some w
        /\ currentState w = "committing"
        /\ suspended w = []
        /\ timers w = []
        /\ In (Console WARN "Failed to commit superproject: index.lock exists")
             (journal w)).
Proof.
  split.
  - eexists. split; [vm_compute; reflexivity |]. repeat split.
  - eexists. split; [vm_compute; reflexivity |]. repeat split.
    cbv. intuition.
Qed.

(** ** The pull cycle *)

(** C5, evaluated on the code: a change arrives during a pull started from
    "idle".  When [pullUpdates] ends, [processDone()] finds the batch timer
    and keeps "pending"; the [.then] reaction of [maybePull] then sets
    "idle", with the timer of the change still armed. *)
Theorem pull_end_overrides_pending :
  (exists w,
     run (main 0 []) (firstn 3 changeDuringPull) = Some w
     /\ currentState w = "pending"
     /\ pullsSettled w = [Fulfilled])
  /\ (exists w,
        run (main 0 []) changeDuringPull = Some w
        /\ currentState w = "idle"
        /\ batchTimer w = Some 0%nat
        /\ timers w = [(0%nat, 120500%Z)]
        /\ suspended w = []
        /\ pullsSettled w = []).
Proof.
  split.
  - eexists. split; [vm_compute; reflexivity |]. repeat split.
  - eexists. split; [vm_compute; reflexivity |]. repeat split.
Qed.

(** Nothing gates the start of a commit cycle: whatever the state and
    whatever is suspended, a batch timer that is due starts [batchedCommit]. *)
Lemma batchedCommit_is_not_gated w t h date due :
  dueTime h w = Some due -> (due <= t)%Z -> (clock w <= t)%Z ->
  exists w',
    step w t (BatchTimerExpires h date) = Some w'
    /\ currentState w' = "committing"
    /\ suspended w'
       = (suspended w ++ [(CommitCycle, Super, RawSubmoduleStatus)])%list.
Proof.
  intros Hd Hle Hc. unfold step.
  destruct (Z.ltb_spec t (clock w)) as [Hlt | _]; [lia |].
  change (dueTime h (set_clock t w)) with (dueTime h w). rewrite Hd.
  destruct (Z.leb_spec due t) as [_ | Hgt]; [| lia].
  eexists. split; [reflexivity |].
  destruct (spawn_batchedCommit date (expire h (set_clock t w)))
    as (G1 & _ & _ & _ & G5).
  split; [exact G1 | exact G5].
Qed.

(** C1, evaluated on the code: in both executions a [batchedCommit] starts
    while a [pullUpdates] is suspended; the state reads "committing" and the
    two invocations wait for git commands on the superproject at the same
    time.  In the first the pull is still running when the timer of a change
    that arrived during it expires; in the second the timer of a change that
    arrived during an earlier pull expires half a second after the next
    pull has started. *)
Theorem pull_and_commit_overlap :
  (exists w,
     run (main 0 []) slowPull = Some w
     /\ currentState w = "committing"
     /\ suspended w = [ (PullCycle, Super, Pull "origin" "main");
                        (CommitCycle, Super, RawSubmoduleStatus) ]
     /\ overlap Super w)
  /\ (exists w,
        run (main 0 []) pullThenCommit = Some w
        /\ currentState w = "committing"
        /\ suspended w = [ (PullCycle, Super, Pull "origin" "main");
                           (CommitCycle, Super, RawSubmoduleStatus) ]
        /\ overlap Super w).
Proof.
  split.
  - eexists. split; [vm_compute; reflexivity |]. repeat split.
    unfold overlap. do 2 eexists.
    split; [right; left; reflexivity |]. split; [left; reflexivity |].
    repeat split.
  - eexists. split; [vm_compute; reflexivity |]. repeat split.
    unfold overlap. do 2 eexists.
    split; [right; left; reflexivity |]. split; [left; reflexivity |].
    repeat split.
Qed.

(** The reaction to a settled [pullUpdates()] promise always finds it
    fulfilled and sets "idle". *)
Lemma reaction_ends_idle w t w' :
  reachable w -> step w t PullReaction = Some w' -> currentState w' = "idle".
Proof.
  intros Hr. destruct (reachable_Inv w Hr) as (_ & I2 & _).
  unfold step. destruct (t <? clock w)%Z; [discriminate |]. simpl.
  destruct (pullsSettled w) as [| s rest]; [discriminate |].
  inversion I2; subst. intro E; inversion E; subst.
  apply setState_currentState.
Qed.

Lemma error_is_unreachable w : reachable w -> currentState w <> "error".
Proof.
  intros Hr E. destruct (reachable_Inv w Hr) as [Hl _].
  rewrite E in Hl. cbv in Hl. intuition discriminate.
Qed.

Lemma onChange_from_any_state event filePath w :
  currentState (onChange event filePath w) = "pending".
Proof. apply onChange_spec. Qed.

(** In "idle", [maybePull] starts a pull: the state becomes "pulling" and
    [pullUpdates] is suspended at the pull of the superproject.  Whatever
    that pull fails with is logged as a warning, and the cycle goes on with
    the submodules and [processDone()]. *)
Lemma maybePull_from_idle w :
  currentState w = "idle" ->
  exists task,
    inFlight (maybePull w) = (inFlight w ++ [task])%list
    /\ cycle task = PullCycle
    /\ repo task = Super
    /\ awaited task = Pull "origin" "main"
    /\ currentState (maybePull w) = "pulling"
    /\ forall fs e w1,
         advance fs (resume task (Failed e)) w1
         = advance fs (forEach (submodules w) pullSubmodule ;; Do ProcessDone (Ret tt))
             (say WARN ("Failed to pull superproject: " ++ e) w1).
Proof.
  intro Hi. unfold maybePull. rewrite Hi. simpl String.eqb. cbv iota.
  unfold spawn, pullUpdates. simpl.
  destruct (setState_frame "pulling" (say INFO "Checking for remote changes..." w))
    as (_ & _ & _ & _ & _ & Hf & _).
  eexists. split; [rewrite Hf; reflexivity |].
  repeat split. apply setState_currentState.
Qed.

(** C4, as stated, fails: the coordinator is idle, the tick fires, the pull
    of the superproject fails, and the state ends "idle", not "error"; the
    failure is a warning in the journal. *)
Lemma failed_pull_ends_idle :
  exists w,
    run (main 0 []) superprojectPullFails = Some w
    /\ currentState w = "idle"
    /\ currentState w <> "error"
    /\ In (Console WARN "Failed to pull superproject: could not read from remote")
         (journal w).
Proof.
  eexists. split; [vm_compute; reflexivity |]. repeat split.
  - discriminate.
  - cbv. intuition.
Qed.

(** C4, amended: when the coordinator is idle and a tick fires, a failure of
    the superproject pull is logged as a warning and the pull cycle goes on;
    whenever the reaction to a finished pull cycle runs the state becomes
    "idle"; the state is never "error".  A change event sets "pending"
    whatever the state, "error" included. *)
Theorem pull_failure_is_logged_not_an_error :
  forall w, reachable w ->
    currentState w <> "error"
    /\ (currentState w = "idle" ->
        exists task,
          inFlight (maybePull w) = (inFlight w ++ [task])%list
          /\ cycle task = PullCycle
          /\ repo task = Super
          /\ awaited task = Pull "origin" "main"
          /\ currentState (maybePull w) = "pulling"
          /\ forall fs e w1,
               advance fs (resume task (Failed e)) w1
               = advance fs
                   (forEach (submodules w) pullSubmodule ;; Do ProcessDone (Ret tt))
                   (say WARN ("Failed to pull superproject: " ++ e) w1))
    /\ (forall t w', step w t PullReaction = Some w' -> currentState w' = "idle")
    /\ (forall w0 event filePath,
          currentState w0 = "error" ->
          currentState (onChange event filePath w0) = "pending").
Proof.
  intros w Hr. split; [apply error_is_unreachable, Hr |].
  split; [apply maybePull_from_idle |].
  split; [intros t w'; apply reaction_ends_idle, Hr |].
  intros w0 event filePath _. apply onChange_from_any_state.
Qed.

Lemma pull_failure_is_logged_not_an_error_witness :
  currentState (main 0 []) <> "error"
  /\ currentState
       (onChange "change" "/vault/notes.md" (maybePull_catch "remote hung up" (main 0 [])))
     = "pending".
Proof.
  pose proof (pull_failure_is_logged_not_an_error (main 0 []) (reachable_main 0 []))
    as (H1 & _ & _ & H4).
  split; [exact H1 |].
  apply H4. reflexivity.
Defined.

(** C7, as stated, fails: after a pull cycle in which the pull of the
    superproject and the pull of the submodule both fail, the coordinator is
    not in "error" but in "idle"; the failures are two warnings, no error
    is logged, and it is from "idle" that the next tick pulls again. *)
Lemma failed_pull_cycle_is_not_an_error :
  exists w w',
    run (main 0 [vault]) everyPullFails = Some w
    /\ currentState w = "idle"
    /\ currentState w <> "error"
    /\ In (Console WARN "Failed to pull superproject: could not read from remote")
         (journal w)
    /\ In (Console WARN
             "Failed to pull submodule /srv/notes/vault: could not read from remote")
         (journal w)
    /\ (forall msg, ~ In (Console ERROR msg) (journal w))
    /\ step w 120000 PullTick = Some w'
    /\ currentState w' = "pulling"
    /\ suspended w' = [(PullCycle, Super, Pull "origin" "main")].
Proof.
  eexists. eexists. split; [vm_compute; reflexivity |].
  split; [reflexivity |]. split; [discriminate |].
  split; [cbv; intuition |]. split; [cbv; intuition |].
  split; [intros msg H; cbv in H; intuition discriminate |].
  split; [vm_compute; reflexivity |]. split; reflexivity.
Qed.

(** C7, amended: a pull cycle, failed or not, ends in "idle" (never in
    "error"), and in "idle" the next tick that is due pulls again.  In
    "error" a tick skips the pull, as in every state other than "idle". *)
Theorem next_tick_pulls_again :
  forall w, reachable w ->
    currentState w <> "error"
    /\ (forall t w', step w t PullReaction = Some w' -> currentState w' = "idle")
    /\ (forall t due,
          currentState w = "idle" ->
          pullTimer w = Some due -> (due <= t)%Z -> (clock w <= t)%Z ->
          exists w',
            step w t PullTick = Some w'
            /\ currentState w' = "pulling"
            /\ suspended w'
               = (suspended w ++ [(PullCycle, Super, Pull "origin" "main")])%list)
    /\ (forall w0,
          currentState w0 = "error" ->
          maybePull w0 = say INFO "Skipping pull, current state:error" w0).
Proof.
  intros w Hr. split; [apply error_is_unreachable, Hr |].
  split; [intros t w'; apply reaction_ends_idle, Hr |]. split.
  - intros t due Hi Hp Hd Hc. unfold step.
    destruct (Z.ltb_spec t (clock w)) as [Hlt | _]; [lia |].
    simpl. rewrite Hp.
    destruct (Z.leb_spec due t) as [_ | Hgt]; [| lia].
    eexists. split; [reflexivity |].
    destruct (maybePull_from_idle
                (set_pullTimer (Some (t + PULL_INTERVAL_MS)%Z) (set_clock t w)) Hi)
      as (task & E1 & E2 & E3 & E4 & E5 & _).
    split; [exact E5 |].
    unfold suspended. rewrite E1, map_app. simpl. now rewrite E2, E3, E4.
  - intros w0 E. unfold maybePull. rewrite E. reflexivity.
Qed.

Lemma next_tick_pulls_again_witness :
  exists w',
    step (main 0 []) 60000 PullTick = Some w'
    /\ currentState w' = "pulling"
    /\ suspended w' = [(PullCycle, Super, Pull "origin" "main")].
Proof.
  pose proof (next_tick_pulls_again (main 0 []) (reachable_main 0 []))
    as (_ & _ & H3 & _).
  refine (H3 60000%Z 60000%Z _ _ _ _).
  - reflexivity.
  - reflexivity.
  - lia.
  - vm_compute; discriminate.
Defined.

(** * Further properties *)

#[local] Arguments In : simpl nomatch.

(** ** Running a cycle on its own *)

Section Composition.

Lemma observed_bind {A B} (m : Prog A) (f : A -> Prog B) : forall env,
  observed env (bind m f)
  = (observed env m
     ++ match outcome env m with
        | inl a => observed (drop (used env m) env) (f a)
        | inr _ => []
        end)%list.
Proof.
  induction m as [a | e | c k IH | rel k IH | r c k IH]; intro env; simpl;
    try reflexivity; now rewrite IH.
Qed.

Lemma outcome_bind {A B} (m : Prog A) (f : A -> Prog B) : forall env,
  outcome env (bind m f)
  = match outcome env m with
    | inl a => outcome (drop (used env m) env) (f a)
    | inr e => inr e
    end.
Proof.
  induction m as [a | e | c k IH | rel k IH | r c k IH]; intro env; simpl;
    try reflexivity; now rewrite IH.
Qed.

Lemma used_bind {A B} (m : Prog A) (f : A -> Prog B) : forall env,
  used env (bind m f)
  = (used env m
     + match outcome env m with
       | inl a => used (drop (used env m) env) (f a)
       | inr _ => 0
       end)%nat.
Proof.
  induction m as [a | e | c k IH | rel k IH | r c k IH]; intro env; simpl;
    try reflexivity; now rewrite IH.
Qed.

Lemma observed_try_catch {A} (m : Prog A) (h : string -> Prog A) : forall env,
  observed env (try_catch m h)
  = (observed env m
     ++ match outcome env m with
        | inl _ => []
        | inr e => observed (drop (used env m) env) (h e)
        end)%list.
Proof.
  induction m as [a | e | c k IH | rel k IH | r c k IH]; intro env; simpl;
    try reflexivity; now rewrite IH.
Qed.

Lemma outcome_try_catch {A} (m : Prog A) (h : string -> Prog A) : forall env,
  outcome env (try_catch m h)
  = match outcome env m with
    | inl a => inl a
    | inr e => outcome (drop (used env m) env) (h e)
    end.
Proof.
  induction m as [a | e | c k IH | rel k IH | r c k IH]; intro env; simpl;
    try reflexivity; now rewrite IH.
Qed.

(** The replies a program takes are the git calls it is seen to make. *)
Lemma used_calls {A} (p : Prog A) : forall env,
  used env p = calls (observed env p).
Proof.
  induction p as [a | e | c k IH | rel k IH | r c k IH]; intro env; simpl;
    auto.
Qed.

(** A program that cannot throw ends with a value. *)
Lemma NoThrow_outcome {A} (p : Prog A) : forall env,
  NoThrow p -> exists a, outcome env p = inl a.
Proof.
  induction p as [a | e | c k IH | rel k IH | r c k IH]; intros env H;
    simpl in *; eauto. contradiction.
Qed.

(** The statements a program is seen to run are statements of its text. *)
Lemma AllCmds_observed {A} (P : Cmd -> Prop) (p : Prog A) : forall env c,
  AllCmds P p -> In (Ran c) (observed env p) -> P c.
Proof.
  induction p as [a | e | c0 k IH | rel k IH | r c0 k IH]; intros env c H Hin;
    simpl in *.
  - contradiction.
  - contradiction.
  - destruct H as [H0 Hk]. destruct Hin as [E | Hin].
    + inversion E; subst; exact H0.
    + eapply IH; eauto.
  - destruct Hin as [E | Hin]; [discriminate | eapply IH; eauto].
  - destruct Hin as [E | Hin]; [discriminate | eapply IH; eauto].
Qed.

(** One turn of the event loop and the run of a cycle on its own agree:
    up to its first [await] a program makes no git call, and what it does
    after the reply is what the continuation is seen to do. *)
Lemma advance_observed (p : Prog unit) : forall env w,
  match advance (present (env 0%nat)) p w with
  | (_, Finished Fulfilled) =>
      calls (observed env p) = 0%nat /\ outcome env p = inl tt
  | (_, Finished (Rejected e)) =>
      calls (observed env p) = 0%nat /\ outcome env p = inr e
  | (_, Waiting r c k) =>
      exists pre,
        calls pre = 0%nat
        /\ observed env p
           = (pre ++ Called r c (answer (env 0%nat))
                  :: observed (drop 1 env) (k (answer (env 0%nat))))%list
        /\ outcome env p = outcome (drop 1 env) (k (answer (env 0%nat)))
  end.
Proof.
  induction p as [a | e | c k IH | rel k IH | r c k IH]; intros env w; simpl.
  - destruct a; auto.
  - auto.
  - specialize (IH env (exec c w)).
    destruct (advance (present (env 0%nat)) k (exec c w)) as [w' [[| e] | r c' k']].
    + exact IH.
    + exact IH.
    + destruct IH as (pre & H1 & H2 & H3).
      exists (Ran c :: pre). simpl. rewrite H2. auto.
  - specialize (IH (present (env 0%nat) rel) env w).
    destruct (advance (present (env 0%nat)) (k (present (env 0%nat) rel)) w)
      as [w' [[| e] | r c' k']].
    + exact IH.
    + exact IH.
    + destruct IH as (pre & H1 & H2 & H3).
      exists (Asked rel (present (env 0%nat) rel) :: pre). simpl. rewrite H2. auto.
  - exists []. simpl. auto.
Qed.

End Composition.

Lemma calls_app tr1 tr2 : calls (tr1 ++ tr2) = (calls tr1 + calls tr2)%nat.
Proof.
  induction tr1 as [| o tr1 IH]; simpl; [reflexivity |].
  destruct o; simpl; now rewrite IH.
Qed.

Section Order.

Variables need target : Obs -> Prop.

Lemma precededBy_nil : precededBy need target [].
Proof. intros l1 o l2 E. destruct l1; discriminate. Qed.

(** An observation that is no target can be put in front. *)
Lemma precededBy_cons o tr :
  ~ target o -> precededBy need target tr -> precededBy need target (o :: tr).
Proof.
  intros Hn H l1 o' l2 E Ht. destruct l1 as [| x l1]; simpl in E.
  - inversion E; subst. contradiction.
  - inversion E; subst. destruct (H l1 o' l2 eq_refl Ht) as (o'' & Hi & Hd).
    exists o''. split; [right; exact Hi | exact Hd].
Qed.

(** After the needed observation every target is covered. *)
Lemma precededBy_after o tr :
  ~ target o -> need o -> precededBy need target (o :: tr).
Proof.
  intros Hn Hd l1 o' l2 E Ht. destruct l1 as [| x l1]; simpl in E.
  - inversion E; subst. contradiction.
  - inversion E; subst. exists x. split; [left; reflexivity | exact Hd].
Qed.

Lemma precededBy_app tr1 tr2 :
  precededBy need target tr1 -> precededBy need target tr2 ->
  precededBy need target (tr1 ++ tr2).
Proof.
  intros H1 H2 l1 o l2 E Ht.
  destruct (app_eq_app _ _ _ _ E) as (l & [[E1 E2] | [E1 E2]]).
  - destruct l as [| x l]; simpl in E2.
    + rewrite app_nil_r in E1. subst.
      destruct (H2 [] o l2 eq_refl Ht) as (o' & [] & _).
    + inversion E2; subst. exact (H1 l1 x l eq_refl Ht).
  - destruct (H2 l o l2 E2 Ht) as (o' & Hi & Hd).
    exists o'. split; [| exact Hd]. subst l1. apply in_or_app. right; exact Hi.
Qed.

End Order.

(** ** What a commit cycle does with git *)

#[local] Arguments String.append : simpl never.
#[local] Arguments stringify : simpl never.

Lemma Repo_eq_dec (r1 r2 : Repo) : {r1 = r2} + {r1 <> r2}.
Proof. decide equality. apply string_dec. Qed.

#[local] Arguments unitOf : simpl never.

Lemma unitOf_cases reply : (exists e, reply = Failed e) \/ resolved reply.
Proof. destruct reply; simpl; eauto. Qed.

Lemma unitOf_resolved reply : resolved reply -> unitOf reply = Ret tt.
Proof. destruct reply; simpl; intro H; [destruct H | ..]; reflexivity. Qed.

Lemma unitOf_failed e : unitOf (Failed e) = Throw e.
Proof. reflexivity. Qed.

Ltac not_target :=
  let H := fresh in
  intro H; hnf in H;
  repeat match type of H with
         | ex _ => destruct H as [? H]
         | _ /\ _ => destruct H as [H _]
         end;
  inversion H; subst; congruence.

Ltac is_need :=
  repeat eexists; first [exact I | eassumption].

Ltac in_order :=
  repeat first
    [ apply precededBy_nil
    | apply precededBy_after; [solve [not_target] | solve [is_need]]
    | apply precededBy_cons; [solve [not_target] |] ].

(** Splits on what git replies: a call whose value is not used either
    fails or resolves; the other replies are taken apart by shape. *)
Ltac all_replies :=
  unfold call; fold unitOf; simpl;
  repeat (match goal with
          | |- context [unitOf ?x] =>
              let e := fresh "e" in
              let E := fresh "E" in
              let R := fresh "R" in
              destruct (unitOf_cases x) as [[e E] | R];
              [ rewrite E, ?unitOf_failed | rewrite (unitOf_resolved x R) ]
          | |- context [match ?x with _ => _ end] =>
              match type of x with
              | Reply => destruct x
              | (_ * _)%type => destruct x
              | bool => destruct x eqn:?
              end
          | |- context [if ?b then _ else _] => destruct b eqn:?
          end; simpl).

Lemma commitSubmodule_push_after_commit env date folderName r :
  precededBy (commitResolved r) (isPush r)
    (observed env (commitSubmodule date folderName)).
Proof.
  unfold commitSubmodule, status, branchLocal, logInfo, logWarn.
  destruct (Repo_eq_dec r (Sub folderName)) as [E0 | E0]; [subst r |];
    all_replies; in_order.
Qed.

Section Lifting.

Variables need target : Obs -> Prop.

Lemma precededBy_bind {A B} (m : Prog A) (f : A -> Prog B) env :
  precededBy need target (observed env m) ->
  (forall a env', precededBy need target (observed env' (f a))) ->
  precededBy need target (observed env (bind m f)).
Proof.
  intros Hm Hf. rewrite observed_bind. apply precededBy_app; [exact Hm |].
  destruct (outcome env m); [apply Hf | apply precededBy_nil].
Qed.

Lemma precededBy_forEach {A} (l : list A) (body : A -> Prog unit) :
  (forall x env, precededBy need target (observed env (body x))) ->
  forall env, precededBy need target (observed env (forEach l body)).
Proof.
  intro Hb. induction l as [| x l IH]; intro env; simpl.
  - apply precededBy_nil.
  - apply precededBy_bind; [apply Hb | intros _ env'; apply IH].
Qed.

End Lifting.

Lemma commitSubmodule_commit_after_add env date folderName r :
  precededBy (addResolved r) (isCommit r)
    (observed env (commitSubmodule date folderName)).
Proof.
  unfold commitSubmodule, status, branchLocal, logInfo, logWarn.
  destruct (Repo_eq_dec r (Sub folderName)) as [E0 | E0]; [subst r |];
    all_replies; in_order.
Qed.

Lemma commitSuperproject_push_after_commit env date r :
  precededBy (commitResolved r) (isPush r)
    (observed env (commitSuperproject date)).
Proof.
  unfold commitSuperproject, status, branchLocal, logInfo, logWarn.
  destruct (Repo_eq_dec r Super) as [E0 | E0]; [subst r |];
    all_replies; in_order.
Qed.

Lemma commitSuperproject_commit_after_add env date r :
  precededBy (addResolved r) (isCommit r)
    (observed env (commitSuperproject date)).
Proof.
  unfold commitSuperproject, status, branchLocal, logInfo, logWarn.
  destruct (Repo_eq_dec r Super) as [E0 | E0]; [subst r |];
    all_replies; in_order.
Qed.

(** Lifts a property of the two parts of a cycle to the whole of
    [batchedCommit]. *)
Lemma batchedCommit_precededBy (need target : Obs -> Prop) date :
  (forall r c reply, c <> AddAll ->
     (forall m, c <> Commit m) -> (forall a b, c <> Push a b) ->
     ~ target (Called r c reply)) ->
  (forall c, ~ target (Ran c)) ->
  (forall folderName env,
     precededBy need target (observed env (commitSubmodule date folderName))) ->
  (forall env, precededBy need target (observed env (commitSuperproject date))) ->
  forall env, precededBy need target (observed env (batchedCommit date)).
Proof.
  intros Hcall Hran Hsub Hsup env.
  unfold batchedCommit, submoduleFolders, logInfo. simpl.
  do 2 (apply precededBy_cons; [apply Hran |]).
  apply precededBy_cons.
  { apply Hcall; intros; discriminate. }
  destruct (answer (env 0%nat)); simpl; try apply precededBy_nil.
  apply precededBy_cons; [apply Hran |].
  unfold commitFrom. apply precededBy_bind.
  - apply precededBy_forEach. exact Hsub.
  - intros _ env'. apply precededBy_bind; [apply Hsup |].
    intros [|] env''; simpl.
    + do 2 (apply precededBy_cons; [apply Hran |]). apply precededBy_nil.
    + apply precededBy_nil.
Qed.

(** In a commit cycle, whatever git replies and whichever folders exist, a
    tree is committed only after [add('.')] has resolved on that tree and
    pushed only after [commit] has resolved on it. *)
Theorem commit_cycle_stages_then_commits_then_pushes :
  forall env date r,
    precededBy (addResolved r) (isCommit r) (observed env (batchedCommit date))
    /\ precededBy (commitResolved r) (isPush r) (observed env (batchedCommit date)).
Proof.
  intros env date r. split.
  - apply batchedCommit_precededBy.
    + intros r' c reply _ Hc _ (m & reply' & E). inversion E; subst.
      exact (Hc m eq_refl).
    + intros c (m & reply & E); discriminate.
    + intros; apply commitSubmodule_commit_after_add.
    + intros; apply commitSuperproject_commit_after_add.
  - apply batchedCommit_precededBy.
    + intros r' c reply _ _ Hc (a & b & reply' & E). inversion E; subst.
      exact (Hc a b eq_refl).
    + intros c (a & b & reply & E); discriminate.
    + intros; apply commitSubmodule_push_after_commit.
    + intros; apply commitSuperproject_push_after_commit.
Qed.

Section Everywhere.

Variable Q : Obs -> Prop.

Lemma Forall_observed_bind {A B} (m : Prog A) (f : A -> Prog B) env :
  Forall Q (observed env m) ->
  (forall a env', Forall Q (observed env' (f a))) ->
  Forall Q (observed env (bind m f)).
Proof.
  intros Hm Hf. rewrite observed_bind. apply Forall_app; split; [exact Hm |].
  destruct (outcome env m); [apply Hf | constructor].
Qed.

Lemma Forall_observed_forEach {A} (l : list A) (body : A -> Prog unit) :
  (forall x env, Forall Q (observed env (body x))) ->
  forall env, Forall Q (observed env (forEach l body)).
Proof.
  intro Hb. induction l as [| x l IH]; intro env; simpl.
  - constructor.
  - apply Forall_observed_bind; [apply Hb | intros _ env'; apply IH].
Qed.

End Everywhere.

Ltac everywhere :=
  repeat (constructor; simpl; auto);
  try (split; [reflexivity |]); try (apply String.eqb_neq);
  try match goal with
      | H : negb _ = true |- _ => apply negb_true_iff in H; exact H
      | H : negb _ = false |- _ => apply negb_false_iff in H; congruence
      end; try congruence.

Lemma commitSubmodule_destinations env date folderName :
  Forall commitDestination (observed env (commitSubmodule date folderName)).
Proof.
  unfold commitSubmodule, status, branchLocal, logInfo, logWarn.
  all_replies; everywhere.
Qed.

Lemma commitSuperproject_destinations env date :
  Forall commitDestination (observed env (commitSuperproject date)).
Proof.
  unfold commitSuperproject, status, branchLocal, logInfo, logWarn.
  all_replies; everywhere.
Qed.

Lemma batchedCommit_destinations env date :
  Forall commitDestination (observed env (batchedCommit date)).
Proof.
  unfold batchedCommit, submoduleFolders, logInfo. simpl.
  do 3 (constructor; [exact I |]).
  destruct (answer (env 0%nat)); simpl; try constructor; try exact I.
  unfold commitFrom. apply Forall_observed_bind.
  - apply Forall_observed_forEach. intros; apply commitSubmodule_destinations.
  - intros _ env'. apply Forall_observed_bind.
    + apply commitSuperproject_destinations.
    + intros [|] env''; simpl; repeat constructor.
Qed.








(** A status line without a path gives the folder name [''], and
    [path.join(WATCH_DIR, '')] is [WATCH_DIR]: the cycle then checks out
    'main' through a handle that works on the tree of the superproject. *)
Lemma empty_folder_name_is_the_superproject :
  In (Called (Sub "") (Checkout "main") Done)
    (observed
       (scripted [Text [""]; StatusSummary 1 None; BranchSummary "dev";
                  Done; Done; Done])
       (batchedCommit "2025-01-01 00:01:00"))
  /\ forall join, treeOf join (Sub "") = treeOf join Super.
Proof.
  split; [vm_compute; auto 20 | reflexivity].
Qed.


(** ** When a commit cycle reaches its last lines *)

Lemma AllCmds_impl {A} (P Q : Cmd -> Prop) (p : Prog A) :
  (forall c, P c -> Q c) -> AllCmds P p -> AllCmds Q p.
Proof.
  intro H. induction p as [a | e | c k IH | rel k IH | r c k IH]; simpl; auto.
  intros [H1 H2]; auto.
Qed.

(** The loop over the submodules and the part on the superproject run
    no statement but log lines. *)
Lemma commitSubmodule_only_logs date folderName :
  AllCmds isLog (commitSubmodule date folderName).
Proof. unfold commitSubmodule, status, branchLocal, call, logInfo, logWarn. tame_prog. Qed.

Lemma commitSuperproject_only_logs date : AllCmds isLog (commitSuperproject date).
Proof. unfold commitSuperproject, status, branchLocal, call, logInfo, logWarn. tame_prog. Qed.

Lemma commitSubmodule_onSubmodule env date folderName :
  Forall onSubmodule (observed env (commitSubmodule date folderName)).
Proof.
  unfold commitSubmodule, status, branchLocal, logInfo, logWarn.
  all_replies; repeat (constructor; simpl; auto).
Qed.

Lemma commitSuperproject_reaches env date :
  match outcome env (commitSuperproject date) with
  | inl true =>
      forall msg e,
        ~ In (Called Super (Commit msg) (Failed e))
            (observed env (commitSuperproject date))
  | inl false =>
      exists msg e,
        In (Called Super (Commit msg) (Failed e))
          (observed env (commitSuperproject date))
  | inr _ => True
  end.
Proof.
  unfold commitSuperproject, status, branchLocal, logInfo, logWarn.
  all_replies; auto;
    try (do 2 eexists; cbv [In]; auto 10; fail);
    intros msg e' H; cbv [In] in H;
    repeat (destruct H as [H | H]; try discriminate; try contradiction);
    inversion H;
    match goal with
    | R : resolved ?x, E : ?x = Failed _ |- _ => rewrite E in R; exact R
    end.
Qed.

Lemma commitFrom_finalize env date folderNames :
  let tr := observed env (commitFrom date folderNames) in
  (In (Ran ProcessDone) tr
   <-> outcome env (commitFrom date folderNames) = inl tt
       /\ forall msg e, ~ In (Called Super (Commit msg) (Failed e)) tr)
  /\ (In (Ran ProcessDone) tr ->
      exists tr',
        tr = (tr' ++ [Ran ForgetBatchTimer; Ran ProcessDone])%list
        /\ ~ In (Ran ProcessDone) tr').
Proof.
  unfold commitFrom. rewrite observed_bind, outcome_bind.
  set (loop := forEach folderNames (commitSubmodule date)).
  assert (HL : ~ In (Ran ProcessDone) (observed env loop)).
  { intro H. apply (AllCmds_observed isLog loop env ProcessDone) in H; [exact H |].
    apply AllCmds_forEach. intro; apply commitSubmodule_only_logs. }
  assert (HL2 : forall msg e,
             ~ In (Called Super (Commit msg) (Failed e)) (observed env loop)).
  { intros msg e H.
    pose proof (Forall_observed_forEach onSubmodule folderNames
                  (commitSubmodule date)
                  (fun x env' => commitSubmodule_onSubmodule env' date x) env) as F.
    rewrite Forall_forall in F. exact (F _ H). }
  destruct (outcome env loop) as [[] | e0].
  - rewrite observed_bind, outcome_bind.
    set (env1 := drop (used env loop) env).
    assert (HS : ~ In (Ran ProcessDone) (observed env1 (commitSuperproject date))).
    { intro H.
      apply (AllCmds_observed isLog _ env1 ProcessDone) in H; [exact H |].
      apply commitSuperproject_only_logs. }
    pose proof (commitSuperproject_reaches env1 date) as HR.
    remember (commitSuperproject date) as sup eqn:Esup. clear Esup.
    destruct (outcome env1 sup) as [[|] | e1]; simpl.
    + split.
      * split.
        -- intros _. split; [reflexivity |]. intros msg e H.
           apply in_app_or in H. destruct H as [H | H]; [exact (HL2 _ _ H) |].
           apply in_app_or in H. destruct H as [H | H]; [exact (HR _ _ H) |].
           simpl in H. intuition discriminate.
        -- intros _. apply in_or_app. right. apply in_or_app. right.
           simpl; auto.
      * intros _.
        exists (observed env loop ++ observed env1 sup)%list.
        split; [now rewrite app_assoc |].
        intro H. apply in_app_or in H. tauto.
    + rewrite app_nil_r. split.
      * split.
        -- intro H. apply in_app_or in H. tauto.
        -- intros [_ H]. destruct HR as (msg & e & Hin).
           exfalso. apply (H msg e). apply in_or_app. right; exact Hin.
      * intro H. apply in_app_or in H. tauto.
    + rewrite app_nil_r. split.
      * split.
        -- intro H. apply in_app_or in H. tauto.
        -- intros [H _]. discriminate.
      * intro H. apply in_app_or in H. tauto.
  - rewrite app_nil_r. split.
    + split; [intro H; contradiction | intros [H _]; discriminate].
    + intro H; contradiction.
Qed.

(** [batchedCommit] reaches [processDone()] exactly when its promise is
    fulfilled and the commit of the superproject has not failed; it then
    runs it once, as its last statement, right after [batchTimer = null].
    A rejection of a call outside the [try] blocks, or a failed commit of
    the superproject, ends the cycle without it. *)
Theorem commit_cycle_reaches_processDone :
  forall env date,
    let tr := observed env (batchedCommit date) in
    (In (Ran ProcessDone) tr
     <-> outcome env (batchedCommit date) = inl tt
         /\ forall msg e, ~ In (Called Super (Commit msg) (Failed e)) tr)
    /\ (In (Ran ProcessDone) tr ->
        exists tr',
          tr = (tr' ++ [Ran ForgetBatchTimer; Ran ProcessDone])%list
          /\ ~ In (Ran ProcessDone) tr').
Proof.
  intros env date. unfold batchedCommit, submoduleFolders, logInfo. simpl.
  destruct (answer (env 0%nat)) as [e | | folderNames | |] eqn:Ea; simpl;
    try (split;
         [ split; [ intro H; intuition discriminate
                  | intros [H _]; discriminate ]
         | intro H; intuition discriminate ]).
  destruct (commitFrom_finalize (drop 1 env) date folderNames) as [[F1 F2] F3].
  split.
  - split.
    + intro H.
      assert (H' : In (Ran ProcessDone)
                     (observed (drop 1 env) (commitFrom date folderNames)))
        by (intuition discriminate).
      destruct (F1 H') as [G1 G2]. split; [exact G1 |].
      intros msg e H2. apply (G2 msg e). intuition discriminate.
    + intros [G1 G2]. do 4 right. apply F2. split; [exact G1 |].
      intros msg e H. apply (G2 msg e). do 4 right. exact H.
  - intro H.
    assert (H' : In (Ran ProcessDone)
                   (observed (drop 1 env) (commitFrom date folderNames)))
      by (intuition discriminate).
    destruct (F3 H') as (tr' & E & Hn).
    eexists (_ :: _ :: _ :: _ :: tr'). split.
    + simpl. rewrite E. reflexivity.
    + intro G. simpl in G. intuition discriminate.
Qed.

(** ** What a pull cycle does with git *)

Lemma pullSubmodule_only_logs sub : AllCmds isLog (pullSubmodule sub).
Proof. unfold pullSubmodule, branchLocal, call, logInfo, logWarn. tame_prog. Qed.

Lemma pullSubmodule_on_main env sub rel :
  precededBy (onMain rel) (isSubmodulePull rel) (observed env (pullSubmodule sub)).
Proof.
  unfold pullSubmodule, branchLocal, logInfo, logWarn.
  destruct (string_dec rel (name sub)) as [E0 | E0]; [subst rel |];
    all_replies;
    repeat match goal with
           | H : negb (String.eqb ?c "main") = false |- _ =>
               apply negb_false_iff, String.eqb_eq in H; subst c
           end;
    repeat first
      [ apply precededBy_nil
      | apply precededBy_after; [solve [not_target] | reflexivity]
      | apply precededBy_cons; [solve [not_target] |] ].
Qed.

Lemma pullSubmodule_requests env sub :
  Forall pullRequest (observed env (pullSubmodule sub)).
Proof.
  unfold pullSubmodule, branchLocal, logInfo, logWarn.
  all_replies; repeat (constructor; simpl; auto).
Qed.

Lemma pullSubmodule_used env sub :
  (1 <= used env (pullSubmodule sub) <= 2)%nat.
Proof.
  unfold pullSubmodule, branchLocal, logInfo, logWarn.
  all_replies; lia.
Qed.

Lemma pullSubmodules_used subs : forall env,
  (length subs <= used env (forEach subs pullSubmodule) <= 2 * length subs)%nat.
Proof.
  induction subs as [| sub subs IH]; intro env.
  - simpl. lia.
  - change (forEach (sub :: subs) pullSubmodule)
      with (pullSubmodule sub ;; forEach subs pullSubmodule).
    rewrite used_bind.
    destruct (NoThrow_outcome (pullSubmodule sub) env (pullSubmodule_NoThrow sub))
      as (a & E).
    rewrite E.
    pose proof (pullSubmodule_used env sub) as H1.
    pose proof (IH (drop (used env (pullSubmodule sub)) env)) as H2.
    simpl length. lia.
Qed.

(** The shape of every pull cycle. *)
Lemma pullUpdates_shape env subs :
  observed env (pullUpdates subs)
  = (Ran (Log INFO "Attempting to pull latest changes...")
     :: Called Super (Pull "origin" "main") (answer (env 0%nat))
     :: Ran (match answer (env 0%nat) with
             | Failed e => Log WARN ("Failed to pull superproject: " ++ e)
             | _ => Log INFO "Pulled latest changes in superproject"
             end)
     :: observed (drop 1 env) (forEach subs pullSubmodule)
     ++ [Ran ProcessDone])%list
  /\ outcome env (pullUpdates subs) = inl tt
  /\ used env (pullUpdates subs)
     = S (used (drop 1 env) (forEach subs pullSubmodule)).
Proof.
  assert (HN : NoThrow (forEach subs pullSubmodule)).
  { apply NoThrow_forEach. intro; apply pullSubmodule_NoThrow. }
  unfold pullUpdates, call, logInfo, logWarn. simpl.
  destruct (answer (env 0%nat)); simpl;
    rewrite observed_bind, outcome_bind, used_bind;
    destruct (NoThrow_outcome _ (drop 1 env) HN) as ([] & E); rewrite E;
    simpl; repeat split; lia.
Qed.

(** Whatever git replies to a pull cycle, and however many submodules
    there are: the promise of [pullUpdates] is fulfilled; the cycle starts
    with the pull of the superproject and ends with [processDone()], which
    it runs once. *)
Theorem pull_cycle_always_completes :
  forall env subs,
    outcome env (pullUpdates subs) = inl tt
    /\ exists tr,
         observed env (pullUpdates subs)
         = (Ran (Log INFO "Attempting to pull latest changes...")
            :: Called Super (Pull "origin" "main") (answer (env 0%nat))
            :: tr ++ [Ran ProcessDone])%list
         /\ ~ In (Ran ProcessDone) tr.
Proof.
  intros env subs. destruct (pullUpdates_shape env subs) as (E & O & _).
  split; [exact O |].
  eexists (_ :: observed (drop 1 env) (forEach subs pullSubmodule)).
  split; [exact E |].
  intros [H | H].
  - destruct (answer (env 0%nat)); discriminate.
  - apply (AllCmds_observed isLog _ _ ProcessDone) in H; [exact H |].
    apply AllCmds_forEach. intro; apply pullSubmodule_only_logs.
Qed.

(** A pull cycle pulls a submodule only after [branchLocal] has answered
    'main' for it; every pull it makes is from origin/main; and it asks git
    for nothing but current branches and pulls: it stages, commits, pushes
    and checks out nothing. *)
Theorem pull_cycle_only_pulls_main :
  forall env subs,
    (forall rel,
       precededBy (onMain rel) (isSubmodulePull rel)
         (observed env (pullUpdates subs)))
    /\ Forall pullRequest (observed env (pullUpdates subs)).
Proof.
  intros env subs. destruct (pullUpdates_shape env subs) as (E & _ & _).
  rewrite E. split.
  - intro rel.
    apply precededBy_cons; [not_target |].
    apply precededBy_cons; [not_target |].
    apply precededBy_cons; [not_target |].
    apply precededBy_app.
    + apply precededBy_forEach. intros; apply pullSubmodule_on_main.
    + apply precededBy_cons; [not_target | apply precededBy_nil].
  - repeat (constructor; [simpl; auto |]).
    apply Forall_app; split.
    + apply Forall_observed_forEach. intros; apply pullSubmodule_requests.
    + repeat constructor.
Qed.

(** A pull cycle over [n] submodules makes at least [n + 1] and at most
    [2 n + 1] git calls. *)
Theorem pull_cycle_call_count :
  forall env subs,
    (length subs + 1 <= calls (observed env (pullUpdates subs))
     <= 2 * length subs + 1)%nat.
Proof.
  intros env subs. rewrite <- used_calls.
  destruct (pullUpdates_shape env subs) as (_ & _ & U). rewrite U.
  pose proof (pullSubmodules_used subs (drop 1 env)). lia.
Qed.


Lemma commit_cycle_reaches_processDone_witness :
  In (Ran ProcessDone) (observed smoothCycle (batchedCommit "2025-01-01 00:01:00")).
Proof.
  apply (proj1 (commit_cycle_reaches_processDone smoothCycle "2025-01-01 00:01:00")).
  split.
  - reflexivity.
  - intros msg e H. vm_compute in H.
    repeat (destruct H as [H | H]; [discriminate |]). exact H.
Defined.

(** ** How many git calls a commit cycle makes *)

Lemma commitSubmodule_used env date folderName :
  (used env (commitSubmodule date folderName) <= 6)%nat.
Proof.
  unfold commitSubmodule, status, branchLocal, logInfo, logWarn.
  all_replies; lia.
Qed.

Lemma commitSuperproject_used env date :
  (1 <= used env (commitSuperproject date) <= 5)%nat.
Proof.
  unfold commitSuperproject, status, branchLocal, logInfo, logWarn.
  all_replies; lia.
Qed.

Lemma commitSubmodules_used date folderNames : forall env,
  (used env (forEach folderNames (commitSubmodule date))
   <= 6 * length folderNames)%nat.
Proof.
  induction folderNames as [| f l IH]; intro env.
  - simpl. lia.
  - change (forEach (f :: l) (commitSubmodule date))
      with (commitSubmodule date f ;; forEach l (commitSubmodule date)).
    rewrite used_bind.
    pose proof (commitSubmodule_used env date f) as H1.
    pose proof (IH (drop (used env (commitSubmodule date f)) env)) as H2.
    destruct (outcome env (commitSubmodule date f)); simpl length; lia.
Qed.

(** A commit cycle makes at least one git call and at most [6 n + 6],
    where [n] is the number of folders the submodule status lists: one for
    the status, at most six per submodule and at most five for the
    superproject. *)
Theorem commit_cycle_call_count :
  forall env date,
    (1 <= calls (observed env (batchedCommit date))
     <= 6 * match answer (env 0%nat) with
            | Text folderNames => length folderNames
            | _ => 0
            end + 6)%nat.
Proof.
  intros env date. rewrite <- used_calls.
  unfold batchedCommit, submoduleFolders, logInfo. simpl.
  destruct (answer (env 0%nat)) as [e | | folderNames | |]; simpl; try lia.
  unfold commitFrom. rewrite used_bind.
  pose proof (commitSubmodules_used date folderNames (drop 1 env)) as H1.
  destruct (outcome (drop 1 env) (forEach folderNames (commitSubmodule date)));
    [| lia].
  rewrite used_bind.
  match goal with
  | |- context [used ?e (commitSuperproject date)] =>
      pose proof (commitSuperproject_used e date) as H2;
      remember (used e (commitSuperproject date)) as cnt eqn:Ecnt; clear Ecnt;
      destruct (outcome e (commitSuperproject date)) as [[|] | ?]; simpl; lia
  end.
Qed.

(** ** What the event loop leaves alone *)

(** No statement of a cycle touches the timers, the submodule list, the
    suspended invocations or the settled promises. *)
Lemma exec_frame c w :
  timers (exec c w) = timers w
  /\ nextHandle (exec c w) = nextHandle w
  /\ pullTimer (exec c w) = pullTimer w
  /\ submodules (exec c w) = submodules w
  /\ inFlight (exec c w) = inFlight w
  /\ pullsSettled (exec c w) = pullsSettled w
  /\ clock (exec c w) = clock w.
Proof.
  destruct c as [l msg | newState | |]; simpl.
  - repeat split.
  - destruct (setState_frame newState w) as (_ & H); tauto.
  - repeat split.
  - destruct (processDone_frame w) as (_ & H); tauto.
Qed.

Lemma advance_frame fs (p : Prog unit) : forall w w' stop,
  advance fs p w = (w', stop) ->
  timers w' = timers w
  /\ nextHandle w' = nextHandle w
  /\ pullTimer w' = pullTimer w
  /\ submodules w' = submodules w
  /\ inFlight w' = inFlight w
  /\ pullsSettled w' = pullsSettled w
  /\ clock w' = clock w.
Proof.
  induction p as [a | e | c k IH | rel k IH | r c k IH]; simpl; intros w w' stop E.
  - inversion E; subst; repeat split.
  - inversion E; subst; repeat split.
  - destruct (IH _ _ _ E) as (H1 & H2 & H3 & H4 & H5 & H6 & H7).
    destruct (exec_frame c w) as (G1 & G2 & G3 & G4 & G5 & G6 & G7).
    repeat split; congruence.
  - exact (IH _ _ _ _ E).
  - inversion E; subst; repeat split.
Qed.

Lemma spawn_frame cy p w :
  timers (spawn cy p w) = timers w
  /\ nextHandle (spawn cy p w) = nextHandle w
  /\ pullTimer (spawn cy p w) = pullTimer w
  /\ submodules (spawn cy p w) = submodules w
  /\ clock (spawn cy p w) = clock w.
Proof.
  unfold spawn. destruct (advance (fun _ => true) p w) as [w' stop] eqn:E.
  destruct (advance_frame _ _ _ _ _ E) as (H1 & H2 & H3 & H4 & _ & _ & H7).
  destruct stop as [s | r c k]; [destruct cy; [destruct s |] |];
    simpl; repeat split; assumption.
Qed.

Lemma gitSettles_frame i reply fs w w' :
  gitSettles i reply fs w = Some w' ->
  timers w' = timers w
  /\ nextHandle w' = nextHandle w
  /\ pullTimer w' = pullTimer w
  /\ submodules w' = submodules w
  /\ clock w' = clock w.
Proof.
  unfold gitSettles. destruct (nth_error (inFlight w) i) as [task |]; [| discriminate].
  destruct (advance fs (resume task reply) w) as [w1 stop] eqn:E.
  destruct (advance_frame _ _ _ _ _ E) as (H1 & H2 & H3 & H4 & _ & _ & H7).
  destruct stop as [s | r c k]; intro E'; inversion E'; subst; clear E'.
  - destruct (cycle task); [destruct s |]; simpl; repeat split; assumption.
  - simpl; repeat split; assumption.
Qed.

Lemma maybePull_frame w :
  timers (maybePull w) = timers w
  /\ nextHandle (maybePull w) = nextHandle w
  /\ pullTimer (maybePull w) = pullTimer w
  /\ submodules (maybePull w) = submodules w
  /\ clock (maybePull w) = clock w.
Proof.
  unfold maybePull. destruct (String.eqb (currentState w) "idle").
  - destruct (spawn_frame PullCycle (pullUpdates (submodules w))
                (setState "pulling" (say INFO "Checking for remote changes..." w)))
      as (H1 & H2 & H3 & H4 & H5).
    destruct (setState_frame "pulling" (say INFO "Checking for remote changes..." w))
      as (_ & G1 & G2 & G3 & G4 & _ & _ & G7).
    simpl in *. repeat split; congruence.
  - repeat split.
Qed.

(** The submodule list is the one collected at startup, for good: no
    callback of the running daemon changes it. *)
Lemma step_submodules w t e w' :
  step w t e = Some w' -> submodules w' = submodules w.
Proof.
  unfold step. destruct (t <? clock w)%Z; [discriminate |].
  destruct e as [event filePath | | h date | i reply fs | | seconds]; simpl.
  - intro E; inversion E; subst.
    destruct (onChange_spec event filePath (set_clock t w))
      as (_ & _ & _ & _ & _ & H & _). exact H.
  - destruct (pullTimer w) as [due |]; [| discriminate].
    destruct (due <=? t)%Z; [| discriminate].
    intro E; inversion E; subst.
    destruct (maybePull_frame
                (set_pullTimer (Some (t + PULL_INTERVAL_MS)%Z) (set_clock t w)))
      as (_ & _ & _ & H & _). exact H.
  - destruct (dueTime h (set_clock t w)) as [due |]; [| discriminate].
    destruct (due <=? t)%Z; [| discriminate].
    intro E; inversion E; subst.
    destruct (spawn_frame CommitCycle (batchedCommit date)
                (expire h (set_clock t w))) as (_ & _ & _ & H & _). exact H.
  - intro E. destruct (gitSettles_frame _ _ _ _ _ E) as (_ & _ & _ & H & _).
    exact H.
  - destruct (pullsSettled w) as [| s rest]; [discriminate |].
    intro E; inversion E; subst.
    destruct s; unfold maybePull_then, maybePull_catch;
      match goal with
      | |- submodules (setState ?s ?x) = _ =>
          destruct (setState_frame s x) as (_ & _ & _ & _ & H & _); exact H
      end.
  - intro E; inversion E; subst. unfold statusLogger.
    destruct (String.eqb _ _); reflexivity.
Qed.

(** The submodule list a pull cycle walks through is the one collected at
    startup: after any sequence of callbacks it is unchanged. *)
Theorem submodules_are_fixed_at_startup :
  forall t0 subs trace w,
    run (main t0 subs) trace = Some w -> submodules w = subs.
Proof.
  intros t0 subs trace.
  assert (H : forall w0 w, run w0 trace = Some w -> submodules w = submodules w0).
  { induction trace as [| [t e] rest IH]; simpl; intros w0 w E.
    - inversion E; reflexivity.
    - destruct (exited w0); [discriminate |].
      destruct (step w0 t e) as [w1 |] eqn:Es; [| discriminate].
      rewrite (IH _ _ E). exact (step_submodules _ _ _ _ Es). }
  intros w E. rewrite (H _ _ E). reflexivity.
Qed.

Lemma submodules_are_fixed_at_startup_witness :
  exists w,
    run (main 0 [ {| name := "vault"; path := "/srv/notes/vault" |} ]) slowPull
    = Some w
    /\ submodules w = [ {| name := "vault"; path := "/srv/notes/vault" |} ].
Proof.
  eexists. split; [vm_compute; reflexivity |].
  apply (submodules_are_fixed_at_startup 0 _ slowPull). vm_compute; reflexivity.
Defined.

Lemma timer_through_a_callback :
  forall w t e w' h due,
    step w t e = Some w' ->
    In (h, due) (timers w) ->
    In (h, due) (timers w')
    \/ (exists date, e = BatchTimerExpires h date)
    \/ (exists event filePath,
          e = FileChanged event filePath
          /\ batchTimer w = Some h
          /\ In (nextHandle w, (t + BATCH_INTERVAL_MS)%Z) (timers w')).
Proof.
  intros w t e w' h due. unfold step.
  destruct (t <? clock w)%Z; [discriminate |].
  destruct e as [event filePath | | h' date | i reply fs | | seconds]; simpl.
  - intros E Hin; inversion E; subst; clear E.
    destruct (onChange_spec event filePath (set_clock t w))
      as (_ & _ & H3 & _).
    rewrite H3. unfold unheld; simpl.
    destruct (batchTimer w) as [h0 |] eqn:Eb.
    + destruct (Nat.eqb_spec h h0) as [-> | Hne].
      * right; right. exists event, filePath. repeat split.
        apply in_or_app; right; left; reflexivity.
      * left. apply in_or_app; left. apply filter_In. split; [exact Hin |].
        simpl. apply negb_true_iff. now apply Nat.eqb_neq.
    + left. apply in_or_app; left; exact Hin.
  - destruct (pullTimer w) as [d |]; [| discriminate].
    destruct (d <=? t)%Z; [| discriminate].
    intros E Hin; inversion E; subst; clear E. left.
    destruct (maybePull_frame
                (set_pullTimer (Some (t + PULL_INTERVAL_MS)%Z) (set_clock t w)))
      as (H & _). rewrite H. exact Hin.
  - destruct (dueTime h' (set_clock t w)) as [d |]; [| discriminate].
    destruct (d <=? t)%Z; [| discriminate].
    intros E Hin; inversion E; subst; clear E.
    destruct (spawn_frame CommitCycle (batchedCommit date)
                (expire h' (set_clock t w))) as (H & _).
    rewrite H. simpl.
    destruct (Nat.eqb_spec h h') as [-> | Hne].
    + right; left. exists date; reflexivity.
    + left. apply filter_In. split; [exact Hin |].
      simpl. apply negb_true_iff. now apply Nat.eqb_neq.
  - intros E Hin. destruct (gitSettles_frame _ _ _ _ _ E) as (H & _).
    left. rewrite H. exact Hin.
  - destruct (pullsSettled w) as [| s rest]; [discriminate |].
    intros E Hin; inversion E; subst; clear E. left.
    destruct s; unfold maybePull_then, maybePull_catch;
      match goal with
      | |- In _ (timers (setState ?s ?x)) =>
          destruct (setState_frame s x) as (_ & H & _); rewrite H; exact Hin
      end.
  - intros E Hin; inversion E; subst. left. unfold statusLogger.
    destruct (String.eqb _ _); exact Hin.
Qed.

Lemma exec_exited c w : exited (exec c w) = exited w.
Proof.
  destruct c as [l msg | newState | |]; simpl; auto using setState_exited.
  unfold processDone. destruct (batchTimer w); apply setState_exited.
Qed.

Lemma advance_exited fs (p : Prog unit) : forall w w' stop,
  advance fs p w = (w', stop) -> exited w' = exited w.
Proof.
  induction p as [a | e | c k IH | rel k IH | r c k IH]; simpl; intros w w' stop E.
  - inversion E; reflexivity.
  - inversion E; reflexivity.
  - rewrite (IH _ _ _ E). apply exec_exited.
  - exact (IH _ _ _ _ E).
  - inversion E; reflexivity.
Qed.

(** A pull cycle never ends the process: its promise has reactions. *)
Lemma maybePull_exited w : exited (maybePull w) = exited w.
Proof.
  unfold maybePull. destruct (String.eqb (currentState w) "idle"); [| reflexivity].
  unfold spawn.
  destruct (advance _ _ _) as [w' stop] eqn:E.
  pose proof (advance_exited _ _ _ _ _ E) as Hx.
  rewrite setState_exited in Hx. simpl in Hx.
  destruct stop; exact Hx.
Qed.

Lemma batchedCommit_starts_alive date w :
  exited (spawn CommitCycle (batchedCommit date) w) = exited w.
Proof.
  unfold spawn, batchedCommit. simpl.
  exact (setState_exited "committing" (say INFO "Performing batched commit..." w)).
Qed.

(** A reply of git ends the process exactly when it rejects the promise of
    a commit cycle. *)
Lemma gitSettles_exited i reply fs w w' :
  gitSettles i reply fs w = Some w' ->
  exists task w1 stop,
    nth_error (inFlight w) i = Some task
    /\ advance fs (resume task reply) w = (w1, stop)
    /\ ((exists message,
           cycle task = CommitCycle /\ stop = Finished (Rejected message)
           /\ exited w' = true)
        \/ ((forall message,
               ~ (cycle task = CommitCycle /\ stop = Finished (Rejected message)))
            /\ exited w' = exited w)).
Proof.
  unfold gitSettles.
  destruct (nth_error (inFlight w) i) as [task |]; [| discriminate].
  destruct (advance fs (resume task reply) w) as [w1 stop] eqn:E.
  pose proof (advance_exited _ _ _ _ _ E) as Hx.
  intro E'. exists task, w1, stop. split; [reflexivity |]. split; [exact E |].
  destruct stop as [s | r c k]; inversion E'; subst; clear E'.
  - destruct (cycle task); [destruct s as [| message] |]; simpl.
    + right. split; [intros m [_ H]; discriminate | exact Hx].
    + left. exists message. auto.
    + right. split; [intros m [H _]; discriminate | exact Hx].
  - right. split; [intros m [_ H]; discriminate | exact Hx].
Qed.

(** While the process lives, a timer that is armed stays armed through
    every callback, with two exceptions: its own expiry, which calls
    [batchedCommit], and a change event when it is the timer [batchTimer]
    holds, which arms a new timer due one batch interval after the change.
    Otherwise a scheduled commit is lost in one way only: a reply of git
    that rejects the promise of a commit cycle ends the process, since
    nothing handles the rejection, and no callback runs after that. *)
Theorem armed_timer_fires_or_is_replaced :
  forall w t e w' h due,
    exited w = false ->
    step w t e = Some w' ->
    In (h, due) (timers w) ->
    (exited w' = false
     /\ (In (h, due) (timers w')
         \/ (exists date, e = BatchTimerExpires h date)
         \/ (exists event filePath,
               e = FileChanged event filePath
               /\ batchTimer w = Some h
               /\ In (nextHandle w, (t + BATCH_INTERVAL_MS)%Z) (timers w'))))
    \/ (exited w' = true
        /\ (exists i reply fs task message w1,
              e = GitSettles i reply fs
              /\ nth_error (inFlight w) i = Some task
              /\ cycle task = CommitCycle
              /\ advance fs (resume task reply) (set_clock t w)
                 = (w1, Finished (Rejected message)))
        /\ (forall t' e' rest, run w' ((t', e') :: rest) = None)).
Proof.
  intros w t e w' h due Hx E Hin.
  pose proof (timer_through_a_callback w t e w' h due E Hin) as Hkeep.
  assert (Hlive : exited w' = false -> 
                  exited w' = false
                  /\ (In (h, due) (timers w')
                      \/ (exists date, e = BatchTimerExpires h date)
                      \/ (exists event filePath,
                            e = FileChanged event filePath
                            /\ batchTimer w = Some h
                            /\ In (nextHandle w, (t + BATCH_INTERVAL_MS)%Z)
                                 (timers w')))) by (intro; split; assumption).
  revert E. unfold step. destruct (t <? clock w)%Z; [discriminate |].
  destruct e as [event filePath | | h' date | i reply fs | | seconds]; simpl.
  - intro E; inversion E; subst. left. apply Hlive.
    rewrite onChange_exited. exact Hx.
  - destruct (pullTimer w) as [d |]; [| discriminate].
    destruct (d <=? t)%Z; [| discriminate].
    intro E; inversion E; subst. left. apply Hlive.
    rewrite maybePull_exited. exact Hx.
  - destruct (dueTime h' (set_clock t w)) as [d |]; [| discriminate].
    destruct (d <=? t)%Z; [| discriminate].
    intro E; inversion E; subst. left. apply Hlive.
    rewrite batchedCommit_starts_alive. exact Hx.
  - intro E.
    destruct (gitSettles_exited _ _ _ _ _ E)
      as (task & w1 & stop & En & Ea & [(message & Hc & Hs & Hd) | (_ & Hd)]).
    + right. split; [exact Hd |]. split.
      * exists i, reply, fs, task, message, w1. subst stop. auto.
      * intros t' e' rest. simpl. now rewrite Hd.
    + left. apply Hlive. rewrite Hd. exact Hx.
  - destruct (pullsSettled w) as [| s rest]; [discriminate |].
    intro E; inversion E; subst. left. apply Hlive.
    destruct s; unfold maybePull_then, maybePull_catch;
      rewrite setState_exited; exact Hx.
  - intro E; inversion E; subst. left. apply Hlive.
    unfold statusLogger. destruct (String.eqb _ _); exact Hx.
Qed.

Lemma armed_timer_fires_or_is_replaced_witness :
  exists w w',
    run (main 0 []) changeDuringStatus = Some w
    /\ step w 62000 (GitSettles 0 (Failed "fatal: not a git repository") allPresent)
       = Some w'
    /\ In (1%nat, 121500%Z) (timers w)
    /\ exited w' = true
    /\ forall t' e' rest, run w' ((t', e') :: rest) = None.
Proof.
  eexists. eexists.
  split; [vm_compute; reflexivity |].
  split; [vm_compute; reflexivity |].
  match goal with
  | |- In _ (timers ?w) /\ exited ?w' = true /\ _ =>
      split; [left; reflexivity |];
      destruct (armed_timer_fires_or_is_replaced w 62000
                  (GitSettles 0 (Failed "fatal: not a git repository") allPresent)
                  w' 1%nat 121500%Z)
        as [[Hx _] | [Hx [_ Hrun]]];
      [ reflexivity | vm_compute; reflexivity | left; reflexivity
      | discriminate Hx | exact (conj Hx Hrun) ]
  end.
Defined.

(** ** When the state reads "pulling" *)

Lemma EndsDone_Do {A} c (k : Prog A) : EndsDone k -> EndsDone (Do c k).
Proof. destruct k; simpl; auto. contradiction. Qed.

Lemma EndsDone_bind {A B} (m : Prog A) (f : A -> Prog B) :
  (forall a, EndsDone (f a)) -> EndsDone (bind m f).
Proof.
  intro Hf. induction m as [a | e | c k IH | rel k IH | r c k IH]; simpl; auto.
  apply EndsDone_Do, IH.
Qed.

Lemma pullUpdates_EndsDone subs : EndsDone (pullUpdates subs).
Proof.
  unfold pullUpdates. repeat (apply EndsDone_bind; intro). reflexivity.
Qed.

Lemma advance_EndsDone fs (p : Prog unit) : forall w w' stop,
  EndsDone p ->
  advance fs p w = (w', stop) ->
  match stop with
  | Finished Fulfilled => currentState w' = "idle" \/ currentState w' = "pending"
  | Finished (Rejected _) => True
  | Waiting _ _ k => forall reply, EndsDone (k reply)
  end.
Proof.
  induction p as [a | e | c k IH | rel k IH | r c k IH]; simpl; intros w w' stop H E.
  - contradiction.
  - inversion E; subst; exact I.
  - destruct k as [a | e | c' k' | rel k' | r c' k'].
    + subst c. simpl in E. inversion E; subst.
      destruct (processDone_currentState w); auto.
    + simpl in E. inversion E; subst; exact I.
    + apply (IH _ _ _ H E).
    + apply (IH _ _ _ H E).
    + apply (IH _ _ _ H E).
  - apply (IH _ _ _ _ (H _) E).
  - inversion E; subst. exact H.
Qed.

(** Past its first [await] a cycle leaves the state as it is or sets
    "idle" or "pending". *)
Lemma advance_state fs (p : Prog unit) : forall w w' stop,
  AllCmds noSetState p ->
  advance fs p w = (w', stop) ->
  currentState w' = currentState w
  \/ currentState w' = "idle" \/ currentState w' = "pending".
Proof.
  induction p as [a | e | c k IH | rel k IH | r c k IH]; simpl; intros w w' stop H E.
  - inversion E; auto.
  - inversion E; auto.
  - destruct H as [Hc Hk]. destruct (IH _ _ _ Hk E) as [G | G]; [| auto].
    rewrite G. destruct c; simpl in *; auto; try contradiction.
    destruct (processDone_currentState w); auto.
  - apply (IH _ _ _ _ (H _) E).
  - inversion E; subst; auto.
Qed.

Lemma In_replace_nth {A} (l : list A) : forall i x y rest,
  nth_error l i = Some y ->
  In x l -> x <> y ->
  (forall z, In z (skipn (S i) l) -> In z rest) ->
  In x (firstn i l ++ rest).
Proof.
  induction l as [| a l IH]; intros i x y rest En Hin Hne Hrest.
  - destruct Hin.
  - destruct i as [| i]; simpl in En.
    + inversion En; subst. destruct Hin as [E | Hin]; [congruence |].
      simpl. apply Hrest. exact Hin.
    + destruct Hin as [E | Hin]; [left; exact E |].
      right. apply (IH i x y rest En Hin Hne). exact Hrest.
Qed.

Lemma spawn_pull_kept w :
  pullsEndDone w ->
  pullsEndDone (spawn PullCycle (pullUpdates (submodules w)) w)
  /\ pullingIsTrue (spawn PullCycle (pullUpdates (submodules w)) w).
Proof.
  intro HK. unfold spawn.
  destruct (advance (fun _ => true) (pullUpdates (submodules w)) w)
    as [w' stop] eqn:E.
  destruct (advance_frame _ _ _ _ _ E) as (_ & _ & _ & _ & Hi & _).
  pose proof (advance_EndsDone _ _ _ _ _ (pullUpdates_EndsDone _) E) as HE.
  pose proof (advance_noSetState _ _ (pullUpdates_noSetState _) _ _ _ E)
    as (_ & _ & _ & _ & _ & HN).
  destruct stop as [[| e] | r c k]; simpl.
  - split.
    + unfold pullsEndDone; simpl. rewrite Hi. exact HK.
    + intro H. simpl in H. destruct HE as [G | G]; rewrite G in H; discriminate.
  - specialize (HN (pullUpdates_NoThrow _)). discriminate.
  - split.
    + unfold pullsEndDone; simpl. rewrite Hi. apply Forall_app. split; [exact HK |].
      constructor; [| constructor]. intros _. exact HE.
    + intros _. eexists. split; [apply in_or_app; right; left; reflexivity |].
      reflexivity.
Qed.

Lemma pulling_kept w t e w' :
  Inv w -> pullsEndDone w -> pullingIsTrue w ->
  step w t e = Some w' ->
  pullsEndDone w' /\ pullingIsTrue w'.
Proof.
  intros HI HK HP. unfold step.
  destruct (t <? clock w)%Z; [discriminate |].
  destruct e as [event filePath | | h date | i reply fs | | seconds]; simpl.
  - intro E; inversion E; subst; clear E.
    destruct (onChange_spec event filePath (set_clock t w))
      as (H1 & _ & _ & _ & _ & _ & H7 & _).
    split.
    + unfold pullsEndDone. rewrite H7. exact HK.
    + intro H. rewrite H1 in H. discriminate.
  - destruct (pullTimer w) as [d |]; [| discriminate].
    destruct (d <=? t)%Z; [| discriminate].
    intro E; inversion E; subst; clear E.
    unfold maybePull. simpl currentState.
    destruct (String.eqb (currentState w) "idle").
    + set (w1 := setState "pulling" _).
      assert (HK1 : pullsEndDone w1).
      { unfold pullsEndDone, w1.
        destruct (setState_frame "pulling"
                    (say INFO "Checking for remote changes..."
                       (set_pullTimer (Some (t + PULL_INTERVAL_MS)%Z)
                          (set_clock t w))))
          as (_ & _ & _ & _ & _ & Hi & _).
        rewrite Hi. exact HK. }
      assert (Es : submodules w1 = submodules w).
      { unfold w1.
        destruct (setState_frame "pulling"
                    (say INFO "Checking for remote changes..."
                       (set_pullTimer (Some (t + PULL_INTERVAL_MS)%Z)
                          (set_clock t w))))
          as (_ & _ & _ & _ & Hs & _).
        exact Hs. }
      change (submodules
                (set_pullTimer (Some (t + PULL_INTERVAL_MS)%Z) (set_clock t w)))
        with (submodules w).
      rewrite <- Es. apply spawn_pull_kept. exact HK1.
    + split; [exact HK | exact HP].
  - destruct (dueTime h (set_clock t w)) as [d |]; [| discriminate].
    destruct (d <=? t)%Z; [| discriminate].
    intro E; inversion E; subst; clear E.
    destruct (spawn_batchedCommit date (expire h (set_clock t w)))
      as (G1 & _).
    split.
    + unfold pullsEndDone, spawn, batchedCommit; simpl.
      destruct (setState_frame "committing"
                  (say INFO "Performing batched commit..."
                     (expire h (set_clock t w))))
        as (_ & _ & _ & _ & _ & Hi & _).
      rewrite Hi. simpl. apply Forall_app. split; [exact HK |].
      constructor; [| constructor]. simpl. discriminate.
    + intro H. rewrite G1 in H. discriminate.
  - unfold gitSettles.
    change (inFlight (set_clock t w)) with (inFlight w).
    destruct (nth_error (inFlight w) i) as [task |] eqn:En; [| discriminate].
    destruct HI as (_ & _ & HT & _).
    assert (Ht : tame task).
    { apply nth_error_In in En. rewrite Forall_forall in HT. auto. }
    assert (Hk : cycle task = PullCycle -> forall r, EndsDone (resume task r)).
    { apply nth_error_In in En. unfold pullsEndDone in HK.
      rewrite Forall_forall in HK. auto. }
    destruct (Ht reply) as [Hq _].
    destruct (advance fs (resume task reply) (set_clock t w)) as [w1 stop] eqn:E.
    destruct (advance_frame _ _ _ _ _ E) as (_ & _ & _ & _ & Hi & _).
    pose proof (advance_state _ _ _ _ _ Hq E) as Hs. simpl in Hs, Hi.
    assert (Hrest : forall l, Forall
              (fun task0 => cycle task0 = PullCycle ->
                 forall r, EndsDone (resume task0 r)) l ->
              Forall
                (fun task0 => cycle task0 = PullCycle ->
                   forall r, EndsDone (resume task0 r))
                (firstn i (inFlight w) ++ l)).
    { intros l Hl. apply Forall_app. split; [| exact Hl].
      unfold pullsEndDone in HK.
      rewrite <- (firstn_skipn i (inFlight w)) in HK.
      apply Forall_app in HK. tauto. }
    assert (Hskip : Forall
              (fun task0 => cycle task0 = PullCycle ->
                 forall r, EndsDone (resume task0 r))
              (skipn (S i) (inFlight w))).
    { unfold pullsEndDone in HK.
      rewrite <- (firstn_skipn (S i) (inFlight w)) in HK.
      apply Forall_app in HK. tauto. }
    assert (Hstay : currentState w1 = "pulling" ->
                    cycle task = CommitCycle ->
                    forall rest,
                      (forall z, In z (skipn (S i) (inFlight w)) -> In z rest) ->
                      exists task0,
                        In task0 (firstn i (inFlight w) ++ rest)
                        /\ cycle task0 = PullCycle).
    { intros Hp Hc rest Hsub.
      destruct Hs as [G | [G | G]]; try (rewrite G in Hp; discriminate).
      rewrite G in Hp. destruct (HP Hp) as (task0 & Hin & Hc0).
      exists task0. split; [| exact Hc0].
      apply (In_replace_nth _ i task0 task rest En Hin); [congruence | exact Hsub]. }
    destruct stop as [s | r c k]; intro E'; inversion E'; subst; clear E'.
    + destruct (cycle task) eqn:Ec.
      * assert (G : pullsEndDone
                      (set_inFlight
                         (firstn i (inFlight w1) ++ skipn (S i) (inFlight w1))%list w1)
                    /\ pullingIsTrue
                         (set_inFlight
                            (firstn i (inFlight w1) ++ skipn (S i) (inFlight w1))%list
                            w1)).
        { split.
          -- unfold pullsEndDone; simpl. rewrite Hi. apply Hrest, Hskip.
          -- intro Hp. simpl in Hp |- *. rewrite Hi.
             apply (Hstay Hp eq_refl). auto. }
        destruct s; exact G.
      * pose proof (advance_EndsDone _ _ _ _ _ (Hk eq_refl reply) E) as HE.
        split.
        -- unfold pullsEndDone; simpl. rewrite Hi. apply Hrest, Hskip.
        -- intro Hp. simpl in Hp.
           destruct s as [| e].
           ++ destruct HE as [G | G]; rewrite G in Hp; discriminate.
           ++ destruct (Ht reply) as [_ Hn].
              pose proof (advance_noSetState _ _ Hq _ _ _ E)
                as (_ & _ & _ & _ & _ & HN).
              specialize (HN (Hn Ec)). discriminate.
    + split.
      * unfold pullsEndDone; simpl. rewrite Hi. apply Hrest.
        constructor; [| exact Hskip]. simpl. intros Ec.
        apply (advance_EndsDone _ _ _ _ _ (Hk Ec reply) E).
      * intro Hp. simpl in Hp |- *. rewrite Hi.
        destruct (cycle task) eqn:Ec.
        -- apply (Hstay Hp eq_refl). intros z Hz. right; exact Hz.
        -- eexists. split; [apply in_or_app; right; left; reflexivity |].
           reflexivity.
  - destruct (pullsSettled w) as [| s rest]; [discriminate |].
    intro E; inversion E; subst; clear E.
    destruct s; unfold maybePull_then, maybePull_catch;
      match goal with
      | |- pullsEndDone (setState ?s ?x) /\ _ =>
          destruct (setState_frame s x) as (_ & _ & _ & _ & _ & Hi & _);
          pose proof (setState_currentState s x) as Hs
      end;
      (split; [unfold pullsEndDone; rewrite Hi; exact HK
              | intro H; rewrite Hs in H; discriminate]).
  - intro E; inversion E; subst. unfold statusLogger.
    destruct (String.eqb _ _); split; assumption.
Qed.

Lemma reachable_pulling w : reachable w -> pullsEndDone w /\ pullingIsTrue w.
Proof.
  induction 1 as [t0 subs | w t e w' Hr IH _ E].
  - split; [constructor | intro H; discriminate].
  - destruct IH as [HK HP].
    exact (pulling_kept w t e w' (reachable_Inv w Hr) HK HP E).
Qed.

(** Whenever the state of the running daemon reads "pulling", an invocation
    of [pullUpdates] is suspended at a git call: the state never says
    "pulling" without a pull under way. *)
Theorem pulling_means_a_pull_is_running :
  forall w,
    reachable w -> currentState w = "pulling" ->
    exists task, In task (inFlight w) /\ cycle task = PullCycle.
Proof.
  intros w Hr. exact (proj2 (reachable_pulling w Hr)).
Qed.

Lemma pulling_means_a_pull_is_running_witness :
  exists w,
    run (main 0 []) [(60000%Z, PullTick)] = Some w
    /\ currentState w = "pulling"
    /\ exists task, In task (inFlight w) /\ cycle task = PullCycle.
Proof.
  eexists. split; [vm_compute; reflexivity |]. split; [reflexivity |].
  apply pulling_means_a_pull_is_running.
  - apply (run_reachable [(60000%Z, PullTick)] (main 0 [])).
    + apply reachable_main.
    + vm_compute; reflexivity.
  - reflexivity.
Defined.

(** ** Reading the submodule status *)

#[local] Arguments String.append : simpl nomatch.

Lemma append_nil_r s : s ++ "" = s.
Proof. induction s as [| c s IH]; simpl; [reflexivity | now rewrite IH]. Qed.

Lemma append_assoc s1 s2 s3 : (s1 ++ s2) ++ s3 = s1 ++ (s2 ++ s3).
Proof. induction s1 as [| c s1 IH]; simpl; [reflexivity | now rewrite IH]. Qed.

Lemma append_not_empty s t : t <> "" -> s ++ t <> "".
Proof. destruct s; simpl; [auto | discriminate]. Qed.

(** [trimEnd] leaves what stands before a last piece that it does not
    swallow. *)
Lemma trimEnd_app x s : trimEnd s <> "" -> trimEnd (x ++ s) = x ++ trimEnd s.
Proof.
  intro H. induction x as [| c x IH]; simpl; [reflexivity |].
  rewrite IH. destruct (x ++ trimEnd s) eqn:E; [| reflexivity].
  exfalso. apply (append_not_empty x (trimEnd s) H). exact E.
Qed.

Lemma trimEnd_word tok s :
  noSpace tok = true -> tok <> "" -> trimEnd (tok ++ s) = tok ++ trimEnd s.
Proof.
  induction tok as [| c tok IH]; intros Hn He; [congruence |].
  simpl in Hn. apply andb_true_iff in Hn. destruct Hn as [Hc Hn].
  apply negb_true_iff in Hc.
  destruct tok as [| c' tok'].
  - simpl. rewrite Hc. destruct (trimEnd s); reflexivity.
  - assert (Ne : String c' tok' <> "") by discriminate.
    remember (String c' tok') as t eqn:Et. simpl.
    rewrite (IH Hn Ne). rewrite Et. reflexivity.
Qed.

Lemma trimEnd_trailer rest : trailer rest = true -> trailer (trimEnd rest) = true.
Proof.
  destruct rest as [| c rest]; simpl; [reflexivity |].
  intro H. destruct (trimEnd rest); [rewrite H; reflexivity | exact H].
Qed.

(** A word, then white space or the end: the word is the first piece. *)
Lemma splitSpaces_word tok s b :
  noSpace tok = true -> tok <> "" -> trailer s = true ->
  splitSpacesFrom b (tok ++ s)
  = tok :: match s with
           | "" => []
           | String _ s' => splitSpacesFrom true s'
           end.
Proof.
  revert b. induction tok as [| c tok IH]; intros b Hn He Ht; [congruence |].
  simpl in Hn. apply andb_true_iff in Hn. destruct Hn as [Hc Hn].
  apply negb_true_iff in Hc.
  destruct tok as [| c' tok'].
  - simpl. rewrite Hc.
    destruct s as [| d s']; simpl; [reflexivity |].
    simpl in Ht. rewrite Ht. reflexivity.
  - assert (Ne : String c' tok' <> "") by discriminate.
    remember (String c' tok') as t eqn:Et. simpl. rewrite Hc.
    rewrite (IH false Hn Ne Ht). reflexivity.
Qed.

Lemma splitSpaces_gap gap s :
  allSpace gap = true -> splitSpacesFrom true (gap ++ s) = splitSpacesFrom true s.
Proof.
  induction gap as [| c gap IH]; simpl; intro H; [reflexivity |].
  apply andb_true_iff in H. destruct H as [Hc Hg]. rewrite Hc. auto.
Qed.

Lemma trimStart_word tok s :
  noSpace tok = true -> tok <> "" -> trimStart (tok ++ s) = tok ++ s.
Proof.
  destruct tok as [| c tok]; intros Hn He; [congruence |].
  simpl in Hn. apply andb_true_iff in Hn. destruct Hn as [Hc _].
  apply negb_true_iff in Hc. simpl. now rewrite Hc.
Qed.

(** The second field of a line that starts with a word. *)
Lemma second_field sha gap path rest :
  noSpace sha = true -> sha <> "" ->
  allSpace gap = true -> gap <> "" ->
  noSpace path = true -> path <> "" ->
  trailer rest = true ->
  nth 1 (splitSpaces (trim (sha ++ gap ++ path ++ rest))) "" = path.
Proof.
  intros Hs Hs' Hg Hg' Hp Hp' Hr.
  unfold trim. rewrite (trimStart_word sha _ Hs Hs').
  assert (E : trimEnd (sha ++ gap ++ path ++ rest)
              = sha ++ gap ++ path ++ trimEnd rest).
  { assert (Ep : trimEnd (path ++ rest) = path ++ trimEnd rest)
      by (apply trimEnd_word; assumption).
    assert (Np : trimEnd (path ++ rest) <> "").
    { rewrite Ep. destruct path; [congruence | discriminate]. }
    rewrite <- Ep.
    rewrite <- (trimEnd_app gap _ Np).
    apply trimEnd_app. rewrite (trimEnd_app gap _ Np).
    apply append_not_empty. exact Np. }
  rewrite E. unfold splitSpaces.
  destruct gap as [| g gap]; [congruence |].
  simpl in Hg. apply andb_true_iff in Hg. destruct Hg as [Hg1 Hg2].
  rewrite (splitSpaces_word sha _ false Hs Hs') by (simpl; exact Hg1).
  change (String g gap ++ path ++ trimEnd rest)
    with (String g (gap ++ path ++ trimEnd rest)).
  cbv iota. rewrite (splitSpaces_gap gap _ Hg2).
  rewrite (splitSpaces_word path _ true Hp Hp')
    by (apply trimEnd_trailer; exact Hr).
  reflexivity.
Qed.

Lemma folderNameOf_fields mark sha gap path rest :
  mark = "" \/ mark = " " \/ mark = "-" \/ mark = "+" ->
  noSpace sha = true -> sha <> "" -> stripMark sha = sha ->
  allSpace gap = true -> gap <> "" ->
  noSpace path = true -> path <> "" ->
  trailer rest = true ->
  folderNameOf (mark ++ sha ++ gap ++ path ++ rest) = path.
Proof.
  intros Hm Hs Hs' Hk Hg Hg' Hp Hp' Hr.
  unfold folderNameOf.
  assert (E : stripMark (mark ++ sha ++ gap ++ path ++ rest)
              = sha ++ gap ++ path ++ rest).
  { destruct Hm as [-> | [-> | [-> | ->]]]; try reflexivity.
    simpl. destruct sha as [| c sha]; [congruence |].
    simpl in *. destruct (_ || _)%bool; [| reflexivity].
    exfalso. assert (L : String.length sha = String.length (String c sha))
      by (f_equal; exact Hk).
    simpl in L. lia. }
  rewrite E. apply second_field; assumption.
Qed.

(** The folder name taken from a status line
    [<mark><sha><blanks><path><rest>] is [<path>]: the mark is a space, a
    minus, a plus or absent; the hash and the path contain no white space
    (and the hash does not itself start with a mark); the rest is empty or
    starts with white space.  In particular a path that contains a space is
    cut at that space. *)
Theorem folder_name_is_the_second_field :
  forall mark sha gap path rest,
    mark = "" \/ mark = " " \/ mark = "-" \/ mark = "+" ->
    noSpace sha = true -> sha <> "" -> stripMark sha = sha ->
    allSpace gap = true -> gap <> "" ->
    noSpace path = true -> path <> "" ->
    trailer rest = true ->
    folderNameOf (mark ++ sha ++ gap ++ path ++ rest) = path.
Proof. exact folderNameOf_fields. Qed.

Lemma folder_name_is_the_second_field_witness :
  folderNameOf "+3f2a91c my folder (heads/main)" = "my".
Proof.
  apply (folder_name_is_the_second_field "+" "3f2a91c" " " "my" " folder (heads/main)");
    first [reflexivity | discriminate | (right; right; right; reflexivity)].
Defined.

Lemma nonEmpty_true s : nonEmpty s = true <-> s <> "".
Proof.
  unfold nonEmpty. rewrite negb_true_iff. split.
  - intros H ->. discriminate.
  - intro H. destruct s; [congruence | reflexivity].
Qed.

Lemma trimEnd_keeps x z : trimEnd x <> "" -> trimEnd (x ++ z) <> "".
Proof.
  induction x as [| c x IH]; simpl; [congruence |].
  intro H. destruct (trimEnd x) eqn:E.
  - destruct (isWhiteSpace c); [congruence |].
    destruct (trimEnd (x ++ z)); discriminate.
  - assert (N : trimEnd (x ++ z) <> "") by (apply IH; discriminate).
    destruct (trimEnd (x ++ z)); [congruence | discriminate].
Qed.

Lemma trimEnd_not_empty x : trimEnd x <> "" -> x <> "".
Proof. intros H ->. apply H. reflexivity. Qed.

Lemma trimEnd_line_feed x : trimEnd (x ++ String "010" "") = trimEnd x.
Proof. induction x as [| c x IH]; simpl; [reflexivity | now rewrite IH]. Qed.

Lemma trimStart_app x z :
  trimStart x <> "" -> trimStart (x ++ z) = trimStart x ++ z.
Proof.
  induction x as [| c x IH]; simpl; [congruence |].
  destruct (isWhiteSpace c); auto.
Qed.

Lemma splitOn_line x y :
  noNewline x = true -> splitOn "010" (x ++ String "010" y) = x :: splitOn "010" y.
Proof.
  induction x as [| c x IH]; simpl; intro H; [reflexivity |].
  apply andb_true_iff in H. destruct H as [Hc Hx].
  apply negb_true_iff in Hc. rewrite Hc, (IH Hx). reflexivity.
Qed.

Lemma splitOn_last x : noNewline x = true -> splitOn "010" x = [x].
Proof.
  induction x as [| c x IH]; simpl; intro H; [reflexivity |].
  apply andb_true_iff in H. destruct H as [Hc Hx].
  apply negb_true_iff in Hc. rewrite Hc, (IH Hx). reflexivity.
Qed.

Lemma noNewline_trimEnd x : noNewline x = true -> noNewline (trimEnd x) = true.
Proof.
  induction x as [| c x IH]; simpl; intro H; [reflexivity |].
  apply andb_true_iff in H. destruct H as [Hc Hx]. specialize (IH Hx).
  destruct (trimEnd x) eqn:E.
  - destruct (isWhiteSpace c); simpl; [reflexivity | now rewrite Hc].
  - change (negb (Ascii.eqb c "010") && noNewline (String a s) = true).
    now rewrite Hc, IH.
Qed.

Lemma noNewline_app x y : noNewline (x ++ y) = noNewline x && noNewline y.
Proof.
  induction x as [| c x IH]; simpl; [reflexivity |].
  now rewrite IH, andb_assoc.
Qed.

Lemma noSpace_noNewline x : noSpace x = true -> noNewline x = true.
Proof.
  induction x as [| c x IH]; simpl; intro H; [reflexivity |].
  apply andb_true_iff in H. destruct H as [Hc Hx]. rewrite (IH Hx), andb_true_r.
  destruct (Ascii.eqb_spec c "010") as [-> |]; [discriminate | reflexivity].
Qed.

(** What a reading [f] of the lines makes of the trimmed text, when it
    reads every line the same whether or not its end is trimmed. *)
Lemma lines_read {A : Type} (f : string -> A) (values : list A) (ys : list string) :
  ys <> [] ->
  Forall2 (fun v y => noNewline y = true /\ trimEnd y <> ""
                      /\ f y = v /\ f (trimEnd y) = v)
    values ys ->
  map f (filter nonEmpty (splitOn "010" (trimEnd (printLines ys)))) = values.
Proof.
  intros Hne HF. induction HF as [| p y paths' ys' H HF IH]; [congruence |].
  destruct H as (Hn & Ht & Hy & Hy').
  destruct ys' as [| y' ys''].
  - inversion HF; subst. simpl printLines.
    rewrite trimEnd_line_feed, (splitOn_last _ (noNewline_trimEnd _ Hn)).
    simpl. rewrite (proj2 (nonEmpty_true _) Ht). simpl. now rewrite Hy'.
  - assert (IH' := IH ltac:(discriminate)).
    remember (y' :: ys'') as tl eqn:Etl.
    assert (Nr : trimEnd (printLines tl) <> "").
    { rewrite Etl. simpl printLines. apply trimEnd_keeps.
      rewrite Etl in HF. inversion HF; subst. tauto. }
    simpl printLines.
    assert (E : trimEnd (String "010" (printLines tl))
                = String "010" (trimEnd (printLines tl))).
    { simpl. destruct (trimEnd (printLines tl)); [congruence | reflexivity]. }
    rewrite trimEnd_app by (rewrite E; discriminate).
    rewrite E, (splitOn_line _ _ Hn). simpl.
    rewrite (proj2 (nonEmpty_true _) (trimEnd_not_empty _ Ht)). simpl.
    now rewrite Hy, IH'.
Qed.

Lemma fields_read mark sha gap path rest :
  mark = "" \/ mark = " " \/ mark = "-" \/ mark = "+" ->
  noSpace sha = true -> sha <> "" -> stripMark sha = sha ->
  allSpace gap = true -> gap <> "" -> noNewline gap = true ->
  noSpace path = true -> path <> "" ->
  trailer rest = true -> noNewline rest = true ->
  let y := mark ++ sha ++ gap ++ path ++ rest in
  noNewline y = true /\ trimEnd y <> ""
  /\ folderNameOf y = path /\ folderNameOf (trimEnd y) = path.
Proof.
  intros Hm Hs Hs' Hk Hg Hg' Hgn Hp Hp' Hr Hrn y.
  assert (Ep : trimEnd (path ++ rest) = path ++ trimEnd rest)
    by (apply trimEnd_word; assumption).
  assert (Np : trimEnd (path ++ rest) <> "").
  { rewrite Ep. destruct path; [congruence | discriminate]. }
  assert (E : trimEnd y = mark ++ sha ++ gap ++ path ++ trimEnd rest).
  { unfold y.
    transitivity (trimEnd ((mark ++ sha ++ gap) ++ path ++ rest));
      [now rewrite !append_assoc |].
    rewrite (trimEnd_app _ _ Np), Ep. now rewrite !append_assoc. }
  split; [| split; [| split]].
  - unfold y. rewrite !noNewline_app, Hgn, Hrn.
    rewrite (noSpace_noNewline _ Hs), (noSpace_noNewline _ Hp).
    destruct Hm as [-> | [-> | [-> | ->]]]; reflexivity.
  - rewrite E, <- Ep. do 3 apply append_not_empty. exact Np.
  - apply folderNameOf_fields; assumption.
  - rewrite E. apply folderNameOf_fields; try assumption.
    apply trimEnd_trailer; exact Hr.
Qed.

Lemma wellFormed_fields m sha gap path rest :
  wellFormed {| lineMark := m; lineSha := sha; lineGap := gap;
                linePath := path; lineRest := rest |} = true ->
  (m = " " \/ m = "-" \/ m = "+" \/ m = "U")%char
  /\ (noSpace sha = true /\ sha <> "" /\ stripMark sha = sha)
  /\ (allSpace gap = true /\ gap <> "" /\ noNewline gap = true)
  /\ (noSpace path = true /\ path <> "")
  /\ (trailer rest = true /\ noNewline rest = true).
Proof.
  unfold wellFormed, isMark. simpl.
  rewrite !andb_true_iff, !orb_true_iff, !nonEmpty_true.
  rewrite String.eqb_eq, !Ascii.eqb_eq. tauto.
Qed.

Lemma line_read l :
  wellFormed l = true ->
  forall y, y = printLine l \/ y = trimStart (printLine l) ->
    noNewline y = true /\ trimEnd y <> ""
    /\ folderNameOf y = linePath l /\ folderNameOf (trimEnd y) = linePath l.
Proof.
  destruct l as [m sha gap path rest]. intro H.
  apply wellFormed_fields in H.
  destruct H as (Hm & (Hs & Hs' & Hk) & (Hg & Hg' & Hgn) & (Hp & Hp') & (Hr & Hrn)).
  unfold printLine. simpl lineMark. simpl lineSha. simpl lineGap.
  simpl linePath. simpl lineRest.
  assert (bare := fields_read "" sha gap path rest (or_introl eq_refl)
                    Hs Hs' Hk Hg Hg' Hgn Hp Hp' Hr Hrn).
  intros y Hy. destruct Hm as [-> | [-> | [-> | ->]]].
  - destruct Hy as [-> | ->].
    + apply (fields_read " " sha gap path rest); auto.
    + change (trimStart (String " " (sha ++ gap ++ path ++ rest)))
        with (trimStart (sha ++ gap ++ path ++ rest)).
      rewrite (trimStart_word sha _ Hs Hs'). exact bare.
  - assert (E : trimStart (String "-" (sha ++ gap ++ path ++ rest))
                = String "-" (sha ++ gap ++ path ++ rest)) by reflexivity.
    rewrite E in Hy. assert (Hy' : y = "-" ++ sha ++ gap ++ path ++ rest)
      by (destruct Hy; assumption).
    rewrite Hy'. apply (fields_read "-" sha gap path rest); auto.
  - assert (E : trimStart (String "+" (sha ++ gap ++ path ++ rest))
                = String "+" (sha ++ gap ++ path ++ rest)) by reflexivity.
    rewrite E in Hy. assert (Hy' : y = "+" ++ sha ++ gap ++ path ++ rest)
      by (destruct Hy; assumption).
    rewrite Hy'. apply (fields_read "+" sha gap path rest); auto 6.
  - assert (E : trimStart (String "U" (sha ++ gap ++ path ++ rest))
                = String "U" (sha ++ gap ++ path ++ rest)) by reflexivity.
    rewrite E in Hy.
    assert (Hy' : y = "" ++ String "U" sha ++ gap ++ path ++ rest)
      by (destruct Hy; assumption).
    rewrite Hy'.
    apply (fields_read "" (String "U" sha) gap path rest); auto; discriminate.
Qed.

(** The lines of a well-formed status text, under a reading that does not
    depend on the trimming of the ends of a line nor on the trimming of the
    start of the first one. *)
Lemma statusLines_read {A : Type} (f : string -> A) (g : StatusLine -> A) :
  (forall l y, wellFormed l = true ->
               y = printLine l \/ y = trimStart (printLine l) ->
               f y = g l /\ f (trimEnd y) = g l) ->
  forall ls, forallb wellFormed ls = true ->
             map f (statusLines (printStatus ls)) = map g ls.
Proof.
  intros Hf [| l ls'] H; [reflexivity |].
  simpl in H. apply andb_true_iff in H. destruct H as [Hl Hls].
  unfold statusLines, trim, printStatus.
  destruct (line_read l Hl (trimStart (printLine l)) (or_intror eq_refl))
    as (Hn & Ht & _ & _).
  change (printLines (map printLine (l :: ls')))
    with (printLine l ++ String "010" (printLines (map printLine ls'))).
  rewrite trimStart_app by (apply trimEnd_not_empty; exact Ht).
  change (trimStart (printLine l) ++ String "010" (printLines (map printLine ls')))
    with (printLines (trimStart (printLine l) :: map printLine ls')).
  apply (lines_read f (g l :: map g ls')); [discriminate |].
  constructor.
  { destruct (Hf l _ Hl (or_intror eq_refl)). tauto. }
  clear -Hls Hf. induction ls' as [| l' ls' IH]; simpl; [constructor |].
  simpl in Hls. apply andb_true_iff in Hls. destruct Hls as [Hl' Hls].
  constructor; [| exact (IH Hls)].
  destruct (line_read l' Hl' (printLine l') (or_introl eq_refl)) as (? & ? & _).
  destruct (Hf l' _ Hl' (or_introl eq_refl)). tauto.
Qed.

(** From the text that [git submodule status] prints, one well-formed line
    for each submodule, lines 284 to 289 take exactly the paths of the
    submodules, in the order of the lines: the trimming of the whole text,
    which removes the mark of the first line when it is a space, and the
    removal of the mark of every line do not disturb each other. *)
Theorem folder_names_are_the_paths :
  forall ls,
    forallb wellFormed ls = true ->
    folderNamesOf (printStatus ls) = map linePath ls.
Proof.
  intros ls H. unfold folderNamesOf.
  apply (statusLines_read folderNameOf linePath); [| exact H].
  intros l y Hl Hy. destruct (line_read l Hl y Hy) as (_ & _ & ? & ?). tauto.
Qed.

Lemma folder_names_are_the_paths_witness :
  folderNamesOf
    (" 3f2a91c libs/core (heads/main)" ++ String "010"
       ("-77b0e1d docs" ++ String "010"
          ("+0c4d2aa tools/gen (v1.2-3-g0c4d2aa)" ++ String "010" "")))
  = ["libs/core"; "docs"; "tools/gen"].
Proof.
  apply (folder_names_are_the_paths
           [ {| lineMark := " "; lineSha := "3f2a91c"; lineGap := " ";
                linePath := "libs/core"; lineRest := " (heads/main)" |};
             {| lineMark := "-"; lineSha := "77b0e1d"; lineGap := " ";
                linePath := "docs"; lineRest := "" |};
             {| lineMark := "+"; lineSha := "0c4d2aa"; lineGap := " ";
                linePath := "tools/gen"; lineRest := " (v1.2-3-g0c4d2aa)" |} ]).
  reflexivity.
Defined.

Lemma trimStart_blank raw : allSpace raw = true -> trimStart raw = "".
Proof.
  induction raw as [| c raw IH]; simpl; intro H; [reflexivity |].
  apply andb_true_iff in H. destruct H as [Hc Hr]. rewrite Hc. auto.
Qed.

(** When git prints nothing, or white space only, there are no folder
    names: the one empty piece that the split of the empty text gives is
    filtered out, so the cycle visits no submodule. *)
Theorem blank_status_has_no_folders :
  forall raw, allSpace raw = true -> folderNamesOf raw = [].
Proof.
  intros raw H. unfold folderNamesOf, statusLines, trim.
  rewrite (trimStart_blank raw H). reflexivity.
Qed.

Lemma blank_status_has_no_folders_witness :
  folderNamesOf (String "010" (String "032" (String "010" ""))) = [].
Proof. apply blank_status_has_no_folders. reflexivity. Defined.

(** ** The check of the submodules at startup *)

Lemma charAt0_trimEnd y : trimEnd y <> "" -> charAt0 (trimEnd y) = charAt0 y.
Proof.
  destruct y as [| c y]; simpl; [reflexivity |].
  destruct (trimEnd y); [| reflexivity].
  destruct (isWhiteSpace c); [congruence | reflexivity].
Qed.

Lemma stripMark_fixed c sha :
  stripMark (String c sha) = String c sha ->
  (Ascii.eqb c "-" || Ascii.eqb c "+" || Ascii.eqb c " ")%bool = false.
Proof.
  simpl. destruct (_ || _)%bool; [| reflexivity].
  intro H. exfalso.
  assert (L : String.length sha = String.length (String c sha))
    by (f_equal; exact H).
  simpl in L. lia.
Qed.

Lemma line_marked l y :
  wellFormed l = true ->
  y = printLine l \/ y = trimStart (printLine l) ->
  hasIssue y = marked l /\ hasIssue (trimEnd y) = marked l.
Proof.
  intros Hl Hy.
  destruct (line_read l Hl y Hy) as (_ & Ht & _ & _).
  assert (E : hasIssue (trimEnd y) = hasIssue y)
    by (unfold hasIssue; now rewrite (charAt0_trimEnd y Ht)).
  rewrite E. cut (hasIssue y = marked l); [tauto |]. clear E Ht.
  destruct l as [m sha gap path rest].
  apply wellFormed_fields in Hl.
  destruct Hl as (Hm & (Hs & Hs' & Hk) & _).
  unfold printLine, marked in *. simpl in *.
  destruct Hm as [-> | [-> | [-> | ->]]];
    try (destruct Hy as [-> | ->]; reflexivity).
  destruct Hy as [-> | ->]; [reflexivity |].
  simpl. destruct sha as [| c sha]; [congruence |].
  apply stripMark_fixed in Hk.
  apply orb_false_iff in Hk. destruct Hk as [Hk _].
  apply orb_false_iff in Hk. destruct Hk as [Hminus Hplus].
  simpl in Hs. apply andb_true_iff in Hs. destruct Hs as [Hc _].
  apply negb_true_iff in Hc. simpl. rewrite Hc.
  unfold hasIssue. simpl.
  destruct (Ascii.eqb_spec c "-") as [-> | N1]; [discriminate |].
  destruct (Ascii.eqb_spec c "+") as [-> | N2]; [discriminate |].
  destruct (String.eqb_spec (String c "") "-") as [E1 | _]; [congruence |].
  destruct (String.eqb_spec (String c "") "+") as [E2 | _]; [congruence |].
  reflexivity.
Qed.

Lemma find_none_map {A : Type} (f : A -> bool) (xs : list A) :
  find f xs = None <-> forallb (fun x => negb (f x)) xs = true.
Proof.
  induction xs as [| x xs IH]; simpl; [tauto |].
  destruct (f x); simpl; [split; discriminate | exact IH].
Qed.

(** On a well-formed status text the startup check lets the program go on
    exactly when no line is marked [-] or [+]: the trimming of the text
    hides no mark, and a line marked [U], a submodule with merge conflicts,
    passes as [Submodule OK]. *)
Theorem startup_check_stops_on_marked_lines :
  forall ls,
    forallb wellFormed ls = true ->
    (submoduleIssue (printStatus ls) = None
     <-> forall l, In l ls -> lineMark l = " "%char \/ lineMark l = "U"%char).
Proof.
  intros ls H. unfold submoduleIssue.
  rewrite find_none_map.
  assert (E := statusLines_read hasIssue marked line_marked ls H).
  assert (F : forallb (fun x => negb (hasIssue x)) (statusLines (printStatus ls))
              = forallb negb (map hasIssue (statusLines (printStatus ls)))).
  { generalize (statusLines (printStatus ls)).
    induction l as [| x xs IH]; simpl; [reflexivity | now rewrite IH]. }
  rewrite F, E. clear E F.
  induction ls as [| l ls IH]; simpl; [split; [intros _ ? [] | reflexivity] |].
  simpl in H. apply andb_true_iff in H. destruct H as [Hl Hls].
  rewrite andb_true_iff, (IH Hls). clear IH.
  assert (M : negb (marked l) = true
              <-> lineMark l = " "%char \/ lineMark l = "U"%char).
  { destruct l as [m sha gap path rest].
    apply wellFormed_fields in Hl. destruct Hl as (Hm & _).
    unfold marked. simpl.
    destruct Hm as [-> | [-> | [-> | ->]]]; simpl;
      (split; [intro; try discriminate; tauto
              | intros [? | ?]; try discriminate; reflexivity]). }
  rewrite M. split.
  - intros [Hm Hrest] l' [<- | Hin]; auto.
  - intro Hall. split; [apply Hall; left; reflexivity |].
    intros l' Hin. apply Hall. right. exact Hin.
Qed.

Lemma startup_check_stops_on_marked_lines_witness :
  submoduleIssue
    (" 3f2a91c libs/core (heads/main)" ++ String "010"
       ("U77b0e1d docs" ++ String "010" "")) = None.
Proof.
  apply (startup_check_stops_on_marked_lines
           [ {| lineMark := " "; lineSha := "3f2a91c"; lineGap := " ";
                linePath := "libs/core"; lineRest := " (heads/main)" |};
             {| lineMark := "U"; lineSha := "77b0e1d"; lineGap := " ";
                linePath := "docs"; lineRest := "" |} ]);
    [reflexivity |].
  intros l [<- | [<- | []]]; [left | right]; reflexivity.
Defined.

(** ** The file counts of the report *)

Lemma countOf_cons ext k n counts :
  countOf ext ((k, n) :: counts) = if String.eqb k ext then n else countOf ext counts.
Proof. unfold countOf. simpl. destruct (String.eqb k ext); reflexivity. Qed.

Lemma bump_sum ext counts :
  list_sum (map snd (bump ext counts)) = S (list_sum (map snd counts)).
Proof.
  induction counts as [| [k n] counts IH]; simpl; [reflexivity |].
  destruct (String.eqb k ext); simpl; lia.
Qed.

Lemma countOf_bump ext k counts :
  countOf k (bump ext counts)
  = countOf k counts + (if String.eqb ext k then 1 else 0).
Proof.
  induction counts as [| [k0 n] counts IH].
  - simpl. rewrite countOf_cons. unfold countOf. simpl.
    destruct (String.eqb ext k); reflexivity.
  - simpl. destruct (String.eqb_spec k0 ext) as [-> | Hne].
    + rewrite !countOf_cons. destruct (String.eqb ext k); lia.
    + rewrite !countOf_cons, IH.
      destruct (String.eqb_spec k0 k) as [-> | Hk]; [| reflexivity].
      destruct (String.eqb_spec ext k) as [-> | _]; [congruence | lia].
Qed.

Lemma bump_keys ext k counts :
  In k (map fst (bump ext counts)) <-> k = ext \/ In k (map fst counts).
Proof.
  induction counts as [| [k0 n] counts IH]; simpl; [intuition congruence |].
  destruct (String.eqb_spec k0 ext) as [-> | Hne]; simpl;
    [intuition congruence |].
  rewrite IH. tauto.
Qed.

Lemma bump_NoDup ext counts :
  NoDup (map fst counts) -> NoDup (map fst (bump ext counts)).
Proof.
  induction counts as [| [k0 n] counts IH]; simpl; intro H.
  - constructor; [intros [] | constructor].
  - inversion H as [| ? ? Hnot Hrest]; subst.
    destruct (String.eqb_spec k0 ext) as [-> | Hne]; simpl.
    + constructor; assumption.
    + constructor; [| auto].
      rewrite bump_keys. intros [-> | Hin]; [congruence | contradiction].
Qed.

Lemma bump_positive ext counts :
  Forall (fun entry => 1 <= snd entry) counts ->
  Forall (fun entry => 1 <= snd entry) (bump ext counts).
Proof.
  induction 1 as [| [k0 n] counts Hn H IH]; simpl.
  - constructor; [simpl; lia | constructor].
  - destruct (String.eqb k0 ext); constructor; simpl in *; auto; lia.
Qed.

Lemma In_countOf ext n counts :
  NoDup (map fst counts) -> In (ext, n) counts -> countOf ext counts = n.
Proof.
  induction counts as [| [k0 m] counts IH]; simpl; intros Hd Hin; [contradiction |].
  inversion Hd as [| ? ? Hnot Hrest]; subst. rewrite countOf_cons.
  destruct Hin as [E | Hin].
  - inversion E; subst. now rewrite String.eqb_refl.
  - destruct (String.eqb_spec k0 ext) as [-> | _]; [| auto].
    exfalso. apply Hnot. apply (in_map fst _ _ Hin).
Qed.

Lemma countOf_In ext counts :
  countOf ext counts <> 0 -> In ext (map fst counts).
Proof.
  induction counts as [| [k0 m] counts IH]; [unfold countOf; simpl; congruence |].
  rewrite countOf_cons.
  destruct (String.eqb_spec k0 ext) as [-> | _]; simpl; auto.
Qed.

Lemma countFiles_from extname allFiles : forall counts,
  NoDup (map fst counts) ->
  Forall (fun entry => 1 <= snd entry) counts ->
  let counts' :=
    fold_left (fun counts file => bump (extOf extname file) counts)
      allFiles counts in
  NoDup (map fst counts')
  /\ Forall (fun entry => 1 <= snd entry) counts'
  /\ list_sum (map snd counts')
     = list_sum (map snd counts) + List.length allFiles
  /\ forall ext,
       countOf ext counts'
       = countOf ext counts
         + List.length
             (filter (fun file => String.eqb (extOf extname file) ext) allFiles).
Proof.
  induction allFiles as [| file files IH]; intros counts Hd Hp; simpl.
  - repeat split; auto; intros; lia.
  - destruct (IH (bump (extOf extname file) counts)
                (bump_NoDup _ _ Hd) (bump_positive _ _ Hp))
      as (Hd' & Hp' & Hs & Hc).
    repeat split; auto.
    + rewrite Hs, bump_sum. lia.
    + intro ext. rewrite Hc, countOf_bump.
      destruct (String.eqb (extOf extname file) ext); simpl; lia.
Qed.

(** The counts of the report are exact: they add up to the total number
    of files, no extension is listed twice, every listed extension counts
    at least one file and as many as there are files with it, upper and
    lower case taken together, and the extension of every file is listed,
    [no_ext] standing for none. *)
Theorem extension_counts_are_exact :
  forall extname allFiles,
    dotted extname ->
    let counts := countFiles extname allFiles in
    list_sum (map snd counts) = totalFiles allFiles
    /\ NoDup (map fst counts)
    /\ (forall ext n,
          In (ext, n) counts ->
          1 <= n
          /\ n = List.length
                   (filter (fun file => String.eqb (extOf extname file) ext)
                      allFiles))
    /\ (forall file, In file allFiles -> In (extOf extname file) (map fst counts)).
Proof.
  intros extname allFiles _ counts.
  destruct (countFiles_from extname allFiles [] (NoDup_nil _) (Forall_nil _))
    as (Hd & Hp & Hs & Hc).
  fold (countFiles extname allFiles) in Hd, Hp, Hs, Hc. fold counts in Hd, Hp, Hs, Hc.
  split; [exact Hs |]. split; [exact Hd |]. split.
  - intros ext n Hin. split.
    + rewrite Forall_forall in Hp. exact (Hp _ Hin).
    + rewrite <- (In_countOf ext n counts Hd Hin), Hc. reflexivity.
  - intros file Hin. apply countOf_In. rewrite Hc.
    unfold countOf at 1. simpl.
    assert (L : In file (filter (fun file0 =>
                                   String.eqb (extOf extname file0) (extOf extname file))
                           allFiles)).
    { apply filter_In. split; [exact Hin | apply String.eqb_refl]. }
    destruct (filter _ allFiles); [contradiction | simpl; lia].
Qed.

Lemma extension_counts_are_exact_witness :
  countFiles extnameOfSample ["notes/a.TXT"; "Makefile"; "b.txt"]
    = [(".txt", 2); ("no_ext", 1)]
  /\ list_sum (map snd (countFiles extnameOfSample ["notes/a.TXT"; "Makefile"; "b.txt"]))
     = totalFiles ["notes/a.TXT"; "Makefile"; "b.txt"].
Proof.
  split; [reflexivity |].
  refine (proj1 (extension_counts_are_exact extnameOfSample
                   ["notes/a.TXT"; "Makefile"; "b.txt"] _)).
  intro file. unfold extnameOfSample.
  destruct (String.eqb file "notes/a.TXT"); [right; eexists; reflexivity |].
  destruct (String.eqb file "b.txt"); [right; eexists; reflexivity |].
  left; reflexivity.
Defined.

(** ** The countdown of the status line *)

(** The countdown of the status line counts to the next full minute of
    the clock, while the pull interval is armed one minute after the start:
    until the first tick the line tells the time left to the pull exactly
    when the program started on a full minute. *)
Theorem countdown_counts_to_the_full_minute :
  forall t0 subs now,
    (0 <= t0)%Z ->
    (t0 <= now < t0 + PULL_INTERVAL_MS)%Z ->
    pullTimer (main t0 subs) = Some (t0 + PULL_INTERVAL_MS)%Z
    /\ (0 < nextPullMs now <= PULL_INTERVAL_MS)%Z
    /\ ((now + nextPullMs now) mod PULL_INTERVAL_MS = 0)%Z
    /\ (nextPullMs now = t0 + PULL_INTERVAL_MS - now
        <-> t0 mod PULL_INTERVAL_MS = 0)%Z.
Proof.
  intros t0 subs now Ht0 Hnow. split; [reflexivity |].
  unfold nextPullMs. rewrite Z.rem_mod_nonneg by (unfold PULL_INTERVAL_MS; lia).
  unfold PULL_INTERVAL_MS in *.
  change (1 * 60 * 1000)%Z with 60000%Z in *.
  assert (B := Z.mod_pos_bound now 60000 ltac:(lia)).
  assert (D := Z.div_mod now 60000 ltac:(lia)).
  split; [lia |]. split.
  - replace (now + (60000 - now mod 60000))%Z
      with ((now / 60000 + 1) * 60000)%Z by lia.
    apply Z.mod_mul. lia.
  - assert (B0 := Z.mod_pos_bound t0 60000 ltac:(lia)).
    assert (D0 := Z.div_mod t0 60000 ltac:(lia)).
    split; intro H.
    + assert (E : t0 = (60000 * (now / 60000))%Z) by lia.
      rewrite E, Z.mul_comm. apply Z.mod_mul. lia.
    + assert (now / 60000 = t0 / 60000)%Z by nia. lia.
Qed.

Lemma countdown_counts_to_the_full_minute_witness :
  (nextPullMs 125000 = 55000
   /\ pullTimer (main 100000 []) = Some 160000)%Z.
Proof.
  destruct (countdown_counts_to_the_full_minute 100000 [] 125000) as (H & _);
    [lia | unfold PULL_INTERVAL_MS; lia |].
  split; [reflexivity | exact H].
Defined.

(** ** The settings of .gitmodules *)

Lemma allUnits_app class x y :
  allUnits class (x ++ y) = allUnits class x && allUnits class y.
Proof.
  induction x as [| c x IH]; simpl; [reflexivity |].
  now rewrite IH, andb_assoc.
Qed.

Lemma keyUnit_facts c :
  keyUnit c = true ->
  isWhiteSpace c = false /\ isDot c = true
  /\ Ascii.eqb c "=" = false /\ Ascii.eqb c "[" = false.
Proof.
  destruct c as [[] [] [] [] [] [] [] []]; vm_compute; intro H;
    try discriminate H; repeat split.
Qed.

Lemma white_is_no_keyUnit d t :
  isWhiteSpace d = true -> keyUnit t = true -> Ascii.eqb d t = false.
Proof.
  intros Hd Ht. destruct (Ascii.eqb_spec d t) as [-> |]; [| reflexivity].
  destruct (keyUnit_facts t Ht) as (H & _). congruence.
Qed.

Lemma lastOr_nonempty v p q : v <> "" -> lastOr p v = lastOr q v.
Proof. destruct v; [congruence | reflexivity]. Qed.

Lemma lastOr_dot v : allUnits isDot v = true ->
  forall c, isDot c = true -> exists c', lastOr (Some c) v = Some c' /\ isDot c' = true.
Proof.
  induction v as [| d v IH]; simpl; intros H c Hc; [eauto |].
  apply andb_true_iff in H. destruct H as [Hd Hv]. exact (IH Hv d Hd).
Qed.

Lemma starLoop_commit class (k : Continuation) w s :
  allUnits class w = true -> stops class s = true ->
  (forall p c t, class c = true -> k p (String c t) = None) ->
  forall prev, starLoop class k prev (w ++ s) = k (lastOr prev w) s.
Proof.
  intros Hw Hs Hk. induction w as [| c w IH]; intro prev.
  - simpl. destruct s as [| d s']; simpl; [reflexivity |].
    simpl in Hs. apply negb_true_iff in Hs. now rewrite Hs.
  - simpl in Hw. apply andb_true_iff in Hw. destruct Hw as [Hc Hw].
    simpl. rewrite Hc, (IH Hw (Some c)).
    destruct (k (lastOr (Some c) w) s); [reflexivity |].
    apply Hk. exact Hc.
Qed.

Lemma starLoop_greedy class (k : Continuation) w s found :
  allUnits class w = true -> stops class s = true ->
  forall prev,
    k (lastOr prev w) s = Some found ->
    starLoop class k prev (w ++ s) = Some found.
Proof.
  intros Hw Hs. induction w as [| c w IH]; intros prev H.
  - simpl in *. destruct s as [| d s']; simpl; [exact H |].
    simpl in Hs. apply negb_true_iff in Hs. now rewrite Hs.
  - simpl in Hw. apply andb_true_iff in Hw. destruct Hw as [Hc Hw].
    simpl. rewrite Hc, (IH Hw (Some c) H). reflexivity.
Qed.

Lemma plusGroup_stops class (k : Continuation) s :
  stops class s = true -> plusGroup class k s = None.
Proof.
  destruct s as [| d s']; simpl; [reflexivity |].
  intro H. apply negb_true_iff in H. now rewrite H.
Qed.

Lemma plusGroup_greedy class (k : Continuation) v s found :
  allUnits class v = true -> v <> "" -> stops class s = true ->
  k (lastOr None v) s = Some found ->
  plusGroup class k (v ++ s)
  = Some {| group1 := v ++ group1 found;
            lastUnit := lastUnit found;
            remaining := remaining found |}.
Proof.
  intros Hv Hne Hs. induction v as [| c v IH]; intro H; [congruence |].
  simpl in Hv. apply andb_true_iff in Hv. destruct Hv as [Hc Hv].
  simpl. rewrite Hc. destruct v as [| c' v'].
  - simpl in *. rewrite (plusGroup_stops class k s Hs), H. reflexivity.
  - rewrite (IH Hv ltac:(discriminate)); [reflexivity |].
    rewrite <- H. reflexivity.
Qed.

Lemma literal_key K :
  forall re' k d s' prev,
    allUnits keyUnit K = true -> allUnits keyUnit k = true ->
    isWhiteSpace d = true ->
    (forall p c t, keyUnit c = true -> matchAtoms re' p (String c t) = None) ->
    matchAtoms (literal K ++ re') prev (k ++ String d s')
    = if String.eqb k K then matchAtoms re' (lastOr prev k) (String d s')
      else None.
Proof.
  induction K as [| t K IH]; intros re' k d s' prev HK Hk Hd Hre.
  - destruct k as [| c k]; [reflexivity |].
    simpl in Hk. apply andb_true_iff in Hk. destruct Hk as [Hc _].
    simpl. apply Hre. exact Hc.
  - simpl in HK. apply andb_true_iff in HK. destruct HK as [Ht HK].
    destruct k as [| c k].
    + simpl. now rewrite (white_is_no_keyUnit d t Hd Ht).
    + simpl in Hk. apply andb_true_iff in Hk. destruct Hk as [Hc Hk].
      simpl. destruct (Ascii.eqb c t); [| reflexivity].
      apply IH; assumption.
Qed.

Lemma tail_needs_equals p c t :
  keyUnit c = true ->
  matchAtoms [Star isWhiteSpace; Lit "="; Star isWhiteSpace; GroupPlus isDot; Eol]
    p (String c t) = None.
Proof.
  intro Hc. destruct (keyUnit_facts c Hc) as (Hw & _ & He & _).
  simpl. now rewrite Hw, He.
Qed.

Lemma tail_value p v R :
  allUnits isDot v = true -> startsWithWord v = true ->
  matchAtoms [Star isWhiteSpace; Lit "="; Star isWhiteSpace; GroupPlus isDot; Eol]
    p (String " " (String "=" (String " " (v ++ String "010" R))))
  = Some {| group1 := v; lastUnit := lastOr None v; remaining := String "010" R |}.
Proof.
  intros Hv Hw.
  assert (Nv : v <> "") by (destruct v; [discriminate | discriminate]).
  assert (Sv : stops isWhiteSpace (v ++ String "010" R) = true)
    by (destruct v; [discriminate | exact Hw]).
  change (String " " (String "=" (String " " (v ++ String "010" R))))
    with (" " ++ String "=" (String " " (v ++ String "010" R))).
  cbn [matchAtoms]. apply starLoop_greedy; [reflexivity | reflexivity |].
  cbn [lastOr matchAtoms]. change (Ascii.eqb "=" "=") with true. cbv iota.
  change (String " " (v ++ String "010" R)) with (" " ++ (v ++ String "010" R)).
  apply starLoop_greedy; [reflexivity | exact Sv |].
  cbn [lastOr matchAtoms].
  rewrite (plusGroup_greedy isDot _ v (String "010" R)
             {| group1 := ""; lastUnit := lastOr None v;
                remaining := String "010" R |} Hv Nv eq_refl);
    [| reflexivity].
  simpl. now rewrite append_nil_r.
Qed.

Lemma isKey_units K :
  isKey K = true ->
  exists t K', K = String t K' /\ keyUnit t = true /\ allUnits keyUnit K = true.
Proof.
  unfold isKey. intro H. apply andb_true_iff in H. destruct H as [Hn HK].
  destruct K as [| t K']; [discriminate |].
  exists t, K'. split; [reflexivity |]. split; [| exact HK].
  simpl in HK. apply andb_true_iff in HK. tauto.
Qed.

Lemma setting_line K k v R prev :
  isKey K = true -> isKey k = true ->
  allUnits isDot v = true -> startsWithWord v = true ->
  atLineStart prev = true ->
  matchAtoms (settingRegex K) prev
    (printConfigLine (Setting k v) ++ String "010" R)
  = if String.eqb k K
    then Some {| group1 := v; lastUnit := lastOr None v;
                 remaining := String "010" R |}
    else None.
Proof.
  intros HK Hk Hv Hw Hp.
  destruct (isKey_units K HK) as (t & K' & EK & Ht & HKu).
  destruct (isKey_units k Hk) as (c & k' & Ek & Hc & Hku).
  assert (E : printConfigLine (Setting k v) ++ String "010" R
              = String "009" ""
                ++ (k ++ String " " (String "=" (String " " (v ++ String "010" R))))).
  { simpl. now rewrite append_assoc. }
  rewrite E. unfold settingRegex. cbn [app matchAtoms]. rewrite Hp.
  rewrite starLoop_commit; [| reflexivity | |].
  - cbn [lastOr].
    rewrite (literal_key K _ k " " _ (Some "009"%char) HKu Hku eq_refl
               tail_needs_equals).
    destruct (String.eqb k K); [| reflexivity].
    apply tail_value; assumption.
  - rewrite Ek. simpl. destruct (keyUnit_facts c Hc) as (Hws & _).
    now rewrite Hws.
  - intros p d s' Hd. rewrite EK. simpl.
    now rewrite (white_is_no_keyUnit d t Hd Ht).
Qed.

Lemma header_line K text R prev :
  isKey K = true ->
  matchAtoms (settingRegex K) prev
    (printConfigLine (Header text) ++ String "010" R) = None.
Proof.
  intro HK. destruct (isKey_units K HK) as (t & K' & EK & Ht & _).
  destruct (keyUnit_facts t Ht) as (_ & _ & _ & Hb).
  rewrite Ascii.eqb_sym in Hb.
  unfold settingRegex. rewrite EK.
  change (printConfigLine (Header text) ++ String "010" R)
    with (String "[" (text ++ String "010" R)).
  cbn [app literal matchAtoms].
  destruct (atLineStart prev); [| reflexivity].
  cbn [starLoop]. change (isWhiteSpace "[") with false. cbv iota.
  cbn [matchAtoms]. now rewrite Hb.
Qed.

Lemma not_at_line_start K c s :
  isDot c = true -> matchAtoms (settingRegex K) (Some c) s = None.
Proof.
  unfold isDot. intro H. apply negb_true_iff in H.
  unfold settingRegex. simpl. now rewrite H.
Qed.

Lemma execFrom_eq re prev s :
  execFrom re prev s
  = match matchAtoms re prev s with
    | Some found => Some found
    | None =>
        match s with
        | String c s' => execFrom re (Some c) s'
        | EmptyString => None
        end
    end.
Proof. destruct s; reflexivity. Qed.

Lemma skip_line K L R : forall c,
  isDot c = true -> allUnits isDot L = true ->
  execFrom (settingRegex K) (Some c) (L ++ String "010" R)
  = execFrom (settingRegex K) (Some "010"%char) R.
Proof.
  induction L as [| d L IH]; intros c Hc HL.
  - rewrite execFrom_eq, (not_at_line_start K c _ Hc). reflexivity.
  - simpl in HL. apply andb_true_iff in HL. destruct HL as [Hd HL].
    rewrite execFrom_eq, (not_at_line_start K c _ Hc).
    simpl. exact (IH d Hd HL).
Qed.

Lemma execLoop_eq fuel re prev s :
  execLoop (S fuel) re prev s
  = match execFrom re prev s with
    | Some found =>
        group1 found :: execLoop fuel re (lastUnit found) (remaining found)
    | None => []
    end.
Proof. reflexivity. Qed.

Lemma execLoop_same fuel re p s p' s' :
  execFrom re p s = execFrom re p' s' ->
  execLoop fuel re p s = execLoop fuel re p' s'.
Proof. destruct fuel; simpl; [reflexivity |]. now intros ->. Qed.

Lemma keyUnits_dots k : allUnits keyUnit k = true -> allUnits isDot k = true.
Proof.
  induction k as [| c k IH]; simpl; [reflexivity |].
  intro H. apply andb_true_iff in H. destruct H as [Hc Hk].
  destruct (keyUnit_facts c Hc) as (_ & Hd & _). now rewrite Hd, IH.
Qed.

Lemma valuesOf_length K ls : List.length (valuesOf K ls) <= List.length ls.
Proof.
  induction ls as [| [text | k v] ls IH]; simpl; [lia | lia |].
  destruct (String.eqb k K); simpl; lia.
Qed.

Lemma append_length x y :
  String.length (x ++ y) = String.length x + String.length y.
Proof. induction x as [| c x IH]; simpl; [reflexivity | now rewrite IH]. Qed.

Lemma printLines_length ls :
  List.length ls <= String.length (printLines ls).
Proof.
  induction ls as [| l ls IH]; simpl; [lia |].
  rewrite append_length. simpl. lia.
Qed.

Lemma starLoop_length class (k : Continuation) n :
  (forall p t found,
     k p t = Some found -> String.length (remaining found) + n <= String.length t) ->
  forall s prev found,
    starLoop class k prev s = Some found ->
    String.length (remaining found) + n <= String.length s.
Proof.
  intros Hk. induction s as [| c s IH]; simpl; intros prev found H.
  - exact (Hk _ _ _ H).
  - destruct (class c); [| exact (Hk _ _ _ H)].
    destruct (starLoop class k (Some c) s) eqn:E.
    + inversion H; subst. specialize (IH _ _ E). lia.
    + exact (Hk _ _ _ H).
Qed.

Lemma plusGroup_length class (k : Continuation) n :
  (forall p t found,
     k p t = Some found -> String.length (remaining found) + n <= String.length t) ->
  forall s found,
    plusGroup class k s = Some found ->
    String.length (remaining found) + S n <= String.length s.
Proof.
  intros Hk. induction s as [| c s IH]; simpl; intros found H; [discriminate |].
  destruct (class c); [| discriminate].
  destruct (plusGroup class k s) eqn:E.
  - inversion H; subst. specialize (IH _ eq_refl). simpl. lia.
  - destruct (k (Some c) s) eqn:Ek; [| discriminate].
    inversion H; subst. specialize (Hk _ _ _ Ek). simpl. lia.
Qed.

Lemma matchAtoms_length re : forall prev s found,
  matchAtoms re prev s = Some found ->
  String.length (remaining found) + minUnits re <= String.length s.
Proof.
  induction re as [| a re IH]; intros prev s found H.
  - inversion H; subst. simpl. lia.
  - destruct a as [| | c | class | class]; simpl in H |- *.
    + destruct (atLineStart prev); [eauto | discriminate].
    + destruct (atLineEnd s); [eauto | discriminate].
    + destruct s as [| c' s']; [discriminate |].
      destruct (Ascii.eqb c' c); [| discriminate].
      specialize (IH _ _ _ H). simpl. lia.
    + exact (starLoop_length class _ _ IH _ _ _ H).
    + assert (L := plusGroup_length class _ _ IH _ _ H). lia.
Qed.

Lemma execFrom_length re s : forall prev found,
  execFrom re prev s = Some found ->
  String.length (remaining found) + minUnits re <= String.length s.
Proof.
  induction s as [| c s IH]; intros prev found H; rewrite execFrom_eq in H.
  - destruct (matchAtoms re prev "") eqn:E; [| discriminate].
    inversion H; subst. exact (matchAtoms_length _ _ _ _ E).
  - destruct (matchAtoms re prev (String c s)) eqn:E.
    + inversion H; subst. exact (matchAtoms_length _ _ _ _ E).
    + specialize (IH _ _ H). simpl. lia.
Qed.

(** The loop over the matches has come to its end after one turn for each
    code unit, and one more: further turns add nothing. *)
Lemma execLoop_fuel re :
  0 < minUnits re ->
  forall fuel fuel' prev s,
    String.length s < fuel -> String.length s < fuel' ->
    execLoop fuel re prev s = execLoop fuel' re prev s.
Proof.
  intros Hre. induction fuel as [| fuel IH]; intros fuel' prev s H H'; [lia |].
  destruct fuel' as [| fuel']; [lia |].
  rewrite !execLoop_eq. destruct (execFrom re prev s) eqn:E; [| reflexivity].
  assert (L := execFrom_length _ _ _ _ E). f_equal. apply IH; lia.
Qed.

(** The matches of the expression on a well-formed file, from the start of
    a line on. *)
Lemma execLoop_config K :
  isKey K = true ->
  forall ls,
    forallb wellFormedConfigLine ls = true ->
    forall fuel prev,
      atLineStart prev = true ->
      List.length (valuesOf K ls) < fuel ->
      execLoop fuel (settingRegex K) prev (printConfig ls) = valuesOf K ls.
Proof.
  intros HK. destruct (isKey_units K HK) as (t & K' & EK & Ht & _).
  induction ls as [| l ls IH]; intros Hls fuel prev Hp Hf.
  - destruct fuel; [reflexivity |]. simpl.
    unfold settingRegex. rewrite EK. simpl. rewrite Hp. reflexivity.
  - simpl in Hls. apply andb_true_iff in Hls. destruct Hls as [Hl Hls].
    unfold printConfig. simpl map. simpl printLines.
    fold (printConfig ls).
    destruct l as [text | k v].
    + simpl valuesOf. simpl in Hf. simpl in Hl.
      rewrite (execLoop_same fuel _ prev _ (Some "010"%char) (printConfig ls)).
      * apply IH; auto.
      * rewrite execFrom_eq, (header_line K text _ prev HK).
        simpl. apply skip_line; [reflexivity | exact Hl].
    + simpl in Hl. apply andb_true_iff in Hl. destruct Hl as [Hl Hw].
      apply andb_true_iff in Hl. destruct Hl as [Hk Hv].
      assert (M := setting_line K k v (printConfig ls) prev HK Hk Hv Hw Hp).
      simpl valuesOf in *.
      destruct (String.eqb k K).
      * destruct fuel as [| fuel]; [simpl in Hf; lia |].
        simpl in Hf. rewrite execLoop_eq, execFrom_eq, M. cbn [group1 lastUnit remaining]. f_equal.
        rewrite (execLoop_same fuel _ _ _ (Some "010"%char) (printConfig ls)).
        -- apply IH; auto. lia.
        -- destruct v as [| c v']; [discriminate |].
           simpl in Hv. apply andb_true_iff in Hv. destruct Hv as [Hc Hv].
           destruct (lastOr_dot v' Hv c Hc) as (c' & El & Hc').
           simpl lastOr. rewrite El.
           exact (skip_line K "" (printConfig ls) c' Hc' eq_refl).
      * rewrite (execLoop_same fuel _ prev _ (Some "010"%char) (printConfig ls)).
        -- apply IH; auto.
        -- rewrite execFrom_eq, M.
           destruct (isKey_units k Hk) as (c & k' & Ek & Hc & Hku).
           simpl. apply skip_line; [reflexivity |].
           rewrite allUnits_app, (keyUnits_dots k Hku). simpl. exact Hv.
Qed.

Lemma captures_config K ls :
  isKey K = true ->
  forallb wellFormedConfigLine ls = true ->
  captures (settingRegex K) (printConfig ls) = valuesOf K ls.
Proof.
  intros HK Hls. unfold captures.
  apply execLoop_config; [exact HK | exact Hls | reflexivity |].
  assert (A := valuesOf_length K ls).
  assert (B := printLines_length (map printConfigLine ls)).
  rewrite length_map in B. unfold printConfig. lia.
Qed.





(** On a well-formed [.gitmodules] the URL check of [verifyRepo] stops on
    the first [url] setting whose trimmed value does not start with
    [ssh://], and on nothing else: an address of the form [user@host:path]
    is refused although git reaches it over SSH. *)
Theorem url_check_demands_the_ssh_scheme :
  forall ls,
    forallb wellFormedConfigLine ls = true ->
    invalidUrl (printConfig ls)
    = find (fun url => negb (String.prefix "ssh://" url))
        (map trim (valuesOf "url" ls)).
Proof.
  intros ls H. unfold invalidUrl.
  change urlRegex with (settingRegex "url").
  now rewrite (captures_config "url" ls eq_refl H).
Qed.

Lemma url_check_demands_the_ssh_scheme_witness :
  invalidUrl (printConfig (oneSubmodule "notes/vault" "git@host:vault.git"))
  = Some "git@host:vault.git".
Proof.
  apply (url_check_demands_the_ssh_scheme
           (oneSubmodule "notes/vault" "git@host:vault.git")).
  reflexivity.
Defined.

(** ** The debounce of the earlier script *)

Lemma legacy_start_kept t0 : Legacy.Kept (Legacy.start t0).
Proof.
  unfold Legacy.Kept. simpl. split; [left; reflexivity |].
  split; [intros t before [] | lia].
Qed.

Lemma legacy_step_kept s t e s' :
  Legacy.Kept s -> Legacy.step s t e = Some s' -> Legacy.Kept s'.
Proof.
  intros (Ha & Hc & Hn). unfold Legacy.step.
  destruct (t <? Legacy.now s)%Z; [discriminate |].
  destruct e as [| h].
  - intro E; inversion E; subst; clear E.
    assert (C : Legacy.cleared
                  {| Legacy.now := t;
                     Legacy.commitTimeout := Legacy.commitTimeout s;
                     Legacy.armed := Legacy.armed s;
                     Legacy.fresh := Legacy.fresh s;
                     Legacy.changeTimes := t :: Legacy.changeTimes s;
                     Legacy.calls := Legacy.calls s |} = []).
    { unfold Legacy.cleared. simpl.
      destruct Ha as [-> | (h & latest & earlier & -> & -> & _)].
      - destruct (Legacy.commitTimeout s); reflexivity.
      - simpl. now rewrite Nat.eqb_refl. }
    unfold Legacy.Kept, Legacy.debounce. rewrite C. simpl.
    split; [| split; [exact Hc | lia]].
    right. exists (Legacy.fresh s), t, (Legacy.changeTimes s). auto.
  - destruct (find _ (Legacy.armed s)) as [[h' due] |] eqn:F; [| discriminate].
    destruct (due <=? t)%Z eqn:D; [| discriminate].
    intro E; inversion E; subst; clear E.
    apply Z.leb_le in D.
    destruct Ha as [Ea | (h0 & latest & earlier & Ea & Et & Ec)];
      rewrite Ea in F; simpl in F; [discriminate |].
    destruct (Nat.eqb h0 h) eqn:Eh; [| discriminate].
    inversion F; subst; clear F.
    unfold Legacy.Kept. simpl. rewrite Ea. simpl. rewrite Eh. simpl.
    split; [left; reflexivity |]. split.
    + intros t' before [E | Hin]; [| exact (Hc _ _ Hin)].
      inversion E; subst. rewrite Ec. eauto.
    + rewrite Ea in Hn. simpl in Hn. lia.
Qed.

Lemma legacy_run_kept trace : forall s s',
  Legacy.Kept s -> Legacy.run s trace = Some s' -> Legacy.Kept s'.
Proof.
  induction trace as [| [t e] rest IH]; simpl; intros s s' K E.
  - inversion E; subst; exact K.
  - destruct (Legacy.step s t e) as [s1 |] eqn:Es; [| discriminate].
    exact (IH _ _ (legacy_step_kept _ _ _ _ K Es) E).
Qed.

(** In the earlier script, after any sequence of change events and timer
    expiries: at most one timer is armed; the debounced function was never
    called sooner than [DEBOUNCE_MS] after the latest change before the
    call; and it was called at most once for each change. *)
Theorem legacy_debounce_waits_for_quiet :
  forall t0 trace s,
    Legacy.run (Legacy.start t0) trace = Some s ->
    List.length (Legacy.armed s) <= 1
    /\ (forall t before,
          In (t, before) (Legacy.calls s) ->
          exists latest earlier,
            before = latest :: earlier
            /\ (latest + Legacy.DEBOUNCE_MS <= t)%Z)
    /\ List.length (Legacy.calls s) <= List.length (Legacy.changeTimes s).
Proof.
  intros t0 trace s E.
  destruct (legacy_run_kept trace _ _ (legacy_start_kept t0) E) as (Ha & Hc & Hn).
  split; [| split; [exact Hc | lia]].
  destruct Ha as [-> | (h & latest & earlier & -> & _)]; simpl; lia.
Qed.

Lemma legacy_debounce_waits_for_quiet_witness :
  exists s,
    Legacy.run (Legacy.start 0)
      [(0%Z, Legacy.Changed); (200%Z, Legacy.Changed);
       (700%Z, Legacy.Expires 2)] = Some s
    /\ Legacy.calls s = [(700%Z, [200%Z; 0%Z])]
    /\ List.length (Legacy.armed s) <= 1.
Proof.
  eexists. split; [vm_compute; reflexivity |]. split; [reflexivity |].
  refine (proj1 (legacy_debounce_waits_for_quiet 0
                   [(0%Z, Legacy.Changed); (200%Z, Legacy.Changed);
                    (700%Z, Legacy.Expires 2)] _ _)).
  vm_compute; reflexivity.
Defined.
